(** * Moodify frontend

    A shallow embedding of the TypeScript sources of the Moodify web client:
    - [frontend/lib/spotify-api.ts]: the REST client [SpotifyAPI];
    - [frontend/components/SongAutocomplete.tsx] and the artist twin: the
      debounced search boxes;
    - the [MoodCollageDisplay] component;
    - [shuffleArray] of the utilities module.

    JavaScript values are an inductive type, promises are represented by the
    way they settle, and the outside world (network, console, Math.random) is
    a record threaded through a small state-and-exception monad. *)

From Stdlib Require Import PrimFloat Uint63 ZArith Ascii String Permutation.
From Stdlib Require DecimalString.
From stdpp Require Import base strings list gmap.

Set Warnings "-register-all".
Open Scope string_scope.

(** ** JavaScript values *)

(** Values that travel through the client: what [JSON.parse] produces, plus
    [undefined], which is what reading a missing property gives.  Numbers are
    IEEE 754 doubles.  An object is the list of its own properties. *)
Inductive JSValue : Type :=
| JUndefined
| JNull
| JBool (b : bool)
| JNum (n : float)
| JStr (s : string)
| JArr (items : list JSValue)
| JObj (fields : list (string * JSValue)).

(** Values a [throw] or a rejected promise carries: an error object of some
    class, with the value its message was built from. *)
Inductive Thrown : Type :=
| JsError (class : string) (message : JSValue).

(** [new Error(m)] *)
Definition new_Error (m : JSValue) : Thrown := JsError "Error" m.

(** The TypeError of a read on [null]/[undefined] or of a call of something
    that is not a function. *)
Definition new_TypeError (what : string) : Thrown := JsError "TypeError" (JStr what).

(** How a promise settles. *)
Inductive Settled (A : Type) : Type :=
| Resolved (a : A)
| Rejected (e : Thrown).
Arguments Resolved {A} a.
Arguments Rejected {A} e.

(** ToBoolean. *)
Definition truthy (v : JSValue) : bool :=
  match v with
  | JUndefined | JNull => false
  | JBool b => b
  | JNum n => negb (PrimFloat.is_zero n || PrimFloat.is_nan n)
  | JStr s => negb (String.eqb s "")
  | JArr _ | JObj _ => true
  end.

(** [a || b] on values (both already evaluated; where the right operand has
    an effect the methods below branch on [truthy] themselves). *)
Definition js_or (a b : JSValue) : JSValue := if truthy a then a else b.

Fixpoint own_property (k : string) (fields : list (string * JSValue)) : JSValue :=
  match fields with
  | [] => JUndefined
  | (k', v) :: rest => if String.eqb k k' then v else own_property k rest
  end.

Definition number_of_nat (n : nat) : float :=
  PrimFloat.of_uint63 (Uint63.of_Z (Z.of_nat n)).

(** [v.k] for the property names this client reads.  None of them is
    inherited from a prototype, so the read is an own-property lookup on an
    object, [length] on arrays and strings, [undefined] on the other
    primitives, and a TypeError on [null] and [undefined]. *)
Definition get_prop (v : JSValue) (k : string) : Settled JSValue :=
  match v with
  | JUndefined => Rejected (new_TypeError ("Cannot read properties of undefined: " ++ k))
  | JNull => Rejected (new_TypeError ("Cannot read properties of null: " ++ k))
  | JObj fields => Resolved (own_property k fields)
  | JArr items =>
      Resolved (if String.eqb k "length" then JNum (number_of_nat (length items)) else JUndefined)
  | JStr s =>
      Resolved (if String.eqb k "length" then JNum (number_of_nat (String.length s)) else JUndefined)
  | JBool _ | JNum _ => Resolved JUndefined
  end.

(** [v[0]], read on a value already known not to be [null]/[undefined]. *)
Definition get_first (v : JSValue) : JSValue :=
  match v with
  | JArr (x :: _) => x
  | JStr (String c _) => JStr (String c "")
  | JObj fields => own_property "0" fields
  | _ => JUndefined
  end.

(** ** The outside world *)

(** A draw of [Math.random()]: a double in [0, 1) is a rational
    [numerator / (numerator + gap + 1)], and every such pair is below 1. *)
Record Sample : Type := { numerator : nat; gap : nat }.

(** [Math.floor(r * n)] for a draw [r] and a non-negative integer [n].  The
    product is taken exactly here, where the source rounds it to a double
    before the floor, which for some draws gives the next index up; the
    rounded product stays below [n] as well.  So what this index shares with
    the source's is its range, 0 to [n - 1], and that it is decided by [r] and
    [n] alone, not its value at a given draw. *)
Definition floor_times (r : Sample) (n : nat) : nat :=
  Nat.div (numerator r * n) (numerator r + gap r + 1).

Inductive Method : Type := GET | POST.

(** A value given to [URLSearchParams]; [PNum n] stands for [n.toString()]. *)
Inductive ParamValue : Type :=
| PStr (s : string)
| PNum (n : float).

(** What [fetch] is called with.  The query is kept as the entries of the
    [URLSearchParams] that are appended after [?]; the body as the JSON value
    its text encodes. *)
Record Request : Type := {
  url : string;
  query : list (string * ParamValue);
  method : Method;
  headers : list (string * string);
  body : option JSValue
}.

(** What the client reads of a response: the [ok] flag and how the promise
    of [response.json()] settles. *)
Record Response : Type := {
  ok : bool;
  json : Settled JSValue
}.

Record World : Type := {
  network : nat -> Request -> Settled Response; (* how the n-th fetch settles *)
  fetched : list Request;                       (* requests sent, oldest first *)
  random : nat -> Sample;                       (* the stream of Math.random() *)
  draws : nat;                                  (* draws consumed *)
  console : list (string * Thrown)              (* console.error lines, oldest first *)
}.

(** ** Async functions *)

Definition Async (A : Type) : Type := World -> Settled A * World.

Definition ret {A} (a : A) : Async A := fun w => (Resolved a, w).

Definition throw {A} (e : Thrown) : Async A := fun w => (Rejected e, w).

Definition bind {A B} (m : Async A) (k : A -> Async B) : Async B :=
  fun w =>
    match m w with
    | (Resolved a, w') => k a w'
    | (Rejected e, w') => (Rejected e, w')
    end.

Notation "'do' x <- m ; k" := (bind m (fun x => k))
  (at level 10, x name, m at level 100, k at level 200).

(** [try { m } catch (error) { h error }] *)
Definition try_catch {A} (m : Async A) (h : Thrown -> Async A) : Async A :=
  fun w =>
    match m w with
    | (Resolved a, w') => (Resolved a, w')
    | (Rejected e, w') => h e w'
    end.

(** A synchronous step that may throw, or the [await] of a settled promise. *)
Definition await {A} (r : Settled A) : Async A :=
  match r with
  | Resolved a => ret a
  | Rejected e => throw e
  end.

Definition fetch (r : Request) : Async Response :=
  fun w =>
    (network w (length (fetched w)) r,
     {| network := network w; fetched := fetched w ++ [r];
        random := random w; draws := draws w; console := console w |}).

Definition console_error (label : string) (e : Thrown) : Async unit :=
  fun w =>
    (Resolved tt,
     {| network := network w; fetched := fetched w;
        random := random w; draws := draws w;
        console := console w ++ [(label, e)] |}).

Definition Math_random : Async Sample :=
  fun w =>
    (Resolved (random w (draws w)),
     {| network := network w; fetched := fetched w;
        random := random w; draws := S (draws w); console := console w |}).

(** [items.map(f)] for a callback with effects, left to right. *)
Fixpoint map_async {A B} (f : A -> Async B) (items : list A) : Async (list B) :=
  match items with
  | [] => ret []
  | x :: rest =>
      do y <- f x;
      do ys <- map_async f rest;
      ret (y :: ys)
  end.

(** [v.map(f)]: only an array has a [map] to call. *)
Definition Array_map (v : JSValue) (f : JSValue -> Async JSValue) : Async JSValue :=
  match v with
  | JArr items => do ys <- map_async f items; ret (JArr ys)
  | JUndefined | JNull => throw (new_TypeError "Cannot read properties: map")
  | _ => throw (new_TypeError "map is not a function")
  end.

(** ** frontend/lib/spotify-api.ts *)

(** [process.env.NEXT_PUBLIC_API_URL || 'http://localhost:8000/api/v1'] *)
Definition API_BASE_URL (env : option string) : string :=
  match env with
  | Some s => if String.eqb s "" then "http://localhost:8000/api/v1" else s
  | None => "http://localhost:8000/api/v1"
  end.

Record SeedSong : Type := {
  song_name : string;
  artist : string;
  spotify_id : option string
}.

Record SeedArtist : Type := {
  artist_name : string;
  artist_spotify_id : option string
}.

Record PlaylistGenerationRequest : Type := {
  songs : option (list SeedSong);
  artists : option (list SeedArtist);
  emotion : option (list string);
  num_results : option float;
  enrich_with_lyrics : option bool
}.

(** The argument type of [getRecommendations]:
    [{ name: string; artist: string; spotify_id?: string }]. *)
Record SeedTrack : Type := {
  track_name : string;
  track_artist : string;
  track_spotify_id : option string
}.

Record SpotifyAPI : Type := { baseUrl : string }.

(** [constructor(baseUrl: string = API_BASE_URL)] *)
Definition new_SpotifyAPI (env : option string) (baseUrl : option string) : SpotifyAPI :=
  {| baseUrl := default (API_BASE_URL env) baseUrl |}.

(** [JSON.stringify(request)]: a property that is [undefined] is left out,
    and a number that is not finite is written [null]. *)
Definition optional {A} (k : string) (enc : A -> JSValue) (o : option A)
  : list (string * JSValue) :=
  match o with
  | Some a => [(k, enc a)]
  | None => []
  end.

Definition JSON_number (n : float) : JSValue :=
  if (PrimFloat.is_nan n || PrimFloat.is_infinity n)%bool then JNull else JNum n.

Definition JSON_song (s : SeedSong) : JSValue :=
  JObj ([("song_name", JStr (song_name s)); ("artist", JStr (artist s))]
        ++ optional "spotify_id" JStr (spotify_id s)).

Definition JSON_artist (a : SeedArtist) : JSValue :=
  JObj ([("artist_name", JStr (artist_name a))]
        ++ optional "spotify_id" JStr (artist_spotify_id a)).

Definition JSON_stringify (request : PlaylistGenerationRequest) : JSValue :=
  JObj (optional "songs" (fun l => JArr (map JSON_song l)) (songs request)
        ++ optional "artists" (fun l => JArr (map JSON_artist l)) (artists request)
        ++ optional "emotion" (fun l => JArr (map JStr l)) (emotion request)
        ++ optional "num_results" JSON_number (num_results request)
        ++ optional "enrich_with_lyrics" JBool (enrich_with_lyrics request)).

Section Client.

(** [x.toString(36)] of a draw of [Math.random()]; the digits are not what
    the client depends on, so the conversion is a parameter. *)
Variable toString36 : Sample -> string.

(** ToNumber on the values that are neither numbers, booleans, [null] nor
    [undefined] (strings are parsed, objects are first made primitive). *)
Variable ToNumber_other : JSValue -> float.

Definition ToNumber (v : JSValue) : float :=
  match v with
  | JUndefined => PrimFloat.nan
  | JNull => PrimFloat.zero
  | JBool b => if b then PrimFloat.one else PrimFloat.zero
  | JNum n => n
  | _ => ToNumber_other v
  end.

(** [v > 0] *)
Definition gt_zero (v : JSValue) : bool := PrimFloat.ltb PrimFloat.zero (ToNumber v).

(** The callback of [data.playlist.map] in [generatePlaylist]. *)
Definition playlist_track (song : JSValue) : Async JSValue :=
  do spotify_id <- await (get_prop song "spotify_id");
  do id <- (if truthy spotify_id then ret spotify_id
            else do r <- Math_random;
                 ret (JStr ("track-" ++ String.substring 2 9 (toString36 r))));
  do name <- await (get_prop song "song_name");
  do artist <- await (get_prop song "artist");
  do album <- await (get_prop song "album");
  do preview_url <- await (get_prop song "preview_url");
  do similarity_score <- await (get_prop song "similarity_score");
  do external_url <- await (get_prop song "external_url");
  do duration_ms <- await (get_prop song "duration_ms");
  do popularity <- await (get_prop song "popularity");
  do album_image <- await (get_prop song "album_image");
  ret (JObj [("id", id); ("name", name); ("artist", artist); ("album", album);
             ("preview_url", preview_url); ("similarity_score", similarity_score);
             ("external_url", external_url); ("duration_ms", duration_ms);
             ("popularity", popularity); ("album_image", album_image)]).

Definition generatePlaylist (this : SpotifyAPI) (request : PlaylistGenerationRequest)
  : Async JSValue :=
  try_catch
    (do response <- fetch {| url := baseUrl this ++ "/generate-playlist";
                             query := [];
                             method := POST;
                             headers := [("Content-Type", "application/json")];
                             body := Some (JSON_stringify request) |};
     if negb (ok response) then
       do error <- await (json response);
       do detail <- await (get_prop error "detail");
       throw (new_Error (js_or detail (JStr "Failed to generate playlist")))
     else
       do data <- await (json response);
       do backend <- await (get_prop data "playlist");
       do playlist <- Array_map backend playlist_track;
       do emotion_features <- await (get_prop data "emotion_features");
       do combined_embedding <- await (get_prop data "combined_embedding");
       ret (JObj [("playlist", playlist);
                  ("emotion_features", emotion_features);
                  ("combined_embedding", combined_embedding)]))
    (fun error =>
       do _ <- console_error "Spotify API Error:" error;
       throw error).

Definition fallback_emotions : JSValue :=
  JArr [JStr "happy"; JStr "sad"; JStr "energetic"; JStr "calm"; JStr "angry";
        JStr "melancholic"; JStr "hopeful"; JStr "romantic"; JStr "anxious";
        JStr "peaceful"].

Definition getEmotions (this : SpotifyAPI) : Async JSValue :=
  try_catch
    (do response <- fetch {| url := baseUrl this ++ "/emotions"; query := [];
                             method := GET; headers := []; body := None |};
     if negb (ok response) then
       throw (new_Error (JStr "Failed to fetch emotions"))
     else
       do data <- await (json response);
       await (get_prop data "emotions"))
    (fun error =>
       do _ <- console_error "Failed to get emotions:" error;
       ret fallback_emotions).

Definition healthCheck (this : SpotifyAPI) : Async JSValue :=
  try_catch
    (do response <- fetch {| url := baseUrl this ++ "/health"; query := [];
                             method := GET; headers := []; body := None |};
     if negb (ok response) then
       throw (new_Error (JStr "Health check failed"))
     else
       await (json response))
    (fun error =>
       do _ <- console_error "Health check error:" error;
       throw error).

(** [numResults: number = 20] *)
Definition searchByEmotion (this : SpotifyAPI) (emotion : string)
    (numResults : option float) : Async JSValue :=
  generatePlaylist this
    {| songs := None; artists := None;
       emotion := Some [emotion];
       num_results := Some (default 20%float numResults);
       enrich_with_lyrics := None |}.

Definition getRecommendations (this : SpotifyAPI) (seedTracks : list SeedTrack)
    (emotion : option string) (numResults : option float) : Async JSValue :=
  generatePlaylist this
    {| songs := Some (map (fun track =>
                             {| song_name := track_name track;
                                artist := track_artist track;
                                spotify_id := track_spotify_id track |})
                          seedTracks);
       artists := None;
       emotion := match emotion with
                  | Some e => if String.eqb e "" then None else Some [e]
                  | None => None
                  end;
       num_results := Some (default 20%float numResults);
       enrich_with_lyrics := None |}.

(** [if (artist) params.append('artist', artist)] *)
Definition append_artist (artist : option string) : list (string * ParamValue) :=
  match artist with
  | Some a => if String.eqb a "" then [] else [("artist", PStr a)]
  | None => []
  end.

Definition searchTrack (this : SpotifyAPI) (songName : string) (artist : option string)
  : Async JSValue :=
  try_catch
    (do response <- fetch {| url := baseUrl this ++ "/spotify/search";
                             query := [("song_name", PStr songName); ("limit", PStr "1")]
                                      ++ append_artist artist;
                             method := GET; headers := []; body := None |};
     if negb (ok response) then
       throw (new_Error (JStr "Failed to search track"))
     else
       do data <- await (json response);
       do tracks <- await (get_prop data "tracks");
       if truthy tracks then
         do len <- await (get_prop tracks "length");
         if gt_zero len then ret (get_first tracks) else ret JNull
       else ret JNull)
    (fun error =>
       do _ <- console_error "Search track error:" error;
       throw error).

(** The callback of [(data.tracks || []).map] in [searchTracks]. *)
Definition search_result_track (track : JSValue) : Async JSValue :=
  do spotify_id <- await (get_prop track "spotify_id");
  do id <- (if truthy spotify_id then ret spotify_id else await (get_prop track "id"));
  do song_name <- await (get_prop track "song_name");
  do name <- (if truthy song_name then ret song_name else await (get_prop track "name"));
  do artist <- await (get_prop track "artist");
  do album <- await (get_prop track "album");
  do preview_url <- await (get_prop track "preview_url");
  do external_url <- await (get_prop track "external_url");
  do duration_ms <- await (get_prop track "duration_ms");
  do popularity <- await (get_prop track "popularity");
  do album_image <- await (get_prop track "album_image");
  ret (JObj [("id", id); ("name", name); ("artist", artist); ("album", album);
             ("preview_url", preview_url); ("similarity_score", JNum PrimFloat.zero);
             ("external_url", external_url); ("duration_ms", duration_ms);
             ("popularity", popularity); ("album_image", album_image)]).

(** [limit: number = 10] *)
Definition searchTracks (this : SpotifyAPI) (songName : string) (artist : option string)
    (limit : option float) : Async JSValue :=
  try_catch
    (do response <- fetch {| url := baseUrl this ++ "/spotify/search";
                             query := [("song_name", PStr songName);
                                       ("limit", PNum (default 10%float limit))]
                                      ++ append_artist artist;
                             method := GET; headers := []; body := None |};
     if negb (ok response) then
       throw (new_Error (JStr "Failed to search tracks"))
     else
       do data <- await (json response);
       do tracks <- await (get_prop data "tracks");
       Array_map (js_or tracks (JArr [])) search_result_track)
    (fun error =>
       do _ <- console_error "Search tracks error:" error;
       ret (JArr [])).

(** The callback of [(data.artists || []).map] in [searchArtists]. *)
Definition search_result_artist (artist : JSValue) : Async JSValue :=
  do spotify_id <- await (get_prop artist "spotify_id");
  do id <- (if truthy spotify_id then ret spotify_id else await (get_prop artist "id"));
  do name <- await (get_prop artist "name");
  do genres <- await (get_prop artist "genres");
  do popularity <- await (get_prop artist "popularity");
  do image_url <- await (get_prop artist "image_url");
  do external_url <- await (get_prop artist "external_url");
  ret (JObj [("id", id); ("name", name);
             ("genres", js_or genres (JArr []));
             ("popularity", js_or popularity (JNum PrimFloat.zero));
             ("image_url", image_url); ("external_url", external_url)]).

Definition searchArtists (this : SpotifyAPI) (artistName : string) (limit : option float)
  : Async JSValue :=
  try_catch
    (do response <- fetch {| url := baseUrl this ++ "/spotify/artist/search";
                             query := [("artist_name", PStr artistName);
                                       ("limit", PNum (default 10%float limit))];
                             method := GET; headers := []; body := None |};
     if negb (ok response) then
       throw (new_Error (JStr "Failed to search artists"))
     else
       do data <- await (json response);
       do artists <- await (get_prop data "artists");
       Array_map (js_or artists (JArr [])) search_result_artist)
    (fun error =>
       do _ <- console_error "Search artists error:" error;
       ret (JArr [])).

Definition getTrackById (this : SpotifyAPI) (trackId : string) : Async JSValue :=
  try_catch
    (do response <- fetch {| url := baseUrl this ++ "/spotify/track/" ++ trackId;
                             query := [];
                             method := GET; headers := []; body := None |};
     if negb (ok response) then
       throw (new_Error (JStr "Failed to get track"))
     else
       await (json response))
    (fun error =>
       do _ <- console_error "Get track error:" error;
       throw error).

(** A call of one of the methods that send a request of their own
    ([searchByEmotion] and [getRecommendations] go through
    [generatePlaylist]). *)
Inductive Call : Type :=
| call_generatePlaylist (request : PlaylistGenerationRequest)
| call_getEmotions
| call_healthCheck
| call_searchTrack (songName : string) (artist : option string)
| call_searchTracks (songName : string) (artist : option string) (limit : option float)
| call_searchArtists (artistName : string) (limit : option float)
| call_getTrackById (trackId : string).

Definition perform (this : SpotifyAPI) (call : Call) : Async JSValue :=
  match call with
  | call_generatePlaylist request => generatePlaylist this request
  | call_getEmotions => getEmotions this
  | call_healthCheck => healthCheck this
  | call_searchTrack songName artist => searchTrack this songName artist
  | call_searchTracks songName artist limit => searchTracks this songName artist limit
  | call_searchArtists artistName limit => searchArtists this artistName limit
  | call_getTrackById trackId => getTrackById this trackId
  end.

End Client.

(** The request each method gives to [fetch]; [sends_request_of] below
    shows that it is the one request of the call. *)
Definition a_GET (target : string) (params : list (string * ParamValue)) : Request :=
  {| url := target; query := params; method := GET; headers := []; body := None |}.

Definition request_of (this : SpotifyAPI) (call : Call) : Request :=
  match call with
  | call_generatePlaylist request =>
      {| url := baseUrl this ++ "/generate-playlist"; query := []; method := POST;
         headers := [("Content-Type", "application/json")];
         body := Some (JSON_stringify request) |}
  | call_getEmotions => a_GET (baseUrl this ++ "/emotions") []
  | call_healthCheck => a_GET (baseUrl this ++ "/health") []
  | call_searchTrack songName artist =>
      a_GET (baseUrl this ++ "/spotify/search")
        ([("song_name", PStr songName); ("limit", PStr "1")] ++ append_artist artist)
  | call_searchTracks songName artist limit =>
      a_GET (baseUrl this ++ "/spotify/search")
        ([("song_name", PStr songName); ("limit", PNum (default 10%float limit))]
         ++ append_artist artist)
  | call_searchArtists artistName limit =>
      a_GET (baseUrl this ++ "/spotify/artist/search")
        [("artist_name", PStr artistName); ("limit", PNum (default 10%float limit))]
  | call_getTrackById trackId => a_GET (baseUrl this ++ "/spotify/track/" ++ trackId) []
  end.

(** The request failed: [fetch] rejected, or the response is not ok. *)
Definition failed (outcome : Settled Response) : bool :=
  match outcome with
  | Rejected _ => true
  | Resolved response => negb (ok response)
  end.

(** A promise that rejected. *)
Definition rejected {A} (r : Settled A) : bool :=
  match r with
  | Rejected _ => true
  | Resolved _ => false
  end.

(** ** shuffleArray (the utilities module) *)

Section Shuffle.

(** The element type, and the value a read outside an array gives. *)
Context {T : Type} (undefined : T).

(** Arrays are mutable objects: the store maps the identity of an array to
    its elements.  [Math.random()] is the stream [rng], of which [used]
    draws have been taken. *)
Record Memory : Type := {
  arrays : gmap nat (list T);
  rng : nat -> Sample;
  used : nat
}.

(** [a[i]] *)
Definition array_get (a : list T) (i : nat) : T := default undefined (a !! i).

(** [a[i] = x]: in place inside the array, and growing it (the gap filled
    with holes, read as [undefined]) outside. *)
Definition array_set (a : list T) (i : nat) (x : T) : list T :=
  if decide (i < length a) then <[i := x]> a
  else a ++ replicate (i - length a) undefined ++ [x].

Definition elements_of (m : Memory) (r : nat) : list T := default [] (arrays m !! r).

(** [[...array]]: a new array with the same elements. *)
Definition spread (array : nat) (m : Memory) : nat * Memory :=
  let r := fresh (dom (arrays m)) in
  (r, {| arrays := <[r := elements_of m array]> (arrays m);
         rng := rng m; used := used m |}).

(** [[shuffled[i], shuffled[j]] = [shuffled[j], shuffled[i]]]: the right-hand
    side is read first, then the two writes happen in order. *)
Definition swap (shuffled i j : nat) (m : Memory) : Memory :=
  let a := elements_of m shuffled in
  let xj := array_get a j in
  let xi := array_get a i in
  {| arrays := <[shuffled := array_set (array_set a i xj) j xi]> (arrays m);
     rng := rng m; used := used m |}.

(** The body of the loop at index [i], then the rest of the loop downwards:
    [for (let i = ...; i > 0; i--)]. *)
Fixpoint shuffle_loop (i : nat) (shuffled : nat) (m : Memory) : Memory :=
  match i with
  | 0 => m
  | S i' =>
      let j := floor_times (rng m (used m)) (i + 1) in
      let m1 := {| arrays := arrays m; rng := rng m; used := S (used m) |} in
      shuffle_loop i' shuffled (swap shuffled i j m1)
  end.

Definition shuffleArray (array : nat) (m : Memory) : nat * Memory :=
  let '(shuffled, m1) := spread array m in
  (shuffled, shuffle_loop (length (elements_of m1 shuffled) - 1) shuffled m1).

End Shuffle.

(** ** MoodCollageDisplay *)

(** Modelled from the spec: the [MoodCollage] interface is imported from
    [lib/spotify-api] but not declared there; these are the fields the
    component reads, as the client's documentation lists them (a mood
    collage is an image returned as base64, with its colors and parameters). *)
Record MoodCollage : Type := {
  image_base64 : string;
  dominant_colors : list string;
  visual_params : list (string * JSValue);
  width : float;
  height : float
}.

Inductive Action : Type :=
| SetIsExpanded (b : bool).

Inductive Attr : Type :=
| AText (s : string)                       (* a string or template literal *)
| AIndex (n : nat)                         (* key={index} *)
| AStyle (decls : list (string * string))  (* style={{ ... }} *)
| AHandler (a : Action).                   (* onClick={...} *)

(** What a render returns: text, or an element with its props and children. *)
Inductive VNode : Type :=
| VText (s : string)
| VElem (tag : string) (props : list (string * Attr)) (children : list VNode).

(** [key.replace(/_/g, ' ')] *)
Fixpoint replace_underscores (s : string) : string :=
  match s with
  | EmptyString => EmptyString
  | String c rest =>
      String (if Ascii.eqb c "_"%char then " "%char else c) (replace_underscores rest)
  end.

Section Collage.

(** [value.toFixed(2)] and [String(value)] *)
Variable toFixed2 : float -> string.
Variable String_of : JSValue -> string.

Definition swatch (color : string) (index : nat) : VNode :=
  VElem "div"
    [("key", AIndex index);
     ("className", AText "w-8 h-8 rounded-full border-2 border-white/30");
     ("style", AStyle [("backgroundColor", color)]);
     ("title", AText color)]
    [].

Definition visual_param (entry : string * JSValue) : VNode :=
  let '(key, value) := entry in
  VElem "div" [("key", AText key); ("className", AText "flex flex-col")]
    [VElem "span" [("className", AText "text-zinc-400 capitalize")]
       [VText (replace_underscores key)];
     VElem "span" [("className", AText "text-white font-mono")]
       [VText (match value with
               | JNum n => toFixed2 n
               | _ => String_of value
               end)]].

(** [emotion || 'Mood'] *)
Definition emotion_or_Mood (emotion : option string) : string :=
  match emotion with
  | Some e => if String.eqb e "" then "Mood" else e
  | None => "Mood"
  end.

(** The render of the component, for the current value of its [isExpanded]
    state. *)
Definition MoodCollageDisplay (collage : MoodCollage) (emotion : option string)
    (isExpanded : bool) : VNode :=
  VElem "div" [("className", AText "w-full")]
    [VElem "div" [("className", AText "flex items-center justify-between mb-4")]
       [VElem "h3" [("className", AText "text-lg font-semibold text-white")]
          [VText "Mood Visualization"];
        VElem "button"
          [("onClick", AHandler (SetIsExpanded (negb isExpanded)));
           ("className", AText "text-sm text-zinc-400 hover:text-white transition-colors")]
          [VText (if isExpanded then "Collapse" else "Expand")]];
     VElem "div"
       [("className", AText ("transition-all duration-300 "
                             ++ (if isExpanded then "h-auto" else "h-64")))]
       ([VElem "div" [("className", AText "relative rounded-lg overflow-hidden")]
           [VElem "img"
              [("src", AText ("data:image/png;base64," ++ image_base64 collage));
               ("alt", AText (emotion_or_Mood emotion ++ " visualization"));
               ("className", AText "w-full h-auto object-cover")]
              [];
            VElem "div"
              [("className", AText "absolute bottom-0 left-0 right-0 p-4 bg-gradient-to-t from-black/80 to-transparent")]
              [VElem "div" [("className", AText "flex gap-2")]
                 (imap (fun index color => swatch color index)
                       (take 5 (dominant_colors collage)))]]]
        ++ (if isExpanded then
              [VElem "div" [("className", AText "mt-4 p-4 bg-white/5 rounded-lg")]
                 [VElem "h4" [("className", AText "text-sm font-semibold text-white mb-2")]
                    [VText "Visual Parameters"];
                  VElem "div"
                    [("className", AText "grid grid-cols-2 md:grid-cols-3 gap-3 text-xs")]
                    (map visual_param (visual_params collage))]]
            else []))].

End Collage.

(** ** SongAutocomplete and ArtistAutocomplete *)

(** The white space [String.prototype.trim] removes, among the code units
    below 256 that a [string] here holds: TAB, LF, VT, FF, CR, SP and NBSP. *)
Definition is_whitespace (c : ascii) : bool :=
  let n := nat_of_ascii c in
  (Nat.eqb n 9 || Nat.eqb n 10 || Nat.eqb n 11 || Nat.eqb n 12 || Nat.eqb n 13
   || Nat.eqb n 32 || Nat.eqb n 160)%bool.

Fixpoint trimStart (s : string) : string :=
  match s with
  | EmptyString => EmptyString
  | String c rest => if is_whitespace c then trimStart rest else s
  end.

Definition trim (s : string) : string :=
  String.rev (trimStart (String.rev (trimStart s))).

(** The two components are the same code around a different search. *)
Inductive Component : Type := SongAutocomplete | ArtistAutocomplete.

(** [spotifyAPI.searchTracks(inputValue, undefined, 8)] in the song box,
    [spotifyAPI.searchArtists(inputValue, 8)] in the artist box. *)
Definition search (c : Component) (inputValue : string) : Call :=
  match c with
  | SongAutocomplete => call_searchTracks inputValue None (Some 8%float)
  | ArtistAutocomplete => call_searchArtists inputValue (Some 8%float)
  end.

Inductive TimerTask : Type :=
| DebouncedSearch (inputValue : string)  (* the async callback of the effect *)
| HideSuggestions.                       (* [() => setShowSuggestions(false)] of onBlur *)

Record Timer : Type := {
  timer_id : positive;
  due : nat;
  task : TimerTask
}.

(** A mounted component: its React state and ref, and the part of the
    runtime it lives in.  Time is counted in milliseconds.  [changed_at],
    [issued], [selected] and [errors] only record what happened. *)
Record Autocomplete : Type := {
  inputValue : string;
  suggestions : list JSValue;
  showSuggestions : bool;
  isLoading : bool;
  selectedIndex : Z;
  debounceTimer : option positive;  (* the ref: null or the id of a timeout *)
  cleanup : bool;                   (* the last run of the effect returned its cleanup *)
  timers : list Timer;              (* timeouts set and neither run nor cleared *)
  next_timer : positive;            (* the id the next setTimeout returns *)
  awaiting : nat;                   (* search promises awaited by a callback *)
  clock : nat;                      (* now *)
  changed_at : nat;                 (* when inputValue last changed *)
  issued : list (nat * Call);       (* the searches made, with their time *)
  selected : list JSValue;          (* arguments given to onSelectSong / onSelectArtist *)
  errors : list Thrown              (* console.error of the callback *)
}.

Definition with_inputValue (v : string) (s : Autocomplete) : Autocomplete :=
  {| inputValue := v; suggestions := suggestions s; showSuggestions := showSuggestions s;
     isLoading := isLoading s; selectedIndex := selectedIndex s;
     debounceTimer := debounceTimer s; cleanup := cleanup s; timers := timers s;
     next_timer := next_timer s; awaiting := awaiting s; clock := clock s;
     changed_at := clock s; issued := issued s; selected := selected s;
     errors := errors s |}.

Definition setSuggestions (l : list JSValue) (s : Autocomplete) : Autocomplete :=
  {| inputValue := inputValue s; suggestions := l; showSuggestions := showSuggestions s;
     isLoading := isLoading s; selectedIndex := selectedIndex s;
     debounceTimer := debounceTimer s; cleanup := cleanup s; timers := timers s;
     next_timer := next_timer s; awaiting := awaiting s; clock := clock s;
     changed_at := changed_at s; issued := issued s; selected := selected s;
     errors := errors s |}.

Definition setShowSuggestions (b : bool) (s : Autocomplete) : Autocomplete :=
  {| inputValue := inputValue s; suggestions := suggestions s; showSuggestions := b;
     isLoading := isLoading s; selectedIndex := selectedIndex s;
     debounceTimer := debounceTimer s; cleanup := cleanup s; timers := timers s;
     next_timer := next_timer s; awaiting := awaiting s; clock := clock s;
     changed_at := changed_at s; issued := issued s; selected := selected s;
     errors := errors s |}.

Definition setIsLoading (b : bool) (s : Autocomplete) : Autocomplete :=
  {| inputValue := inputValue s; suggestions := suggestions s;
     showSuggestions := showSuggestions s;
     isLoading := b; selectedIndex := selectedIndex s;
     debounceTimer := debounceTimer s; cleanup := cleanup s; timers := timers s;
     next_timer := next_timer s; awaiting := awaiting s; clock := clock s;
     changed_at := changed_at s; issued := issued s; selected := selected s;
     errors := errors s |}.

Definition setSelectedIndex (i : Z) (s : Autocomplete) : Autocomplete :=
  {| inputValue := inputValue s; suggestions := suggestions s;
     showSuggestions := showSuggestions s;
     isLoading := isLoading s; selectedIndex := i;
     debounceTimer := debounceTimer s; cleanup := cleanup s; timers := timers s;
     next_timer := next_timer s; awaiting := awaiting s; clock := clock s;
     changed_at := changed_at s; issued := issued s; selected := selected s;
     errors := errors s |}.

(** The fields below the React state: ref, effect bookkeeping and runtime. *)
Definition with_runtime (ref : option positive) (cl : bool) (ts : list Timer)
    (next : positive) (aw : nat) (s : Autocomplete) : Autocomplete :=
  {| inputValue := inputValue s; suggestions := suggestions s;
     showSuggestions := showSuggestions s;
     isLoading := isLoading s; selectedIndex := selectedIndex s;
     debounceTimer := ref; cleanup := cl; timers := ts;
     next_timer := next; awaiting := aw; clock := clock s;
     changed_at := changed_at s; issued := issued s; selected := selected s;
     errors := errors s |}.

Definition with_timers (ts : list Timer) (s : Autocomplete) : Autocomplete :=
  with_runtime (debounceTimer s) (cleanup s) ts (next_timer s) (awaiting s) s.

Definition with_cleanup (cl : bool) (s : Autocomplete) : Autocomplete :=
  with_runtime (debounceTimer s) cl (timers s) (next_timer s) (awaiting s) s.

Definition with_awaiting (aw : nat) (s : Autocomplete) : Autocomplete :=
  with_runtime (debounceTimer s) (cleanup s) (timers s) (next_timer s) aw s.

Definition with_log (now : nat) (calls : list (nat * Call)) (sel : list JSValue)
    (errs : list Thrown) (s : Autocomplete) : Autocomplete :=
  {| inputValue := inputValue s; suggestions := suggestions s;
     showSuggestions := showSuggestions s;
     isLoading := isLoading s; selectedIndex := selectedIndex s;
     debounceTimer := debounceTimer s; cleanup := cleanup s; timers := timers s;
     next_timer := next_timer s; awaiting := awaiting s; clock := now;
     changed_at := changed_at s; issued := calls; selected := sel;
     errors := errs |}.

(** [clearTimeout(id)] *)
Definition clearTimeout (id : positive) (s : Autocomplete) : Autocomplete :=
  with_timers (filter (fun t => timer_id t ≠ id) (timers s)) s.

(** [setTimeout(task, delay)]: the id returned and the state after. *)
Definition setTimeout (tk : TimerTask) (delay : nat) (s : Autocomplete)
  : positive * Autocomplete :=
  (next_timer s,
   with_runtime (debounceTimer s) (cleanup s)
     (timers s ++ [{| timer_id := next_timer s; due := clock s + delay; task := tk |}])
     (Pos.succ (next_timer s)) (awaiting s) s).

(** [if (debounceTimer.current) clearTimeout(debounceTimer.current)] *)
Definition clear_debounceTimer (s : Autocomplete) : Autocomplete :=
  match debounceTimer s with
  | Some id => clearTimeout id s
  | None => s
  end.

(** The body of [useEffect(..., [inputValue])]. *)
Definition effect (s : Autocomplete) : Autocomplete :=
  if Nat.ltb (String.length (trim (inputValue s))) 2 then
    with_cleanup false (setShowSuggestions false (setSuggestions [] s))
  else
    let s1 := clear_debounceTimer s in
    let '(id, s2) := setTimeout (DebouncedSearch (inputValue s1)) 300 s1 in
    with_runtime (Some id) true (timers s2) (next_timer s2) (awaiting s2) s2.

(** The cleanup the effect returned, run by React before the next run. *)
Definition run_cleanup (s : Autocomplete) : Autocomplete :=
  if cleanup s then clear_debounceTimer s else s.

(** [setInputValue(v)] followed by the render it causes: with the same
    value nothing is rendered and the effect does not run; otherwise the
    dependency changed, so the old cleanup runs and then the effect. *)
Definition setInputValue (v : string) (s : Autocomplete) : Autocomplete :=
  if String.eqb v (inputValue s) then s
  else effect (run_cleanup (with_inputValue v s)).

(** The state of [useState] and [useRef] at the first render. *)
Definition first_render : Autocomplete :=
  {| inputValue := ""; suggestions := []; showSuggestions := false;
     isLoading := false; selectedIndex := (-1)%Z;
     debounceTimer := None; cleanup := false; timers := [];
     next_timer := 1%positive; awaiting := 0; clock := 0;
     changed_at := 0; issued := []; selected := []; errors := [] |}.

(** Mounting runs the effect once. *)
Definition mount : Autocomplete := effect first_render.

(** The object handed to the parent: [{song_name, artist, spotify_id}] of a
    track, [{artist_name, spotify_id}] of an artist. *)
Definition selection (c : Component) (item : JSValue) : Settled JSValue :=
  match c with
  | SongAutocomplete =>
      match get_prop item "name", get_prop item "artist", get_prop item "id" with
      | Resolved name, Resolved artist, Resolved id =>
          Resolved (JObj [("song_name", name); ("artist", artist); ("spotify_id", id)])
      | Rejected e, _, _ | _, Rejected e, _ | _, _, Rejected e => Rejected e
      end
  | ArtistAutocomplete =>
      match get_prop item "name", get_prop item "id" with
      | Resolved name, Resolved id =>
          Resolved (JObj [("artist_name", name); ("spotify_id", id)])
      | Rejected e, _ | _, Rejected e => Rejected e
      end
  end.

(** [handleSelectSong] / [handleSelectArtist] *)
Definition handleSelect (c : Component) (item : JSValue) (s : Autocomplete) : Autocomplete :=
  match selection c item with
  | Rejected _ => s
  | Resolved arg =>
      let s1 := with_log (clock s) (issued s) (selected s ++ [arg]) (errors s) s in
      setInputValue ""
        (setSelectedIndex (-1) (setShowSuggestions false (setSuggestions [] s1)))
  end.

Inductive Key : Type := ArrowDown | ArrowUp | Enter | Escape | OtherKey.

Definition handleKeyDown (c : Component) (key : Key) (s : Autocomplete) : Autocomplete :=
  if (negb (showSuggestions s) || Nat.eqb (length (suggestions s)) 0)%bool then s
  else
    match key with
    | ArrowDown =>
        setSelectedIndex
          (if (selectedIndex s <? Z.of_nat (length (suggestions s)) - 1)%Z
           then (selectedIndex s + 1)%Z else selectedIndex s) s
    | ArrowUp =>
        setSelectedIndex
          (if (0 <? selectedIndex s)%Z then (selectedIndex s - 1)%Z else (-1)%Z) s
    | Enter =>
        if ((0 <=? selectedIndex s)%Z
            && (selectedIndex s <? Z.of_nat (length (suggestions s)))%Z)%bool
        then
          match suggestions s !! Z.to_nat (selectedIndex s) with
          | Some item => handleSelect c item s
          | None => s
          end
        else s
    | Escape => setSelectedIndex (-1) (setShowSuggestions false s)
    | OtherKey => s
    end.

(** [onFocus].  In the song box the second operand is [setSuggestions.length],
    the arity of the state setter, which is 1; in the artist box it is
    [suggestions.length]. *)
Definition handleFocus (c : Component) (s : Autocomplete) : Autocomplete :=
  if (Nat.leb 2 (String.length (trim (inputValue s)))
      && match c with
         | SongAutocomplete => Nat.ltb 0 1
         | ArtistAutocomplete => Nat.ltb 0 (length (suggestions s))
         end)%bool
  then setShowSuggestions true s
  else s.

(** [onBlur={() => setTimeout(() => setShowSuggestions(false), 200)}] *)
Definition handleBlur (s : Autocomplete) : Autocomplete :=
  snd (setTimeout HideSuggestions 200 s).

(** The callback of the effect's timeout, up to its [await]: the search is
    called, and the rest of the callback waits for the promise. *)
Definition debounced_search (c : Component) (inputValue : string) (s : Autocomplete)
  : Autocomplete :=
  let s1 := setIsLoading true s in
  let s2 := with_log (clock s1) (issued s1 ++ [(clock s1, search c inputValue)])
              (selected s1) (errors s1) s1 in
  with_awaiting (S (awaiting s2)) s2.

(** The rest of the callback, once the promise has settled:
    the [try] after the [await], the [catch] and the [finally]. *)
Definition search_settled (r : Settled (list JSValue)) (s : Autocomplete) : Autocomplete :=
  match r with
  | Resolved results =>
      setIsLoading false
        (setSelectedIndex (-1)
           (setShowSuggestions (Nat.ltb 0 (length results)) (setSuggestions results s)))
  | Rejected error =>
      setIsLoading false
        (setSuggestions []
           (with_log (clock s) (issued s) (selected s) (errors s ++ [error]) s))
  end.

Definition run_task (c : Component) (tk : TimerTask) (s : Autocomplete) : Autocomplete :=
  match tk with
  | DebouncedSearch inputValue => debounced_search c inputValue s
  | HideSuggestions => setShowSuggestions false s
  end.

(** The runtime runs a timeout no sooner than it is due, and once. *)
Definition fire (c : Component) (id : positive) (s : Autocomplete) : Autocomplete :=
  match List.find (fun t => Pos.eqb (timer_id t) id) (timers s) with
  | Some t =>
      if Nat.leb (due t) (clock s) then run_task c (task t) (clearTimeout id s) else s
  | None => s
  end.

(** What can happen to a mounted component. *)
Inductive Event : Type :=
| Change (value : string)               (* onChange, with [e.target.value] *)
| KeyDown (key : Key)
| Focus
| Blur
| Click (index : nat)                   (* on the button of a shown suggestion *)
| Advance (ms : nat)                    (* time passes *)
| Fire (id : positive)                  (* a timeout runs *)
| Settle (r : Settled (list JSValue)).  (* an awaited search settles *)

Definition step (c : Component) (e : Event) (s : Autocomplete) : Autocomplete :=
  match e with
  | Change value => setInputValue value s
  | KeyDown key => handleKeyDown c key s
  | Focus => handleFocus c s
  | Blur => handleBlur s
  | Click index =>
      if (showSuggestions s && Nat.ltb 0 (length (suggestions s)))%bool then
        match suggestions s !! index with
        | Some item => handleSelect c item s
        | None => s
        end
      else s
  | Advance ms => with_log (clock s + ms) (issued s) (selected s) (errors s) s
  | Fire id => fire c id s
  | Settle r =>
      match awaiting s with
      | 0 => s
      | S n => search_settled r (with_awaiting n s)
      end
  end.

(** The component after a sequence of events, oldest first. *)
Definition run_events (c : Component) (events : list Event) (s : Autocomplete)
  : Autocomplete :=
  foldl (fun s e => step c e s) s events.

(** ** Vocabulary of the statements *)

(** A value whose properties can be read: anything but [null] and
    [undefined]. *)
Definition readable (v : JSValue) : bool :=
  match v with
  | JUndefined | JNull => false
  | _ => true
  end.

(** The wrappers as the specification words them: the emotion in a
    singleton list when present and left out otherwise, each seed mapped to a
    song, and the count as [num_results]. *)
Definition searchByEmotion_spec (toString36 : Sample -> string) (this : SpotifyAPI)
    (emotion : string) (n : float) : Async JSValue :=
  generatePlaylist toString36 this
    {| songs := None; artists := None; emotion := Some [emotion];
       num_results := Some n; enrich_with_lyrics := None |}.

Definition getRecommendations_spec (toString36 : Sample -> string) (this : SpotifyAPI)
    (seeds : list SeedTrack) (emotion : option string) (n : float) : Async JSValue :=
  generatePlaylist toString36 this
    {| songs := Some (map (fun seed => {| song_name := track_name seed;
                                          artist := track_artist seed;
                                          spotify_id := track_spotify_id seed |}) seeds);
       artists := None;
       emotion := match emotion with
                  | Some e => Some [e]
                  | None => None
                  end;
       num_results := Some n; enrich_with_lyrics := None |}.

(** An optional string that counts as given in a condition: [undefined] and
    the empty string do not. *)
Definition given (o : option string) : option string :=
  match o with
  | Some e => if String.eqb e "" then None else Some e
  | None => None
  end.

(** The elements of a render, in document order, each with its props. *)
Fixpoint elements (v : VNode) : list (string * list (string * Attr)) :=
  match v with
  | VText _ => []
  | VElem tag props children => (tag, props) :: flat_map elements children
  end.

Fixpoint attr (name : string) (props : list (string * Attr)) : option Attr :=
  match props with
  | [] => None
  | (k, a) :: rest => if String.eqb name k then Some a else attr name rest
  end.

(** The [src] of the images of a render. *)
Definition image_sources (v : VNode) : list (option Attr) :=
  map (fun e => attr "src" (snd e))
      (filter (fun e => fst e = "img") (elements v)).

(** The background color of an element styled with one. *)
Definition background (e : string * list (string * Attr)) : option string :=
  match attr "style" (snd e) with
  | Some (AStyle [("backgroundColor", color)]) => Some color
  | _ => None
  end.

(** The background colors of the elements of a render that have one. *)
Definition swatch_colors (v : VNode) : list string := omap background (elements v).

(** The timeouts of the effect that are still to run. *)
Definition is_search (t : Timer) : bool :=
  match task t with
  | DebouncedSearch _ => true
  | HideSuggestions => false
  end.

Definition pending_searches (s : Autocomplete) : list Timer :=
  List.filter is_search (timers s).

(** A world in which every request settles the same way, for examples. *)
Definition world_answering (outcome : Settled Response) : World :=
  {| network := fun _ _ => outcome; fetched := [];
     random := fun n => {| numerator := n; gap := 1 |}; draws := 0; console := [] |}.

Definition offline : World :=
  world_answering (Rejected (JsError "TypeError" (JStr "Failed to fetch"))).

Definition spotifyAPI : SpotifyAPI := new_SpotifyAPI None None.

(** A computation that leaves the list of sent requests as it was. *)
Definition quiet {A} (m : Async A) : Prop :=
  forall w, fetched (snd (m w)) = fetched w.

(** The world once a request has left. *)
Definition sent (r : Request) (w : World) : World :=
  {| network := network w; fetched := (fetched w ++ [r])%list;
     random := random w; draws := draws w; console := console w |}.

(** [v.k] where the read is known to succeed. *)
Definition prop (v : JSValue) (k : string) : JSValue :=
  match get_prop v k with
  | Resolved x => x
  | Rejected _ => JUndefined
  end.

(** The track [generatePlaylist] makes of a backend song, given its id. *)
Definition mirrored (song id : JSValue) : JSValue :=
  JObj [("id", id); ("name", prop song "song_name"); ("artist", prop song "artist");
        ("album", prop song "album"); ("preview_url", prop song "preview_url");
        ("similarity_score", prop song "similarity_score");
        ("external_url", prop song "external_url");
        ("duration_ms", prop song "duration_ms"); ("popularity", prop song "popularity");
        ("album_image", prop song "album_image")].

(** The id of the track made of a song: its [spotify_id] when that is
    truthy, and otherwise [track-] followed by digits of a random draw. *)
Definition id_of (toString36 : Sample -> string) (song id : JSValue) : Prop :=
  if truthy (prop song "spotify_id") then id = prop song "spotify_id"
  else exists r : Sample, id = JStr ("track-" ++ String.substring 2 9 (toString36 r)).

(** A stand-in for [toString(36)] in examples. *)
Definition sample_digits (r : Sample) : string := "0.4fzyo82mvyr".

(** A backend that answers every request with a playlist of one song, a
    mood collage and the audio-feature aggregate. *)
Definition collage_backend : World :=
  world_answering
    (Resolved
       {| ok := true;
          json := Resolved
            (JObj [("playlist",
                    JArr [JObj [("song_name", JStr "Here Comes the Sun");
                                ("artist", JStr "The Beatles");
                                ("spotify_id", JStr "6dGnYIeXmHdcikdzNNDMm2");
                                ("similarity_score", JNum 0.875%float)]]);
                   ("mood_collage",
                    JObj [("image_base64", JStr "iVBORw0KGgo=");
                          ("dominant_colors", JArr [JStr "#FFD700"; JStr "#FFA500"]);
                          ("visual_params", JObj []);
                          ("width", JNum 512%float); ("height", JNum 512%float)]);
                   ("emotion_features", JObj [("valence", JNum 0.75%float)])]) |}).

Definition happy_request : PlaylistGenerationRequest :=
  {| songs := None; artists := None; emotion := Some ["happy"];
     num_results := Some 10%float; enrich_with_lyrics := None |}.

(** The searches a step makes: those logged after it that were not before. *)
Definition newly_issued (c : Component) (e : Event) (s : Autocomplete)
  : list (nat * Call) :=
  drop (length (issued s)) (issued (step c e s)).

(** What holds of a mounted component at any time: a timeout of the effect
    that is still to run is the one the ref holds, it was set when the input
    took its current value, which is two characters or more once trimmed, and
    the cleanup of that run of the effect is registered. *)
Definition debounce_invariant (s : Autocomplete) : Prop :=
  changed_at s <= clock s
  /\ forall t, t ∈ timers s -> is_search t = true ->
       task t = DebouncedSearch (inputValue s)
       /\ due t = changed_at s + 300
       /\ 2 <= String.length (trim (inputValue s))
       /\ debounceTimer s = Some (timer_id t)
       /\ cleanup s = true.

(** ** More vocabulary: the client *)

(** The label under which each method logs what it caught. *)
Definition label_of (call : Call) : string :=
  match call with
  | call_generatePlaylist _ => "Spotify API Error:"
  | call_getEmotions => "Failed to get emotions:"
  | call_healthCheck => "Health check error:"
  | call_searchTrack _ _ => "Search track error:"
  | call_searchTracks _ _ _ => "Search tracks error:"
  | call_searchArtists _ _ => "Search artists error:"
  | call_getTrackById _ => "Get track error:"
  end.

(** A computation that writes nothing to the console. *)
Definition silent {A} (m : Async A) : Prop :=
  forall w, console (snd (m w)) = console w.

(** The entry [searchTracks] makes of a track the backend found. *)
Definition found_track (track : JSValue) : JSValue :=
  JObj [("id", js_or (prop track "spotify_id") (prop track "id"));
        ("name", js_or (prop track "song_name") (prop track "name"));
        ("artist", prop track "artist"); ("album", prop track "album");
        ("preview_url", prop track "preview_url");
        ("similarity_score", JNum PrimFloat.zero);
        ("external_url", prop track "external_url");
        ("duration_ms", prop track "duration_ms");
        ("popularity", prop track "popularity");
        ("album_image", prop track "album_image")].

(** The entry [searchArtists] makes of an artist the backend found. *)
Definition found_artist (artist : JSValue) : JSValue :=
  JObj [("id", js_or (prop artist "spotify_id") (prop artist "id"));
        ("name", prop artist "name");
        ("genres", js_or (prop artist "genres") (JArr []));
        ("popularity", js_or (prop artist "popularity") (JNum PrimFloat.zero));
        ("image_url", prop artist "image_url");
        ("external_url", prop artist "external_url")].

(** A song the backend sent without a usable [spotify_id]. *)
Definition lacks_id (song : JSValue) : bool := negb (truthy (prop song "spotify_id")).

(** A world whose next response is ok and has the given JSON body. *)
Definition answers (w : World) (r : Request) (data : JSValue) : Prop :=
  exists response,
    network w (length (fetched w)) r = Resolved response
    /\ ok response = true
    /\ json response = Resolved data.

(** A world whose next response is not ok. *)
Definition refuses (w : World) (r : Request) (error : Settled JSValue) : Prop :=
  exists response,
    network w (length (fetched w)) r = Resolved response
    /\ ok response = false
    /\ json response = error.

(** The playlist [generatePlaylist] makes of the backend's songs when the
    next draw of [Math.random()] is the [n]-th: a song with a usable
    [spotify_id] keeps it, and each other song takes one draw. *)
Fixpoint tracks_from (toString36 : Sample -> string) (rnd : nat -> Sample) (n : nat)
    (songs : list JSValue) : list JSValue :=
  match songs with
  | [] => []
  | song :: rest =>
      if lacks_id song then
        mirrored song (JStr ("track-" ++ String.substring 2 9 (toString36 (rnd n))))
        :: tracks_from toString36 rnd (S n) rest
      else
        mirrored song (prop song "spotify_id") :: tracks_from toString36 rnd n rest
  end.

(** The draw a song without a usable [spotify_id] at position [i] takes,
    counted from the first draw of the call: one draw was taken for each such
    song before it. *)
Definition draw_of (songs : list JSValue) (i : nat) : nat :=
  length (List.filter lacks_id (take i songs)).

(** ** The utilities module: tables, Spotify URIs and durations *)

(** [String.prototype.toLowerCase] on code units below 256: the letters A-Z,
    and the accented capitals from 192 to 222 except the multiplication sign
    at 215, move up by 32. *)
Definition lower_unit (c : ascii) : ascii :=
  let n := nat_of_ascii c in
  if ((Nat.leb 65 n && Nat.leb n 90)
      || (Nat.leb 192 n && Nat.leb n 222 && negb (Nat.eqb n 215)))%bool
  then ascii_of_nat (n + 32)
  else c.

Fixpoint toLowerCase (s : string) : string :=
  match s with
  | EmptyString => EmptyString
  | String c rest => String (lower_unit c) (toLowerCase rest)
  end.

(** The names every object literal inherits from [Object.prototype]. *)
Definition Object_prototype : list string :=
  ["constructor"; "__defineGetter__"; "__defineSetter__"; "hasOwnProperty";
   "__lookupGetter__"; "__lookupSetter__"; "isPrototypeOf"; "propertyIsEnumerable";
   "toString"; "valueOf"; "__proto__"; "toLocaleString"].

(** What [table[key] || fallback] gives for a table written as an object
    literal: the entry of the table, the fallback, or, for a key that names a
    member of [Object.prototype], that member (a function or the prototype
    itself, so truthy). *)
Inductive Member (V : Type) : Type :=
| Own (v : V)
| Inherited (name : string).
Arguments Own {V} v.
Arguments Inherited {V} name.

Fixpoint own_entry {V} (key : string) (table : list (string * V)) : option V :=
  match table with
  | [] => None
  | (k, v) :: rest => if String.eqb key k then Some v else own_entry key rest
  end.

Definition lookup_or {V} (table : list (string * V)) (key : string) (fallback : V)
  : Member V :=
  match own_entry key table with
  | Some v => Own v
  | None => if bool_decide (key ∈ Object_prototype) then Inherited key else Own fallback
  end.

Record ColorScheme : Type := {
  primary : string;
  secondary : string;
  gradient : string
}.

Definition colorSchemes : list (string * ColorScheme) :=
  [("happy", {| primary := "#ffd700"; secondary := "#ffa500";
                gradient := "from-yellow-400 to-orange-500" |});
   ("sad", {| primary := "#4169e1"; secondary := "#1e3a8a";
              gradient := "from-blue-500 to-blue-900" |});
   ("energetic", {| primary := "#ff4500"; secondary := "#dc143c";
                    gradient := "from-red-500 to-pink-600" |});
   ("calm", {| primary := "#87ceeb"; secondary := "#4682b4";
               gradient := "from-sky-300 to-blue-500" |});
   ("angry", {| primary := "#dc143c"; secondary := "#8b0000";
                gradient := "from-red-600 to-red-900" |});
   ("melancholic", {| primary := "#708090"; secondary := "#2f4f4f";
                      gradient := "from-slate-500 to-slate-700" |});
   ("hopeful", {| primary := "#90ee90"; secondary := "#32cd32";
                  gradient := "from-green-400 to-green-600" |});
   ("romantic", {| primary := "#ff69b4"; secondary := "#ff1493";
                   gradient := "from-pink-400 to-pink-600" |});
   ("anxious", {| primary := "#9370db"; secondary := "#663399";
                  gradient := "from-purple-500 to-purple-700" |});
   ("peaceful", {| primary := "#b0e0e6"; secondary := "#5f9ea0";
                   gradient := "from-cyan-300 to-teal-500" |})].

Definition getEmotionColor (emotion : string) : Member ColorScheme :=
  lookup_or colorSchemes (toLowerCase emotion)
    {| primary := "#1db954"; secondary := "#1ed760";
       gradient := "from-green-500 to-green-400" |}.

Definition descriptions : list (string * string) :=
  [("valence", "Musical positiveness"); ("energy", "Intensity and activity");
   ("danceability", "How suitable for dancing"); ("tempo", "Beats per minute");
   ("acousticness", "Acoustic confidence"); ("instrumentalness", "Vocal presence");
   ("liveness", "Audience presence"); ("speechiness", "Spoken words")].

Definition getAudioFeatureDescription (feature : string) : Member string :=
  match own_entry feature descriptions with
  | Some d => Own d
  | None =>
      if bool_decide (feature ∈ Object_prototype) then Inherited feature
      else Own feature
  end.

Definition complementary : list (string * list string) :=
  [("happy", ["energetic"; "hopeful"; "romantic"]);
   ("sad", ["melancholic"; "calm"; "peaceful"]);
   ("energetic", ["happy"; "angry"; "hopeful"]);
   ("calm", ["peaceful"; "hopeful"; "romantic"]);
   ("angry", ["energetic"; "sad"; "anxious"]);
   ("melancholic", ["sad"; "calm"; "peaceful"]);
   ("hopeful", ["happy"; "calm"; "romantic"]);
   ("romantic", ["hopeful"; "happy"; "peaceful"]);
   ("anxious", ["calm"; "peaceful"; "hopeful"]);
   ("peaceful", ["calm"; "hopeful"; "romantic"])].

Definition getComplementaryEmotions (emotion : string) : Member (list string) :=
  lookup_or complementary (toLowerCase emotion) ["happy"; "calm"; "energetic"].

(** [`linear-gradient(135deg, ${color.primary}, ${color.secondary})`]; on an
    inherited member both properties read [undefined]. *)
Definition linear_gradient (first second : string) : string :=
  "linear-gradient(135deg, " ++ first ++ ", " ++ second ++ ")".

Definition getTrackPlaceholder (emotion : option string) : string :=
  match given emotion with
  | Some e =>
      match getEmotionColor e with
      | Own color => linear_gradient (primary color) (secondary color)
      | Inherited _ => linear_gradient "undefined" "undefined"
      end
  | None => linear_gradient "#1db954" "#1ed760"
  end.

(** [type: 'track' | 'playlist' | 'album'] *)
Inductive URIType : Type := type_track | type_playlist | type_album.

Definition URIType_string (type : URIType) : string :=
  match type with
  | type_track => "track"
  | type_playlist => "playlist"
  | type_album => "album"
  end.

Definition generateSpotifyURI (type : URIType) (id : string) : string :=
  "spotify:" ++ URIType_string type ++ ":" ++ id.

(** The character classes [[a-z]] and [[a-zA-Z0-9]]. *)
Definition is_lower (c : ascii) : bool :=
  let n := nat_of_ascii c in (Nat.leb 97 n && Nat.leb n 122)%bool.

Definition is_alnum (c : ascii) : bool :=
  let n := nat_of_ascii c in
  ((Nat.leb 97 n && Nat.leb n 122) || (Nat.leb 65 n && Nat.leb n 90)
   || (Nat.leb 48 n && Nat.leb n 57))%bool.

(** The longest prefix in a class, and what follows it: a greedy [[...]+]
    or [[...]*]. *)
Fixpoint span (class : ascii -> bool) (s : string) : string * string :=
  match s with
  | EmptyString => (EmptyString, EmptyString)
  | String c rest =>
      if class c then let '(taken, others) := span class rest in (String c taken, others)
      else (EmptyString, s)
  end.

(** [s] without the prefix [p], when it starts with it. *)
Fixpoint after_prefix (p s : string) : option string :=
  match p, s with
  | EmptyString, _ => Some s
  | String a p', String b s' => if Ascii.eqb a b then after_prefix p' s' else None
  | String _ _, EmptyString => None
  end.

(** A match of [/spotify:([a-z]+):([a-zA-Z0-9]+)/] that starts at the first
    character of [s]: the two groups.  After the letters only a colon can
    follow, so the greedy run of letters is the only candidate. *)
Definition match_here (s : string) : option (string * string) :=
  match after_prefix "spotify:" s with
  | None => None
  | Some rest =>
      match span is_lower rest with
      | (EmptyString, _) => None
      | (type, String c rest') =>
          if Ascii.eqb c ":"%char then
            match span is_alnum rest' with
            | (EmptyString, _) => None
            | (id, _) => Some (type, id)
            end
          else None
      | (_, EmptyString) => None
      end
  end.

(** [uri.match(...)]: the match that starts leftmost. *)
Fixpoint match_first (uri : string) : option (string * string) :=
  match match_here uri with
  | Some groups => Some groups
  | None =>
      match uri with
      | EmptyString => None
      | String _ rest => match_first rest
      end
  end.

Record SpotifyURI : Type := { uri_type : string; uri_id : string }.

Definition parseSpotifyURI (uri : string) : option SpotifyURI :=
  match match_first uri with
  | None => None
  | Some (type, id) => Some {| uri_type := type; uri_id := id |}
  end.

(** Every character of a string is in a class. *)
Fixpoint all_in (class : ascii -> bool) (s : string) : bool :=
  match s with
  | EmptyString => true
  | String c rest => (class c && all_in class rest)%bool
  end.

(** No character of a string is a capital A-Z. *)
Definition no_capital (s : string) : bool :=
  all_in (fun c => negb (Nat.leb 65 (nat_of_ascii c) && Nat.leb (nat_of_ascii c) 90)) s.

(** The emotions the tables of the utilities know. *)
Definition known_emotions : list string := map fst complementary.

(** [n.toString()] of an integer: its decimal digits, after a minus sign
    when it is negative. *)
Definition integer_toString (n : Z) : string :=
  DecimalString.NilZero.string_of_int (Z.to_int n).

(** [s.padStart(2, '0')] *)
Definition padStart2 (s : string) : string :=
  match s with
  | EmptyString => "00"
  | String c EmptyString => String "0"%char s
  | _ => s
  end.

(** [formatDuration], on a whole number of milliseconds of magnitude below
    2^53 (what [duration_ms] is); beyond that the doubles of the source part
    from the integers and this is not the function.  Below 2^53 the argument
    is an exact double; a quotient by 1000 that is not whole lies at least
    1/1000 from the next integer, more than the half unit in the last place
    of a double below 2^44 (2^-10), so [Math.floor] of the rounded quotient
    is the integer quotient rounded down, and likewise for the quotient by
    60; [%] is exact.  So the arithmetic is that of [Z]: [/] rounds down like
    [Math.floor], and [Z.rem] takes the sign of the dividend like [%]. *)
Definition formatDuration (ms : Z) : string :=
  let totalSeconds := (ms / 1000)%Z in
  let minutes := (totalSeconds / 60)%Z in
  let seconds := Z.rem totalSeconds 60 in
  integer_toString minutes ++ ":" ++ padStart2 (integer_toString seconds).

(** The decimal digit of a number below ten. *)
Definition digit (n : Z) : ascii := ascii_of_nat (48 + Z.to_nat n).

(** The highlighted index is -1 or the position of a suggestion. *)
Definition highlight_in_range (s : Autocomplete) : Prop :=
  (-1 <= selectedIndex s)%Z
  /\ (suggestions s <> [] -> (selectedIndex s < Z.of_nat (length (suggestions s)))%Z).

(** The text of a render, in document order. *)
Fixpoint texts (v : VNode) : list string :=
  match v with
  | VText s => [s]
  | VElem _ _ children => flat_map texts children
  end.

(** The handlers a render attaches, in document order. *)
Definition handler (e : string * list (string * Attr)) : option Action :=
  match attr "onClick" (snd e) with
  | Some (AHandler a) => Some a
  | _ => None
  end.

(** ** app/page.tsx: the Home page *)

Module Home.

Definition DEFAULT_EMOTIONS : JSValue :=
  JArr [JStr "happy"; JStr "sad"; JStr "energetic"; JStr "calm"; JStr "angry";
        JStr "melancholic"; JStr "hopeful"; JStr "romantic"; JStr "anxious";
        JStr "peaceful"].

(** The [useState] cells of the page.  [emotions] and [playlistData] hold
    whatever the client resolved to; [null] is [None] for the two cells that
    hold a string, and [JNull] for [playlistData]. *)
Record State : Type := {
  emotions : JSValue;
  selectedEmotion : option string;
  isLoading : bool;
  error : option string;
  playlistData : JSValue;
  numTracks : float
}.

(** The state of the first render. *)
Definition initial : State :=
  {| emotions := DEFAULT_EMOTIONS; selectedEmotion := None; isLoading := false;
     error := None; playlistData := JNull; numTracks := 20%float |}.

(** A call of one of the state setters. *)
Inductive Update : Type :=
| setEmotions (value : JSValue)
| setSelectedEmotion (value : string)
| setIsLoading (value : bool)
| setError (value : option string)
| setPlaylistData (value : JSValue)
| setNumTracks (value : float).

Definition update (u : Update) (s : State) : State :=
  match u with
  | setEmotions value =>
      {| emotions := value; selectedEmotion := selectedEmotion s;
         isLoading := isLoading s; error := error s;
         playlistData := playlistData s; numTracks := numTracks s |}
  | setSelectedEmotion value =>
      {| emotions := emotions s; selectedEmotion := Some value;
         isLoading := isLoading s; error := error s;
         playlistData := playlistData s; numTracks := numTracks s |}
  | setIsLoading value =>
      {| emotions := emotions s; selectedEmotion := selectedEmotion s;
         isLoading := value; error := error s;
         playlistData := playlistData s; numTracks := numTracks s |}
  | setError value =>
      {| emotions := emotions s; selectedEmotion := selectedEmotion s;
         isLoading := isLoading s; error := value;
         playlistData := playlistData s; numTracks := numTracks s |}
  | setPlaylistData value =>
      {| emotions := emotions s; selectedEmotion := selectedEmotion s;
         isLoading := isLoading s; error := error s;
         playlistData := value; numTracks := numTracks s |}
  | setNumTracks value =>
      {| emotions := emotions s; selectedEmotion := selectedEmotion s;
         isLoading := isLoading s; error := error s;
         playlistData := playlistData s; numTracks := value |}
  end.

(** Setter calls, applied in the order they were made. *)
Definition updates (us : list Update) (s : State) : State :=
  fold_left (fun s u => update u s) us s.

(** The truthy [selectedEmotion]: neither [null] nor the empty string. *)
Definition chosen (s : State) : option string :=
  match selectedEmotion s with
  | Some e => if String.eqb e "" then None else Some e
  | None => None
  end.

(** The effect of the mount:
    [spotifyAPI.getEmotions().then(setEmotions).catch((err) => console.error(...))].
    The setter calls the promise chain makes once it settles. *)
Definition fetch_emotions (this : SpotifyAPI) : Async (list Update) :=
  try_catch
    (do value <- getEmotions this;
     ret [setEmotions value])
    (fun err =>
       do _ <- console_error "Failed to fetch emotions:" err;
       ret []).

Section Page.

Variable toString36 : Sample -> string.

(** [String(v)] for a value that is not a string. *)
Variable ToString : JSValue -> string.

(** [err.message] of an error object made from the value [v]: the string of
    [v], and the empty string of [Error.prototype] when [v] is [undefined].
    Every value thrown here is an error object, so [err instanceof Error]
    holds. *)
Definition Error_message (err : Thrown) : string :=
  match err with
  | JsError _ (JStr s) => s
  | JsError _ JUndefined => ""
  | JsError _ v => ToString v
  end.

(** [handleGeneratePlaylist]: the setter calls made before the [await], and
    the rest of the handler, which gives the setter calls made after it.
    The third argument [true] of the call of [searchByEmotion] has no
    parameter to go to. *)
Definition handleGeneratePlaylist (this : SpotifyAPI) (s : State)
  : list Update * Async (list Update) :=
  match chosen s with
  | None => ([], ret [])
  | Some emotion =>
      ([setIsLoading true; setError None],
       do after <- try_catch
                     (do response <- searchByEmotion toString36 this emotion
                                       (Some (numTracks s));
                      ret [setPlaylistData response])
                     (fun err =>
                        do _ <- console_error "Error generating playlist:" err;
                        ret [setError (Some (Error_message err))]);
       ret (after ++ [setIsLoading false])%list)
  end.

(** What the render shows. *)

(** [disabled={!selectedEmotion || isLoading}] *)
Definition button_disabled (s : State) : bool :=
  (match chosen s with
   | Some _ => false
   | None => true
   end || isLoading s)%bool.

(** [{error && ...}] *)
Definition shows_error (s : State) : bool :=
  match error s with
  | Some m => negb (String.eqb m "")
  | None => false
  end.

(** [{isLoading && <LoadingSpinner ... />}] *)
Definition shows_spinner (s : State) : bool := isLoading s.

(** [{!isLoading && playlistData && ...}] *)
Definition shows_results (s : State) : bool :=
  (negb (isLoading s) && truthy (playlistData s))%bool.

(** [{playlistData.mood_collage && ...}], inside the results. *)
Definition shows_collage (s : State) : bool :=
  (shows_results s
   && match get_prop (playlistData s) "mood_collage" with
      | Resolved v => truthy v
      | Rejected _ => false
      end)%bool.

(** [{!isLoading && !playlistData && !error && ...}] *)
Definition shows_empty_state (s : State) : bool :=
  (negb (isLoading s) && negb (truthy (playlistData s)) && negb (shows_error s))%bool.

(** The page with the world it runs in and the promises it waits for, each
    with the setter calls its callbacks make when it settles. *)
Record Page : Type := {
  state : State;
  world : World;
  promises : list (list Update)
}.

(** An async call is started: its requests go out, and its callbacks wait. *)
Definition spawn (m : Async (list Update)) (p : Page) : Page :=
  let '(r, w) := m (world p) in
  {| state := state p; world := w;
     promises := (promises p ++ [match r with
                                 | Resolved us => us
                                 | Rejected _ => []
                                 end])%list |}.

(** The first render and its effect. *)
Definition mount (this : SpotifyAPI) (w : World) : Page :=
  spawn (fetch_emotions this) {| state := initial; world := w; promises := [] |}.

(** What can happen to the mounted page.  Each event finds the page
    rendered with the state the events before it left. *)
Inductive Event : Type :=
| Select (emotion : string)    (* a button of the emotion selector *)
| ChangeNumTracks (n : float)  (* the select of the number of tracks *)
| ClickGenerate                (* the button, which does nothing when disabled *)
| Settle (n : nat).            (* the n-th of the waiting promises settles *)

Definition step (this : SpotifyAPI) (e : Event) (p : Page) : Page :=
  match e with
  | Select emotion =>
      {| state := update (setSelectedEmotion emotion) (state p);
         world := world p; promises := promises p |}
  | ChangeNumTracks n =>
      {| state := update (setNumTracks n) (state p);
         world := world p; promises := promises p |}
  | ClickGenerate =>
      if button_disabled (state p) then p
      else
        let '(before, rest) := handleGeneratePlaylist this (state p) in
        spawn rest {| state := updates before (state p);
                      world := world p; promises := promises p |}
  | Settle n =>
      match promises p !! n with
      | Some us =>
          {| state := updates us (state p); world := world p;
             promises := delete n (promises p) |}
      | None => p
      end
  end.

Definition run_events (this : SpotifyAPI) (events : list Event) (p : Page) : Page :=
  fold_left (fun p e => step this e p) events p.

(** The promises of a generation: the ones whose callbacks switch the
    spinner off. *)
Definition is_generation (us : list Update) : bool :=
  match last us with
  | Some (setIsLoading false) => true
  | _ => false
  end.

End Page.

End Home.

(** ** More vocabulary: the Home page *)

(** A value that puts no mood collage on the page: a read of its
    [mood_collage] throws or gives something falsy. *)
Definition no_collage (v : JSValue) : bool :=
  match get_prop v "mood_collage" with
  | Resolved x => negb (truthy x)
  | Rejected _ => true
  end.

(** The playlist data a setter call stores, if any. *)
Definition stored_playlist (u : Home.Update) : option JSValue :=
  match u with
  | Home.setPlaylistData value => Some value
  | _ => None
  end.

(** The value a setter call gives [isLoading], if any. *)
Definition stored_loading (u : Home.Update) : option bool :=
  match u with
  | Home.setIsLoading value => Some value
  | _ => None
  end.

(** The generations the page waits for. *)
Definition generations (p : Home.Page) : list (list Home.Update) :=
  List.filter Home.is_generation (Home.promises p).

(** The request of a generation for one emotion and a number of tracks. *)
Definition emotion_request (emotion : string) (n : float) : PlaylistGenerationRequest :=
  {| songs := None; artists := None; emotion := Some [emotion];
     num_results := Some n; enrich_with_lyrics := None |}.

(** No playlist data the page holds or is about to store has a mood
    collage to show. *)
Definition collage_free (p : Home.Page) : Prop :=
  no_collage (Home.playlistData (Home.state p)) = true
  /\ forall us u v,
       us ∈ Home.promises p -> u ∈ us -> stored_playlist u = Some v ->
       no_collage v = true.

(** The spinner is on exactly while one generation is waited for, and the
    other promises leave it alone. *)
Definition one_generation (p : Home.Page) : Prop :=
  length (generations p) = (if Home.isLoading (Home.state p) then 1 else 0)
  /\ forall us,
       us ∈ Home.promises p ->
       last us = Some (Home.setIsLoading false)
       \/ forall u, u ∈ us -> stored_loading u = None.

(** * Properties *)

Open Scope list_scope.

(** ** Steps that send nothing *)

Lemma quiet_ret {A} (a : A) : quiet (ret a).
Proof. intros w; reflexivity. Qed.

Lemma quiet_throw {A} (e : Thrown) : quiet (@throw A e).
Proof. intros w; reflexivity. Qed.

Lemma quiet_await {A} (r : Settled A) : quiet (await r).
Proof. destruct r; intros w; reflexivity. Qed.

Lemma quiet_console_error label e : quiet (console_error label e).
Proof. intros w; reflexivity. Qed.

Lemma quiet_Math_random : quiet Math_random.
Proof. intros w; reflexivity. Qed.

Lemma quiet_bind {A B} (m : Async A) (k : A -> Async B) :
  quiet m -> (forall a, quiet (k a)) -> quiet (bind m k).
Proof.
  intros Hm Hk w. unfold bind. specialize (Hm w).
  destruct (m w) as [[a|e] w']; simpl in *.
  - rewrite Hk. exact Hm.
  - exact Hm.
Qed.

Lemma quiet_map_async {A B} (f : A -> Async B) (items : list A) :
  (forall a, quiet (f a)) -> quiet (map_async f items).
Proof.
  intros Hf. induction items as [|x rest IH]; simpl.
  - apply quiet_ret.
  - apply quiet_bind; [apply Hf|]. intros y.
    apply quiet_bind; [exact IH|]. intros ys. apply quiet_ret.
Qed.

Lemma quiet_Array_map v (f : JSValue -> Async JSValue) :
  (forall a, quiet (f a)) -> quiet (Array_map v f).
Proof.
  intros Hf. destruct v; simpl; try apply quiet_throw.
  apply quiet_bind; [apply quiet_map_async, Hf|]. intros; apply quiet_ret.
Qed.

Ltac quiet_step :=
  first
    [ apply quiet_ret | apply quiet_throw | apply quiet_await
    | apply quiet_console_error | apply quiet_Math_random
    | apply quiet_bind; [|intros ?]
    | apply quiet_Array_map; intros ?
    | match goal with
      | |- quiet (if ?b then _ else _) => destruct b
      end ].

Ltac quiet_solve := repeat quiet_step.

(** One [fetch], then steps that send nothing, inside a [try] whose [catch]
    sends nothing: exactly one request leaves. *)
Lemma one_fetch {A} (r : Request) (k : Response -> Async A) (h : Thrown -> Async A) w :
  (forall response, quiet (k response)) -> (forall e, quiet (h e)) ->
  fetched (snd (try_catch (bind (fetch r) k) h w)) = fetched w ++ [r].
Proof.
  intros Hk Hh. unfold try_catch, bind, fetch.
  destruct (network w (length (fetched w)) r) as [response|e]; simpl.
  - specialize (Hk response).
    match goal with |- context [k response ?w'] => specialize (Hk w'); destruct (k response w') as [[a|e] w''] end;
      simpl in *; [exact Hk | rewrite Hh; exact Hk].
  - rewrite Hh. reflexivity.
Qed.

Lemma fetch_resolved {A} (r : Request) (k : Response -> Async A) (h : Thrown -> Async A)
    w response :
  network w (length (fetched w)) r = Resolved response ->
  try_catch (bind (fetch r) k) h w = try_catch (k response) h (sent r w).
Proof. intros H. unfold try_catch at 1, bind, fetch. rewrite H. reflexivity. Qed.

Lemma fetch_rejected {A} (r : Request) (k : Response -> Async A) (h : Thrown -> Async A)
    w e :
  network w (length (fetched w)) r = Rejected e ->
  try_catch (bind (fetch r) k) h w = h e (sent r w).
Proof. intros H. unfold try_catch, bind, fetch. rewrite H. reflexivity. Qed.

Section ClientProperties.

Variable toString36 : Sample -> string.
Variable ToNumber_other : JSValue -> float.

Lemma quiet_playlist_track song : quiet (playlist_track toString36 song).
Proof. unfold playlist_track. quiet_solve. Qed.

Lemma quiet_search_result_track track : quiet (search_result_track track).
Proof. unfold search_result_track. quiet_solve. Qed.

Lemma quiet_search_result_artist a : quiet (search_result_artist a).
Proof. unfold search_result_artist. quiet_solve. Qed.

(** Every call sends exactly the request [request_of] gives, and no other. *)
Lemma sends_request_of this call w :
  fetched (snd (perform toString36 ToNumber_other this call w))
  = fetched w ++ [request_of this call].
Proof.
  destruct call; simpl;
    [ unfold generatePlaylist | unfold getEmotions | unfold healthCheck
    | unfold searchTrack | unfold searchTracks | unfold searchArtists
    | unfold getTrackById ];
    apply one_fetch; intros; quiet_solve;
    auto using quiet_playlist_track, quiet_search_result_track,
               quiet_search_result_artist.
Qed.

(** C1, as the code has it.  When the request of a call fails (the fetch
    rejects or the response is not ok), the call has sent that one request
    and no other, and: [generatePlaylist], [healthCheck], [searchTrack] and
    [getTrackById] reject, forwarding the error of a rejected fetch as it
    is; [getEmotions] resolves to its built-in list of emotions;
    [searchTracks] and [searchArtists] resolve to an empty array. *)
Theorem failed_request_outcome this call w :
  failed (network w (length (fetched w)) (request_of this call)) = true ->
  fetched (snd (perform toString36 ToNumber_other this call w))
  = fetched w ++ [request_of this call]
  /\ match call with
     | call_getEmotions =>
         fst (perform toString36 ToNumber_other this call w) = Resolved fallback_emotions
     | call_searchTracks _ _ _ | call_searchArtists _ _ =>
         fst (perform toString36 ToNumber_other this call w) = Resolved (JArr [])
     | _ =>
         rejected (fst (perform toString36 ToNumber_other this call w)) = true
         /\ forall e,
              network w (length (fetched w)) (request_of this call) = Rejected e ->
              fst (perform toString36 ToNumber_other this call w) = Rejected e
     end.
Proof.
  intros Hfail. split; [apply sends_request_of|].
  destruct (network w (length (fetched w)) (request_of this call))
    as [response|e0] eqn:Hnet; simpl in Hfail.
  - (* a response that is not ok *)
    apply negb_true_iff in Hfail.
    destruct call; simpl in *; unfold a_GET in *;
      [ unfold generatePlaylist | unfold getEmotions | unfold healthCheck
      | unfold searchTrack | unfold searchTracks | unfold searchArtists
      | unfold getTrackById ];
      rewrite (fetch_resolved _ _ _ _ _ Hnet), Hfail; simpl;
      try reflexivity;
      try (split; [reflexivity | intros ? ?; discriminate]).
    (* generatePlaylist reads the body of the error response first *)
    split; [|intros ? ?; discriminate].
    unfold try_catch, bind.
    destruct (json response) as [error|e1]; simpl; [|reflexivity].
    destruct (get_prop error "detail") as [detail|e2]; reflexivity.
  - (* the fetch rejected *)
    destruct call; simpl in *; unfold a_GET in *;
      [ unfold generatePlaylist | unfold getEmotions | unfold healthCheck
      | unfold searchTrack | unfold searchTracks | unfold searchArtists
      | unfold getTrackById ];
      rewrite (fetch_rejected _ _ _ _ _ Hnet); simpl;
      try reflexivity;
      (split; [reflexivity | intros ? [= <-]; reflexivity]).
Qed.

(** ** generatePlaylist on a successful response *)

Lemma get_prop_readable v k : readable v = true -> get_prop v k = Resolved (prop v k).
Proof. unfold prop. destruct v; simpl; intros H; try discriminate; reflexivity. Qed.

Lemma playlist_track_readable song w :
  readable song = true ->
  exists id w',
    playlist_track toString36 song w = (Resolved (mirrored song id), w')
    /\ id_of toString36 song id
    /\ network w' = network w /\ fetched w' = fetched w.
Proof.
  intros Hr. unfold playlist_track, id_of.
  unfold bind at 1. rewrite (get_prop_readable _ "spotify_id" Hr). simpl.
  destruct (truthy (prop song "spotify_id")) eqn:Ht.
  - exists (prop song "spotify_id"), w. unfold bind, mirrored; simpl.
    rewrite !(get_prop_readable _ _ Hr). simpl. auto.
  - eexists _, _. unfold bind, mirrored, Math_random; simpl.
    rewrite !(get_prop_readable _ _ Hr). simpl.
    split; [reflexivity|]. split; [eexists; reflexivity|]. auto.
Qed.

Lemma map_playlist_track songs : forall w,
  Forall (fun song => readable song = true) songs ->
  exists tracks w',
    map_async (playlist_track toString36) songs w = (Resolved tracks, w')
    /\ Forall2 (fun song track => exists id, track = mirrored song id
                                             /\ id_of toString36 song id)
               songs tracks
    /\ network w' = network w /\ fetched w' = fetched w.
Proof.
  induction songs as [|song rest IH]; intros w Hall.
  - exists [], w. simpl. auto.
  - inversion Hall as [|? ? Hsong Hrest]; subst.
    destruct (playlist_track_readable song w Hsong) as (id & w1 & Hrun & Hid & Hn1 & Hf1).
    destruct (IH w1 Hrest) as (tracks & w2 & Hrun2 & Hall2 & Hn2 & Hf2).
    exists (mirrored song id :: tracks), w2. simpl.
    unfold bind at 1. rewrite Hrun. unfold bind at 1. rewrite Hrun2. simpl.
    split; [reflexivity|]. split; [|split; congruence].
    constructor; [exists id; auto | exact Hall2].
Qed.

(** On an ok response whose body has a [playlist] array of readable songs,
    [generatePlaylist] resolves, with one track made of each song. *)
Lemma generatePlaylist_ok this request w response data songs :
  network w (length (fetched w)) (request_of this (call_generatePlaylist request))
  = Resolved response ->
  ok response = true ->
  json response = Resolved data ->
  get_prop data "playlist" = Resolved (JArr songs) ->
  Forall (fun song => readable song = true) songs ->
  exists tracks,
    fst (generatePlaylist toString36 this request w)
    = Resolved (JObj [("playlist", JArr tracks);
                      ("emotion_features", prop data "emotion_features");
                      ("combined_embedding", prop data "combined_embedding")])
    /\ Forall2 (fun song track => exists id, track = mirrored song id
                                             /\ id_of toString36 song id)
               songs tracks.
Proof.
  intros Hnet Hok Hjson Hplaylist Hsongs. simpl in Hnet.
  assert (Hdata : readable data = true)
    by (destruct data; simpl in *; try discriminate; reflexivity).
  unfold generatePlaylist. rewrite (fetch_resolved _ _ _ _ _ Hnet), Hok. simpl.
  destruct (map_playlist_track songs (sent (request_of this (call_generatePlaylist request)) w) Hsongs)
    as (tracks & w' & Hrun & Hall & _ & _).
  exists tracks. split; [|exact Hall].
  unfold try_catch, bind at 1. rewrite Hjson. simpl.
  unfold bind at 1. rewrite Hplaylist. simpl.
  unfold bind at 1. simpl. unfold bind at 1. simpl in Hrun. rewrite Hrun. simpl.
  unfold bind. rewrite !(get_prop_readable _ _ Hdata). reflexivity.
Qed.

(** C3.  On every successful response of the backend (ok, with a body whose
    [playlist] is an array of songs), the playlist [generatePlaylist] resolves
    to has the length and the order of the backend's, and the track at each
    position carries the fields of the song at that position unchanged:
    [name] is the song's [song_name], and [artist], [album], [preview_url],
    [similarity_score], [external_url], [duration_ms], [popularity] and
    [album_image] are the song's (a field the song lacks reads [undefined] on
    both sides). *)
Theorem playlist_mirrors_backend this request w response data songs :
  network w (length (fetched w)) (request_of this (call_generatePlaylist request))
  = Resolved response ->
  ok response = true ->
  json response = Resolved data ->
  get_prop data "playlist" = Resolved (JArr songs) ->
  Forall (fun song => readable song = true) songs ->
  exists tracks,
    fst (generatePlaylist toString36 this request w)
    = Resolved (JObj [("playlist", JArr tracks);
                      ("emotion_features", prop data "emotion_features");
                      ("combined_embedding", prop data "combined_embedding")])
    /\ length tracks = length songs
    /\ forall i song track,
         songs !! i = Some song -> tracks !! i = Some track ->
         get_prop track "name" = get_prop song "song_name"
         /\ forall k,
              k ∈ ["artist"; "album"; "preview_url"; "similarity_score";
                   "external_url"; "duration_ms"; "popularity"; "album_image"] ->
              get_prop track k = get_prop song k.
Proof.
  intros Hnet Hok Hjson Hplaylist Hsongs.
  destruct (generatePlaylist_ok this request w response data songs
              Hnet Hok Hjson Hplaylist Hsongs) as (tracks & Hres & Hall).
  exists tracks. split; [exact Hres|].
  split; [symmetry; exact (Forall2_length _ _ _ Hall)|].
  intros i song track Hs Ht.
  destruct (Forall2_lookup_lr _ _ _ _ _ _ Hall Hs Ht) as (id & -> & _).
  assert (Hr : readable song = true) by exact (proj1 (Forall_lookup _ _) Hsongs i song Hs).
  split.
  - rewrite (get_prop_readable _ _ Hr). reflexivity.
  - intros k Hk. rewrite (get_prop_readable _ _ Hr).
    repeat (apply elem_of_cons in Hk as [->|Hk]; [reflexivity|]).
    apply elem_of_nil in Hk. destruct Hk.
Qed.

(** ** The request and the response of generatePlaylist *)

(** Whatever the backend sent, a resolved [generatePlaylist] is an object
    with three properties: the playlist, [emotion_features] and
    [combined_embedding]. *)
Lemma generatePlaylist_result_shape this request w result :
  fst (generatePlaylist toString36 this request w) = Resolved result ->
  exists playlist emotion_features combined_embedding,
    result = JObj [("playlist", playlist); ("emotion_features", emotion_features);
                   ("combined_embedding", combined_embedding)].
Proof.
  unfold generatePlaylist, try_catch, bind at 1, fetch.
  destruct (network w _ _) as [response|e]; simpl; [|discriminate].
  destruct (ok response); simpl.
  - unfold bind at 1. destruct (json response) as [data|e]; simpl; [|discriminate].
    unfold bind at 1. destruct (get_prop data "playlist") as [backend|e]; simpl;
      [|discriminate].
    unfold bind at 1.
    match goal with
    | |- context [Array_map ?b ?f ?w'] => destruct (Array_map b f w') as [[playlist|e] w'']
    end; simpl; [|discriminate].
    unfold bind at 1. destruct (get_prop data "emotion_features") as [ef|e]; simpl;
      [|discriminate].
    unfold bind at 1. destruct (get_prop data "combined_embedding") as [ce|e]; simpl;
      [|discriminate].
    intros [= <-]. eauto.
  - unfold bind at 1. destruct (json response) as [error|e]; simpl; [|discriminate].
    unfold bind at 1. destruct (get_prop error "detail"); simpl; discriminate.
Qed.

(** The body of the request has the properties of [PlaylistGenerationRequest]
    and no other: a collage flag is not among them. *)
Lemma request_body_has_no_collage_flag request :
  exists fields,
    JSON_stringify request = JObj fields
    /\ own_property "include_collage" fields = JUndefined.
Proof.
  eexists; split; [reflexivity|].
  destruct request as [[s|] [a|] [e|] [n|] [l|]]; reflexivity.
Qed.

End ClientProperties.

(** C1 as stated fails for [getEmotions]: with the network down its request
    fails, and the call resolves to the built-in list instead of rejecting. *)
Lemma getEmotions_substitutes_fallback :
  failed (network offline (length (fetched offline))
            (request_of spotifyAPI call_getEmotions)) = true
  /\ fst (getEmotions spotifyAPI offline) = Resolved fallback_emotions
  /\ rejected (fst (getEmotions spotifyAPI offline)) = false.
Proof. repeat split; reflexivity. Qed.

Lemma failed_request_outcome_witness :
  failed (network offline (length (fetched offline))
            (request_of spotifyAPI call_healthCheck)) = true
  /\ fetched (snd (healthCheck spotifyAPI offline))
     = [a_GET "http://localhost:8000/api/v1/health" []]
  /\ rejected (fst (healthCheck spotifyAPI offline)) = true.
Proof.
  split; [reflexivity|].
  pose proof (failed_request_outcome sample_digits (fun _ => PrimFloat.zero)
                spotifyAPI call_healthCheck offline eq_refl) as [Hsent [Hrej _]].
  split; [exact Hsent | exact Hrej].
Defined.

(** C2 at a backend that returns a mood collage.  The request is a POST to
    [/generate-playlist] whose body has the emotion list and the result count
    and no collage flag; the call resolves to the playlist and the
    audio-feature aggregate, and the mood collage of the response is gone. *)
Theorem generatePlaylist_loses_mood_collage :
  let outcome := generatePlaylist sample_digits spotifyAPI happy_request collage_backend in
  fetched (snd outcome)
  = [{| url := "http://localhost:8000/api/v1/generate-playlist"; query := [];
        method := POST; headers := [("Content-Type", "application/json")];
        body := Some (JObj [("emotion", JArr [JStr "happy"]);
                            ("num_results", JNum 10%float)]) |}]
  /\ exists result,
       fst outcome = Resolved result
       /\ get_prop result "playlist"
          = Resolved (JArr [mirrored (JObj [("song_name", JStr "Here Comes the Sun");
                                            ("artist", JStr "The Beatles");
                                            ("spotify_id", JStr "6dGnYIeXmHdcikdzNNDMm2");
                                            ("similarity_score", JNum 0.875%float)])
                                     (JStr "6dGnYIeXmHdcikdzNNDMm2")])
       /\ get_prop result "emotion_features"
          = Resolved (JObj [("valence", JNum 0.75%float)])
       /\ get_prop result "mood_collage" = Resolved JUndefined.
Proof.
  split; [reflexivity|]. eexists. split; [reflexivity|]. repeat split; reflexivity.
Qed.

Lemma playlist_mirrors_backend_witness :
  exists tracks,
    fst (generatePlaylist sample_digits spotifyAPI happy_request collage_backend)
    = Resolved (JObj [("playlist", JArr tracks);
                      ("emotion_features", JObj [("valence", JNum 0.75%float)]);
                      ("combined_embedding", JUndefined)])
    /\ length tracks = 1.
Proof.
  destruct (playlist_mirrors_backend sample_digits spotifyAPI happy_request collage_backend
              _ _ _ eq_refl eq_refl eq_refl eq_refl
              ltac:(repeat constructor)) as (tracks & Hres & Hlen & _).
  exists tracks. split; [exact Hres | exact Hlen].
Defined.

(** ** getEmotions and healthCheck *)

(** C4.  [getEmotions] sends one GET request to [/emotions], and on an ok
    response with a JSON body it resolves to the value of the body's
    [emotions] property. *)
Theorem getEmotions_returns_emotions this w response data :
  network w (length (fetched w)) (request_of this call_getEmotions) = Resolved response ->
  ok response = true ->
  json response = Resolved data ->
  readable data = true ->
  fetched (snd (getEmotions this w))
  = fetched w ++ [{| url := (baseUrl this ++ "/emotions")%string; query := [];
                     method := GET; headers := []; body := None |}]
  /\ exists emotions,
       get_prop data "emotions" = Resolved emotions
       /\ fst (getEmotions this w) = Resolved emotions.
Proof.
  intros Hnet Hok Hjson Hdata. split.
  - exact (sends_request_of sample_digits (fun _ => PrimFloat.zero) this call_getEmotions w).
  - exists (prop data "emotions"). split; [apply get_prop_readable, Hdata|].
    simpl in Hnet. unfold getEmotions.
    rewrite (fetch_resolved _ _ _ _ _ Hnet), Hok. simpl.
    unfold try_catch, bind. rewrite Hjson. simpl.
    rewrite (get_prop_readable _ _ Hdata). reflexivity.
Qed.

(** A backend that lists two emotions. *)
Lemma getEmotions_returns_emotions_witness :
  let w := world_answering
             (Resolved {| ok := true;
                          json := Resolved (JObj [("emotions",
                                                   JArr [JStr "happy"; JStr "sad"])]) |}) in
  fst (getEmotions spotifyAPI w) = Resolved (JArr [JStr "happy"; JStr "sad"]).
Proof.
  intros w.
  destruct (getEmotions_returns_emotions spotifyAPI w _ _ eq_refl eq_refl eq_refl eq_refl)
    as (_ & emotions & Hget & Hres).
  rewrite Hres. f_equal. injection Hget as <-. reflexivity.
Defined.

(** C6.  [healthCheck] sends one GET request to [/health]; on an ok
    response it resolves to the body as it is, so with the [status] and
    [version] the service sent; on a response that is not ok it rejects. *)
Theorem healthCheck_status_version this w response :
  network w (length (fetched w)) (request_of this call_healthCheck) = Resolved response ->
  fetched (snd (healthCheck this w))
  = fetched w ++ [{| url := (baseUrl this ++ "/health")%string; query := [];
                     method := GET; headers := []; body := None |}]
  /\ (ok response = true ->
      forall data, json response = Resolved data ->
        fst (healthCheck this w) = Resolved data
        /\ (forall result, fst (healthCheck this w) = Resolved result ->
              get_prop result "status" = get_prop data "status"
              /\ get_prop result "version" = get_prop data "version"))
  /\ (ok response = false ->
      fst (healthCheck this w) = Rejected (new_Error (JStr "Health check failed"))).
Proof.
  intros Hnet. split; [|split].
  - exact (sends_request_of sample_digits (fun _ => PrimFloat.zero) this call_healthCheck w).
  - intros Hok data Hjson. simpl in Hnet.
    assert (Hres : fst (healthCheck this w) = Resolved data).
    { unfold healthCheck. rewrite (fetch_resolved _ _ _ _ _ Hnet), Hok. simpl.
      unfold try_catch. rewrite Hjson. reflexivity. }
    split; [exact Hres|]. intros result Hresult.
    rewrite Hres in Hresult. injection Hresult as <-. auto.
  - intros Hok. simpl in Hnet. unfold healthCheck.
    rewrite (fetch_resolved _ _ _ _ _ Hnet), Hok. reflexivity.
Qed.

Lemma healthCheck_status_version_witness :
  let healthy := JObj [("status", JStr "healthy"); ("version", JStr "0.1.0")] in
  fst (healthCheck spotifyAPI (world_answering (Resolved {| ok := true;
                                                            json := Resolved healthy |})))
  = Resolved healthy
  /\ fst (healthCheck spotifyAPI (world_answering (Resolved {| ok := false;
                                                              json := Resolved JNull |})))
     = Rejected (new_Error (JStr "Health check failed")).
Proof.
  intros healthy. split.
  - exact (proj1 (proj1 (proj2 (healthCheck_status_version spotifyAPI
                                  (world_answering (Resolved {| ok := true;
                                                                json := Resolved healthy |}))
                                  _ eq_refl)) eq_refl healthy eq_refl)).
  - exact (proj2 (proj2 (healthCheck_status_version spotifyAPI
                           (world_answering (Resolved {| ok := false;
                                                         json := Resolved JNull |}))
                           _ eq_refl)) eq_refl).
Defined.

(** ** searchByEmotion and getRecommendations *)

(** C8, as the code has it.  [searchByEmotion(emotion, n)] is
    [generatePlaylist] on the emotion in a singleton list and the count, and
    [getRecommendations(seeds, emotion, n)] is [generatePlaylist] on the seeds
    mapped to songs, the count, and the emotion in a singleton list when it is
    given and not empty, left out otherwise. *)
Theorem wrappers_are_generatePlaylist toString36 this emotion seeds optional_emotion n :
  searchByEmotion toString36 this emotion (Some n)
  = searchByEmotion_spec toString36 this emotion n
  /\ getRecommendations toString36 this seeds optional_emotion (Some n)
     = getRecommendations_spec toString36 this seeds (given optional_emotion) n.
Proof.
  split; [reflexivity|].
  unfold getRecommendations, getRecommendations_spec, given.
  destruct optional_emotion as [e|]; [destruct (String.eqb e "")|]; reflexivity.
Qed.

(** C8 as stated fails at an empty emotion string: the code leaves the
    emotion out of the request, the wording puts [[""]] in it. *)
Lemma getRecommendations_drops_empty_emotion :
  getRecommendations sample_digits spotifyAPI [] (Some "") (Some 20%float)
  <> getRecommendations_spec sample_digits spotifyAPI [] (Some "") 20%float
  /\ map body (fetched (snd (getRecommendations sample_digits spotifyAPI []
                               (Some "") (Some 20%float) offline)))
     = [Some (JObj [("songs", JArr []); ("num_results", JNum 20%float)])]
  /\ map body (fetched (snd (getRecommendations_spec sample_digits spotifyAPI []
                               (Some "") 20%float offline)))
     = [Some (JObj [("songs", JArr []); ("emotion", JArr [JStr ""]);
                    ("num_results", JNum 20%float)])].
Proof.
  split; [|split; reflexivity].
  intros H.
  apply (f_equal (fun m : Async JSValue => map body (fetched (snd (m offline))))) in H.
  discriminate H.
Qed.

(** ** MoodCollageDisplay *)

Section CollageProperties.

Variable toFixed2 : float -> string.
Variable String_of : JSValue -> string.

Lemma swatches_elements (colors : list string) : forall g : nat -> nat,
  flat_map elements (imap (fun index color => swatch color (g index)) colors)
  = imap (fun index color =>
            ("div", [("key", AIndex (g index));
                     ("className", AText "w-8 h-8 rounded-full border-2 border-white/30");
                     ("style", AStyle [("backgroundColor", color)]);
                     ("title", AText color)])) colors.
Proof.
  induction colors as [|color rest IH]; intros g; [reflexivity|].
  cbn [imap flat_map elements swatch app]. f_equal.
  exact (IH (g ∘ S)).
Qed.

Lemma swatches_no_image (colors : list string) : forall g : nat -> nat,
  filter (fun e => fst e = "img")
         (flat_map elements (imap (fun index color => swatch color (g index)) colors))
  = [].
Proof.
  induction colors as [|color rest IH]; intros g; [reflexivity|].
  cbn [imap flat_map elements swatch app].
  rewrite filter_cons_False by (simpl; discriminate).
  exact (IH (g ∘ S)).
Qed.

Lemma omap_background_skip e l :
  background e = None -> omap background (e :: l) = omap background l.
Proof. intros H. simpl. rewrite H. reflexivity. Qed.

Lemma omap_background_keep e color l :
  background e = Some color -> omap background (e :: l) = color :: omap background l.
Proof. intros H. simpl. rewrite H. reflexivity. Qed.

Lemma swatches_backgrounds (colors : list string) : forall g : nat -> nat,
  omap background
       (flat_map elements (imap (fun index color => swatch color (g index)) colors))
  = colors.
Proof.
  induction colors as [|color rest IH]; intros g; [reflexivity|].
  cbn [imap flat_map elements swatch app].
  rewrite (omap_background_keep _ color) by reflexivity. f_equal.
  exact (IH (g ∘ S)).
Qed.

Lemma visual_params_plain (params : list (string * JSValue)) :
  filter (fun e => fst e = "img")
         (flat_map elements (map (visual_param toFixed2 String_of) params)) = []
  /\ omap background
          (flat_map elements (map (visual_param toFixed2 String_of) params)) = [].
Proof.
  induction params as [|[key value] rest [IH1 IH2]]; [split; reflexivity|].
  split.
  - cbn [map flat_map elements visual_param app].
    rewrite !filter_cons_False by (simpl; discriminate). exact IH1.
  - cbn [map flat_map elements visual_param app].
    rewrite !omap_background_skip by reflexivity. exact IH2.
Qed.

(** C7.  For every collage, the render of [MoodCollageDisplay] has exactly
    one image, whose source is the PNG data URL made of the collage's
    [image_base64]; its color swatches are the first five entries of
    [dominant_colors], in order, so at most five. *)
Theorem collage_image_and_swatches collage emotion isExpanded :
  image_sources (MoodCollageDisplay toFixed2 String_of collage emotion isExpanded)
  = [Some (AText ("data:image/png;base64," ++ image_base64 collage))]
  /\ swatch_colors (MoodCollageDisplay toFixed2 String_of collage emotion isExpanded)
     = take 5 (dominant_colors collage)
  /\ length (swatch_colors (MoodCollageDisplay toFixed2 String_of collage emotion isExpanded))
     <= 5.
Proof.
  assert (Hcolors :
    swatch_colors (MoodCollageDisplay toFixed2 String_of collage emotion isExpanded)
    = take 5 (dominant_colors collage)).
  { unfold swatch_colors, MoodCollageDisplay.
    cbn [elements flat_map app]. rewrite !app_nil_r.
    rewrite !omap_background_skip by reflexivity.
    rewrite omap_app, (swatches_backgrounds _ (fun i => i)).
    destruct isExpanded; cbn [flat_map elements app].
    - rewrite !app_nil_r, !omap_background_skip by reflexivity.
      rewrite (proj2 (visual_params_plain _)). apply app_nil_r.
    - apply app_nil_r. }
  split; [|split].
  - unfold image_sources, MoodCollageDisplay.
    cbn [elements flat_map app]. rewrite !app_nil_r.
    rewrite !filter_cons_False by (simpl; discriminate).
    rewrite filter_cons_True by reflexivity.
    rewrite !filter_cons_False by (simpl; discriminate).
    rewrite filter_app, (swatches_no_image _ (fun i => i)).
    destruct isExpanded; cbn [flat_map elements app].
    + rewrite !app_nil_r, !filter_cons_False by (simpl; discriminate).
      rewrite (proj1 (visual_params_plain _)). reflexivity.
    + reflexivity.
  - exact Hcolors.
  - rewrite Hcolors, length_take. lia.
Qed.

End CollageProperties.

(** ** shuffleArray *)

Lemma floor_times_lt r n : 0 < n -> floor_times r n < n.
Proof.
  intros Hn. unfold floor_times.
  apply Nat.Div0.div_lt_upper_bound. nia.
Qed.

Section ShuffleProperties.

Context {T : Type} (undefined : T).

Lemma array_set_in_range (a : list T) i x :
  i < length a -> array_set undefined a i x = <[i := x]> a.
Proof. intros Hi. unfold array_set. case_decide; [reflexivity | lia]. Qed.

(** A swap of two positions inside the array permutes it and touches no
    other array. *)
Lemma swap_permutes shuffled i j (m : Memory) (a : list T) :
  arrays m !! shuffled = Some a ->
  i < length a -> j < length a ->
  exists a',
    arrays (swap undefined shuffled i j m) = <[shuffled := a']> (arrays m)
    /\ a' ≡ₚ a
    /\ rng (swap undefined shuffled i j m) = rng m.
Proof.
  intros Ha Hi Hj.
  destruct (lookup_lt_is_Some_2 a i Hi) as [xi Hxi].
  destruct (lookup_lt_is_Some_2 a j Hj) as [xj Hxj].
  unfold swap, elements_of, array_get. rewrite Ha. simpl. rewrite Hxi, Hxj. simpl.
  rewrite (array_set_in_range a i xj Hi).
  rewrite array_set_in_range by (rewrite length_insert; exact Hj).
  eexists. split; [reflexivity|]. split; [|reflexivity].
  exact (Permutation_insert_swap a i j xi xj Hxi Hxj).
Qed.

Lemma shuffle_loop_permutes shuffled i : forall (m : Memory) (a : list T),
  arrays m !! shuffled = Some a ->
  i = 0 \/ i < length a ->
  exists a',
    arrays (shuffle_loop undefined i shuffled m) = <[shuffled := a']> (arrays m)
    /\ a' ≡ₚ a.
Proof.
  induction i as [|i IH]; intros m a Ha Hi.
  - exists a. simpl. split; [|reflexivity].
    symmetry. apply insert_id. exact Ha.
  - destruct Hi as [Hi|Hi]; [discriminate|].
    cbn [shuffle_loop].
    set (j := floor_times (rng m (used m)) (S i + 1)).
    set (m1 := {| arrays := arrays m; rng := rng m; used := S (used m) |}).
    assert (Hj : j < length a).
    { pose proof (floor_times_lt (rng m (used m)) (S i + 1)). fold j in H. lia. }
    destruct (swap_permutes shuffled (S i) j m1 a Ha Hi Hj) as (a1 & Hswap & Hperm & _).
    destruct (IH (swap undefined shuffled (S i) j m1) a1) as (a2 & Hloop & Hperm2).
    + rewrite Hswap. apply lookup_insert_eq.
    + right. rewrite (Permutation_length Hperm). lia.
    + exists a2. split.
      * rewrite Hloop, Hswap. simpl. apply insert_insert_eq.
      * etransitivity; eassumption.
Qed.

(** C10.  Whatever the draws of [Math.random()], [shuffleArray] returns a
    new array whose elements are a permutation of those of its argument (so
    of the same length), and the argument, like every other array, holds
    what it held before. *)
Theorem shuffleArray_permutes (m : Memory) (array : nat) (a : list T) :
  arrays m !! array = Some a ->
  fst (shuffleArray undefined array m) <> array
  /\ arrays m !! fst (shuffleArray undefined array m) = None
  /\ arrays (snd (shuffleArray undefined array m)) !! array = Some a
  /\ (forall r, r <> fst (shuffleArray undefined array m) ->
        arrays (snd (shuffleArray undefined array m)) !! r = arrays m !! r)
  /\ exists a',
       arrays (snd (shuffleArray undefined array m))
         !! fst (shuffleArray undefined array m) = Some a'
       /\ a' ≡ₚ a
       /\ length a' = length a.
Proof.
  intros Ha. unfold shuffleArray, spread. cbn [fst snd].
  set (r := fresh (dom (arrays m))).
  assert (Hfresh : arrays m !! r = None).
  { apply not_elem_of_dom. apply is_fresh. }
  assert (Hne : r <> array) by congruence.
  set (m1 := {| arrays := <[r := elements_of m array]> (arrays m);
                rng := rng m; used := used m |}).
  assert (Hcopy : arrays m1 !! r = Some a).
  { unfold m1, elements_of. simpl. rewrite Ha. apply lookup_insert_eq. }
  destruct (shuffle_loop_permutes r (length (elements_of m1 r) - 1) m1 a Hcopy)
    as (a' & Hloop & Hperm).
  { unfold elements_of. rewrite Hcopy. simpl. lia. }
  rewrite Hloop. unfold m1 at 1 2 3. cbn [arrays].
  split; [exact Hne|]. split; [exact Hfresh|]. split; [|split].
  - rewrite !lookup_insert_ne by congruence. exact Ha.
  - intros r' Hr'. rewrite !lookup_insert_ne by congruence. reflexivity.
  - exists a'. split; [apply lookup_insert_eq|].
    split; [exact Hperm | exact (Permutation_length Hperm)].
Qed.

End ShuffleProperties.

(** A shuffle of four numbers with the draws 0, 1/4 and 2/5. *)
Lemma shuffleArray_permutes_witness :
  let m := {| arrays := {[ 0 := [1; 2; 3; 4] ]};
              rng := fun n => {| numerator := n; gap := 2 |}; used := 0 |} in
  arrays (snd (shuffleArray 0 0 m)) !! 0 = Some [1; 2; 3; 4]
  /\ fst (shuffleArray 0 0 m) <> 0.
Proof.
  intros m.
  destruct (shuffleArray_permutes 0 m 0 [1; 2; 3; 4] eq_refl) as (Hnew & _ & Hold & _).
  split; [exact Hold | exact Hnew].
Defined.

(** ** The autocomplete components *)

Section AutocompleteProperties.

Variable c : Component.

Lemma run_events_snoc events e s :
  run_events c (events ++ [e]) s = step c e (run_events c events s).
Proof. unfold run_events. rewrite foldl_app. reflexivity. Qed.

Lemma run_events_app earlier later s :
  run_events c (earlier ++ later) s = run_events c later (run_events c earlier s).
Proof. unfold run_events. apply foldl_app. Qed.

(** *** What a change of the input does *)

Lemma clear_debounceTimer_fields s :
  inputValue (clear_debounceTimer s) = inputValue s
  /\ suggestions (clear_debounceTimer s) = suggestions s
  /\ showSuggestions (clear_debounceTimer s) = showSuggestions s
  /\ clock (clear_debounceTimer s) = clock s
  /\ changed_at (clear_debounceTimer s) = changed_at s
  /\ issued (clear_debounceTimer s) = issued s
  /\ debounceTimer (clear_debounceTimer s) = debounceTimer s
  /\ cleanup (clear_debounceTimer s) = cleanup s.
Proof.
  unfold clear_debounceTimer.
  destruct (debounceTimer s) eqn:Href; simpl; rewrite ?Href; auto 10.
Qed.

Lemma clear_debounceTimer_timers s t :
  t ∈ timers (clear_debounceTimer s) ->
  t ∈ timers s /\ debounceTimer s <> Some (timer_id t).
Proof.
  unfold clear_debounceTimer. destruct (debounceTimer s) as [id|] eqn:Href.
  - simpl. intros [Hne Hin]%list_elem_of_filter. split; [exact Hin | congruence].
  - intros Hin. split; [exact Hin | discriminate].
Qed.

Lemma run_cleanup_fields s :
  inputValue (run_cleanup s) = inputValue s
  /\ clock (run_cleanup s) = clock s
  /\ changed_at (run_cleanup s) = changed_at s
  /\ issued (run_cleanup s) = issued s.
Proof.
  unfold run_cleanup. destruct (cleanup s); [|repeat split].
  destruct (clear_debounceTimer_fields s) as (? & _ & _ & ? & ? & ? & _). auto.
Qed.

Lemma effect_fields s :
  inputValue (effect s) = inputValue s
  /\ clock (effect s) = clock s
  /\ changed_at (effect s) = changed_at s
  /\ issued (effect s) = issued s.
Proof.
  unfold effect. destruct (Nat.ltb _ 2); [repeat split|].
  simpl. destruct (clear_debounceTimer_fields s) as (? & _ & _ & ? & ? & ? & _). auto.
Qed.

(** With fewer than two characters the effect clears and hides the list and
    sets no timeout. *)
Lemma effect_short s :
  String.length (trim (inputValue s)) < 2 ->
  suggestions (effect s) = []
  /\ showSuggestions (effect s) = false
  /\ timers (effect s) = timers s.
Proof.
  intros Hshort. unfold effect.
  destruct (Nat.ltb_spec (String.length (trim (inputValue s))) 2); [|lia].
  repeat split.
Qed.

Lemma effect_invariant s :
  changed_at s <= clock s ->
  changed_at s = clock s ->
  (forall t, t ∈ timers s -> is_search t = false) ->
  debounce_invariant (effect s).
Proof.
  intros Hle Hnow Hnone.
  destruct (effect_fields s) as (Hi & Hc & Hch & _).
  split; [rewrite Hc, Hch; exact Hle|].
  intros t Hin Hs. rewrite Hi, Hch.
  unfold effect in Hin |- *.
  destruct (Nat.ltb_spec (String.length (trim (inputValue s))) 2) as [Hshort|Hlong].
  - simpl in Hin. rewrite (Hnone t Hin) in Hs. discriminate.
  - simpl in Hin |- *.
    destruct (clear_debounceTimer_fields s) as (Hi' & _ & _ & Hc' & _).
    apply elem_of_app in Hin as [Hin|Hin].
    + apply clear_debounceTimer_timers in Hin as [Hin _].
      rewrite (Hnone t Hin) in Hs. discriminate.
    + apply list_elem_of_singleton in Hin. subst t. simpl.
      rewrite Hi', Hc'. repeat split; [f_equal; lia | exact Hlong].
Qed.

Lemma setInputValue_invariant v s :
  debounce_invariant s -> debounce_invariant (setInputValue v s).
Proof.
  intros Hinv. unfold setInputValue.
  destruct (String.eqb v (inputValue s)); [exact Hinv|].
  destruct (run_cleanup_fields (with_inputValue v s)) as (_ & Hc & Hch & _).
  apply effect_invariant.
  - rewrite Hc, Hch. simpl. lia.
  - rewrite Hc, Hch. reflexivity.
  - intros t Hin.
    destruct (is_search t) eqn:Hs; [exfalso|reflexivity].
    destruct Hinv as [_ Hinv].
    unfold run_cleanup in Hin. simpl in Hin.
    destruct (cleanup s) eqn:Hcl.
    + apply clear_debounceTimer_timers in Hin as [Hin Hne]. simpl in Hin, Hne.
      destruct (Hinv t Hin Hs) as (_ & _ & _ & Href & _). contradiction.
    + simpl in Hin. destruct (Hinv t Hin Hs) as (_ & _ & _ & _ & Hcl'). congruence.
Qed.

Lemma setInputValue_fields v s :
  clock (setInputValue v s) = clock s
  /\ issued (setInputValue v s) = issued s
  /\ ((inputValue (setInputValue v s) = inputValue s
       /\ changed_at (setInputValue v s) = changed_at s)
      \/ changed_at (setInputValue v s) = clock s).
Proof.
  unfold setInputValue. destruct (String.eqb v (inputValue s)); [auto|].
  destruct (effect_fields (run_cleanup (with_inputValue v s))) as (_ & Hc & Hch & His).
  destruct (run_cleanup_fields (with_inputValue v s)) as (_ & Hc' & Hch' & His').
  rewrite Hc, Hch, His, Hc', Hch', His'. simpl. auto.
Qed.

(** *** The invariant along a run *)

(** The invariant only looks at the input, the ref, the timeouts of the
    effect and the two times. *)
Lemma invariant_frame s s' :
  debounce_invariant s ->
  inputValue s' = inputValue s ->
  changed_at s' = changed_at s ->
  clock s <= clock s' ->
  debounceTimer s' = debounceTimer s ->
  cleanup s' = cleanup s ->
  (forall t, t ∈ timers s' -> is_search t = true -> t ∈ timers s) ->
  debounce_invariant s'.
Proof.
  intros [Hle Hinv] Hi Hch Hc Href Hcl Hsub. split; [lia|].
  intros t Hin Hs. rewrite Hi, Hch, Href, Hcl. exact (Hinv t (Hsub t Hin Hs) Hs).
Qed.

Lemma mount_invariant : debounce_invariant mount.
Proof.
  split; [reflexivity|]. intros t Hin. apply elem_of_nil in Hin. destruct Hin.
Qed.

Lemma handleSelect_invariant item s :
  debounce_invariant s -> debounce_invariant (handleSelect c item s).
Proof.
  intros Hinv. unfold handleSelect. destruct (selection c item); [|exact Hinv].
  apply setInputValue_invariant.
  eapply invariant_frame; [exact Hinv | reflexivity ..| simpl; lia
                          | reflexivity | reflexivity | auto].
Qed.

Lemma handleKeyDown_invariant key s :
  debounce_invariant s -> debounce_invariant (handleKeyDown c key s).
Proof.
  intros Hinv. unfold handleKeyDown.
  destruct (negb (showSuggestions s) || Nat.eqb (length (suggestions s)) 0)%bool;
    [exact Hinv|].
  destruct key; try exact Hinv;
    try (eapply invariant_frame; [exact Hinv | reflexivity ..| simpl; lia
                                 | reflexivity | reflexivity | auto]).
  destruct (_ && _)%bool; [|exact Hinv].
  destruct (suggestions s !! _); [|exact Hinv].
  apply handleSelect_invariant, Hinv.
Qed.

Lemma fire_invariant id s :
  debounce_invariant s -> debounce_invariant (fire c id s).
Proof.
  intros Hinv. unfold fire.
  destruct (List.find _ (timers s)) as [t|]; [|exact Hinv].
  destruct (Nat.leb (due t) (clock s)); [|exact Hinv].
  destruct (task t); simpl;
    (eapply invariant_frame; [exact Hinv | reflexivity ..| simpl; lia
                             | reflexivity | reflexivity |]);
    simpl; intros t' [_ Hin]%list_elem_of_filter _; exact Hin.
Qed.

Lemma step_invariant e s :
  debounce_invariant s -> debounce_invariant (step c e s).
Proof.
  intros Hinv. destruct e as [value|key| | |index|ms|id|r]; simpl.
  - apply setInputValue_invariant, Hinv.
  - apply handleKeyDown_invariant, Hinv.
  - unfold handleFocus. destruct (_ && _)%bool; [|exact Hinv].
    eapply invariant_frame; [exact Hinv | reflexivity ..| simpl; lia
                            | reflexivity | reflexivity | auto].
  - unfold handleBlur.
    eapply invariant_frame; [exact Hinv | reflexivity ..| simpl; lia
                            | reflexivity | reflexivity |].
    simpl. intros t [Hin|Hin]%elem_of_app Hs; [exact Hin|].
    apply list_elem_of_singleton in Hin. subst t. discriminate.
  - destruct (_ && _)%bool; [|exact Hinv].
    destruct (suggestions s !! index); [|exact Hinv].
    apply handleSelect_invariant, Hinv.
  - eapply invariant_frame; [exact Hinv | reflexivity ..| simpl; lia
                            | reflexivity | reflexivity | auto].
  - apply fire_invariant, Hinv.
  - destruct (awaiting s); [exact Hinv|].
    destruct r; simpl;
      (eapply invariant_frame; [exact Hinv | reflexivity ..| simpl; lia
                               | reflexivity | reflexivity | auto]).
Qed.

Lemma run_events_invariant events :
  debounce_invariant (run_events c events mount).
Proof.
  induction events as [|e events IH] using rev_ind.
  - apply mount_invariant.
  - rewrite run_events_snoc. apply step_invariant, IH.
Qed.

(** *** What a step does to the clock, the input and the searches made *)

Lemma handleSelect_fields item s :
  clock (handleSelect c item s) = clock s
  /\ issued (handleSelect c item s) = issued s
  /\ ((inputValue (handleSelect c item s) = inputValue s
       /\ changed_at (handleSelect c item s) = changed_at s)
      \/ changed_at (handleSelect c item s) = clock s).
Proof.
  unfold handleSelect. destruct (selection c item) as [arg|]; [|auto].
  match goal with
  | |- context [setInputValue ?v ?s'] =>
      destruct (setInputValue_fields v s') as (Hc & His & Hin)
  end.
  rewrite Hc, His. simpl in *. auto.
Qed.

Lemma handleKeyDown_fields key s :
  clock (handleKeyDown c key s) = clock s
  /\ issued (handleKeyDown c key s) = issued s
  /\ ((inputValue (handleKeyDown c key s) = inputValue s
       /\ changed_at (handleKeyDown c key s) = changed_at s)
      \/ changed_at (handleKeyDown c key s) = clock s).
Proof.
  unfold handleKeyDown.
  destruct (negb (showSuggestions s) || Nat.eqb (length (suggestions s)) 0)%bool;
    [auto|].
  destruct key; simpl; auto.
  destruct (_ && _)%bool; [|auto].
  destruct (suggestions s !! _); [|auto].
  apply handleSelect_fields.
Qed.

Lemma fire_fields id s :
  clock (fire c id s) = clock s
  /\ inputValue (fire c id s) = inputValue s
  /\ changed_at (fire c id s) = changed_at s.
Proof.
  unfold fire. destruct (List.find _ (timers s)) as [t|]; [|auto].
  destruct (Nat.leb (due t) (clock s)); [|auto].
  destruct (task t); simpl; auto.
Qed.

(** Time does not go back, and the input either stays as it is or has just
    changed. *)
Lemma step_input e s :
  clock s <= clock (step c e s)
  /\ ((inputValue (step c e s) = inputValue s
       /\ changed_at (step c e s) = changed_at s)
      \/ (changed_at (step c e s) = clock s /\ clock (step c e s) = clock s)).
Proof.
  destruct e as [value|key| | |index|ms|id|r]; simpl.
  - destruct (setInputValue_fields value s) as (Hc & _ & [H|H]); rewrite Hc; auto.
  - destruct (handleKeyDown_fields key s) as (Hc & _ & [H|H]); rewrite Hc; auto.
  - unfold handleFocus. destruct (_ && _)%bool; simpl; auto.
  - simpl; auto.
  - destruct (_ && _)%bool; [|auto].
    destruct (suggestions s !! index) as [item|]; [|auto].
    destruct (handleSelect_fields item s) as (Hc & _ & [H|H]); rewrite Hc; auto.
  - split; [lia | auto].
  - destruct (fire_fields id s) as (Hc & Hi & Hch). rewrite Hc. auto.
  - destruct (awaiting s); [auto|]. destruct r; simpl; auto.
Qed.

(** Only a timeout of the effect that runs makes a search: it searches for
    the current input, which is two characters or more once trimmed and has
    been set at least 300 ms before. *)
Lemma step_issued e s :
  debounce_invariant s ->
  issued (step c e s) = issued s
  \/ (issued (step c e s) = issued s ++ [(clock s, search c (inputValue s))]
      /\ changed_at s + 300 <= clock s
      /\ 2 <= String.length (trim (inputValue s))).
Proof.
  intros [_ Hinv]. destruct e as [value|key| | |index|ms|id|r]; simpl.
  - left. apply setInputValue_fields.
  - left. apply handleKeyDown_fields.
  - left. unfold handleFocus. destruct (_ && _)%bool; reflexivity.
  - left. reflexivity.
  - left. destruct (_ && _)%bool; [|reflexivity].
    destruct (suggestions s !! index); [|reflexivity].
    apply handleSelect_fields.
  - left. reflexivity.
  - unfold fire.
    destruct (List.find _ (timers s)) as [t|] eqn:Hfind; [|left; reflexivity].
    destruct (Nat.leb_spec (due t) (clock s)) as [Hdue|]; [|left; reflexivity].
    apply find_some in Hfind as [Hin _]. apply list_elem_of_In in Hin.
    destruct (task t) as [q|] eqn:Htask; [|left; reflexivity].
    destruct (Hinv t Hin) as (Hq & Hd & Hlen & _).
    { unfold is_search. rewrite Htask. reflexivity. }
    right. rewrite Htask in Hq. injection Hq as ->.
    simpl. split; [reflexivity|]. split; [lia | exact Hlen].
  - left. destruct (awaiting s); [reflexivity|]. destruct r; reflexivity.
Qed.

Lemma run_events_clock earlier later s :
  clock (run_events c earlier s) <= clock (run_events c (earlier ++ later) s).
Proof.
  induction later as [|e later IH] using rev_ind.
  - rewrite app_nil_r. reflexivity.
  - rewrite app_assoc, run_events_snoc.
    pose proof (proj1 (step_input e (run_events c (earlier ++ later) s))). lia.
Qed.

(** Since the time [changed_at] records, the input has been what it is. *)
Lemma input_unchanged_since earlier later s :
  changed_at (run_events c (earlier ++ later) s) < clock (run_events c earlier s) ->
  inputValue (run_events c earlier s) = inputValue (run_events c (earlier ++ later) s).
Proof.
  induction later as [|e later IH] using rev_ind.
  - rewrite app_nil_r. reflexivity.
  - rewrite app_assoc, run_events_snoc. intros Hlt.
    pose proof (run_events_clock earlier later s) as Hmono.
    destruct (step_input e (run_events c (earlier ++ later) s)) as (_ & [[Hi Hch]|[Hch _]]).
    + rewrite Hi. apply IH. rewrite <- Hch. exact Hlt.
    + rewrite Hch in Hlt. lia.
Qed.

(** C5.  In both components, at any point of any run: a step only adds to
    the searches made; a search is made only for the current input, which
    then has two characters or more once trimmed, has had its value for 300 ms
    or more and has not changed since; and a change of the input to fewer than
    two characters (trimmed) makes no search, leaves no timeout of the effect
    behind, and clears and hides the suggestions. *)
Theorem search_is_debounced events e :
  let s := run_events c events mount in
  issued (step c e s) = issued s ++ newly_issued c e s
  /\ (forall t call,
     (t, call) ∈ newly_issued c e s ->
     call = search c (inputValue s)
     /\ t = clock s
     /\ 2 <= String.length (trim (inputValue s))
     /\ changed_at s + 300 <= clock s
     /\ forall earlier later,
          events = earlier ++ later ->
          changed_at s < clock (run_events c earlier mount) ->
          inputValue (run_events c earlier mount) = inputValue s)
  /\ (forall value,
        e = Change value ->
        value <> inputValue s ->
        String.length (trim value) < 2 ->
        newly_issued c e s = []
        /\ pending_searches (step c e s) = []
        /\ suggestions (step c e s) = []
        /\ showSuggestions (step c e s) = false).
Proof.
  intros s. pose proof (run_events_invariant events) as Hinv. fold s in Hinv.
  split; [|split].
  - unfold newly_issued.
    destruct (step_issued e s Hinv) as [Hsame|(Hnew & _)].
    + rewrite Hsame, drop_all, app_nil_r. reflexivity.
    + rewrite Hnew, drop_app_length. reflexivity.
  - intros t call Hin. unfold newly_issued in Hin.
    destruct (step_issued e s Hinv) as [Hsame|(Hnew & Hwait & Hlen)].
    + rewrite Hsame, drop_all in Hin. apply elem_of_nil in Hin. destruct Hin.
    + rewrite Hnew, drop_app_length in Hin.
      apply list_elem_of_singleton in Hin. injection Hin as -> ->.
      repeat split; try assumption.
      intros earlier later -> Hlt. unfold s. apply input_unchanged_since. exact Hlt.
  - intros value -> Hne Hshort.
    assert (Hneq : String.eqb value (inputValue s) = false)
      by (apply String.eqb_neq; exact Hne).
    unfold newly_issued. simpl. unfold setInputValue. rewrite Hneq.
    set (s1 := run_cleanup (with_inputValue value s)).
    assert (Hi1 : inputValue s1 = value)
      by (unfold s1; rewrite (proj1 (run_cleanup_fields _)); reflexivity).
    destruct (effect_short s1) as (Hsug & Hshow & Htimers); [rewrite Hi1; exact Hshort|].
    split; [|split; [|split; assumption]].
    + rewrite (proj2 (proj2 (proj2 (effect_fields s1)))).
      unfold s1. rewrite (proj2 (proj2 (proj2 (run_cleanup_fields _)))). simpl.
      apply drop_all.
    + assert (Hinv1 : debounce_invariant (effect s1)).
      { pose proof (setInputValue_invariant value s Hinv) as H.
        unfold setInputValue in H. rewrite Hneq in H. exact H. }
      unfold pending_searches.
      destruct (List.filter is_search (timers (effect s1))) as [|t rest] eqn:Hf;
        [reflexivity|exfalso].
      assert (Hin : In t (List.filter is_search (timers (effect s1))))
        by (rewrite Hf; left; reflexivity).
      apply filter_In in Hin as [Hin Hs]. apply list_elem_of_In in Hin.
      destruct Hinv1 as [_ Hinv1].
      destruct (Hinv1 t Hin Hs) as (_ & _ & Hlen & _).
      rewrite (proj1 (effect_fields s1)), Hi1 in Hlen. lia.
Qed.

End AutocompleteProperties.

(** Typing "ab" and waiting 300 ms: the timeout then searches for "ab";
    typing "a" after "ab" instead clears the list and the timeout. *)
Lemma search_is_debounced_witness :
  let events := [Change "ab"; Advance 300] in
  let s := run_events SongAutocomplete events mount in
  newly_issued SongAutocomplete (Fire 1) s
  = [(300, call_searchTracks "ab" None (Some 8%float))]
  /\ inputValue s = "ab"
  /\ changed_at s + 300 <= clock s
  /\ pending_searches
       (step SongAutocomplete (Change "a") (run_events SongAutocomplete [Change "ab"] mount))
     = [].
Proof.
  intros events s.
  destruct (search_is_debounced SongAutocomplete events (Fire 1)) as (_ & Hsearch & _).
  destruct (Hsearch 300 (call_searchTracks "ab" None (Some 8%float)))
    as (_ & _ & _ & Hwait & _).
  { vm_compute. apply list_elem_of_here. }
  destruct (search_is_debounced SongAutocomplete [Change "ab"] (Change "a"))
    as (_ & _ & Hshort).
  destruct (Hshort "a" eq_refl) as (_ & Hnone & _).
  { vm_compute. discriminate. }
  { vm_compute. lia. }
  split; [reflexivity|]. split; [reflexivity|]. split; [exact Hwait | exact Hnone].
Defined.

(** * Further properties of the client *)

(** A callback that reads without changing the world maps like a function. *)
Lemma map_async_pure {A B} (f : A -> Async B) (g : A -> B) (P : A -> Prop) items :
  (forall x w, P x -> f x w = (Resolved (g x), w)) ->
  forall w, Forall P items -> map_async f items w = (Resolved (map g items), w).
Proof.
  intros Hf. induction items as [|x rest IH]; intros w Hall; [reflexivity|].
  inversion Hall as [|? ? Hx Hrest]; subst. simpl.
  unfold bind. rewrite (Hf x w Hx), (IH w Hrest). reflexivity.
Qed.

Lemma search_result_track_readable track w :
  readable track = true ->
  search_result_track track w = (Resolved (found_track track), w).
Proof.
  intros Hr. unfold search_result_track, found_track, js_or.
  unfold bind at 1. rewrite (get_prop_readable _ "spotify_id" Hr). simpl.
  unfold bind at 1.
  destruct (truthy (prop track "spotify_id")); simpl;
    rewrite ?(get_prop_readable _ "id" Hr); simpl;
    unfold bind at 1; rewrite (get_prop_readable _ "song_name" Hr); simpl;
    unfold bind at 1;
    (destruct (truthy (prop track "song_name")); simpl;
     rewrite ?(get_prop_readable _ "name" Hr); simpl;
     unfold bind; rewrite !(get_prop_readable _ _ Hr); reflexivity).
Qed.

Lemma search_result_artist_readable artist w :
  readable artist = true ->
  search_result_artist artist w = (Resolved (found_artist artist), w).
Proof.
  intros Hr. unfold search_result_artist, found_artist, js_or.
  unfold bind at 1. rewrite (get_prop_readable _ "spotify_id" Hr). simpl.
  unfold bind at 1.
  destruct (truthy (prop artist "spotify_id")); simpl;
    rewrite ?(get_prop_readable _ "id" Hr); simpl;
    unfold bind; rewrite !(get_prop_readable _ _ Hr); reflexivity.
Qed.

Lemma map_search_result_track tracks w :
  Forall (fun track => readable track = true) tracks ->
  map_async search_result_track tracks w = (Resolved (map found_track tracks), w).
Proof.
  apply (map_async_pure search_result_track found_track).
  intros track w' Hr. apply search_result_track_readable, Hr.
Qed.

Lemma map_search_result_artist artists w :
  Forall (fun artist => readable artist = true) artists ->
  map_async search_result_artist artists w = (Resolved (map found_artist artists), w).
Proof.
  apply (map_async_pure search_result_artist found_artist).
  intros artist w' Hr. apply search_result_artist_readable, Hr.
Qed.

(** X2.  On an ok response whose [tracks] is an array, [searchTracks]
    resolves to one entry per track, in order; every entry has
    [similarity_score] 0 whatever the backend sent, its [id] is the track's
    [spotify_id] or else its [id], its [name] the track's [song_name] or else
    its [name], and the other fields are the track's. *)
Theorem searchTracks_entries this songName artist limit w data tracks :
  answers w (request_of this (call_searchTracks songName artist limit)) data ->
  get_prop data "tracks" = Resolved (JArr tracks) ->
  Forall (fun track => readable track = true) tracks ->
  exists entries,
    fst (searchTracks this songName artist limit w) = Resolved (JArr entries)
    /\ length entries = length tracks
    /\ forall i track entry,
         tracks !! i = Some track -> entries !! i = Some entry ->
         get_prop entry "similarity_score" = Resolved (JNum PrimFloat.zero)
         /\ get_prop entry "id"
            = Resolved (if truthy (prop track "spotify_id")
                        then prop track "spotify_id" else prop track "id")
         /\ get_prop entry "name"
            = Resolved (if truthy (prop track "song_name")
                        then prop track "song_name" else prop track "name")
         /\ forall k,
              k ∈ ["artist"; "album"; "preview_url"; "external_url"; "duration_ms";
                   "popularity"; "album_image"] ->
              get_prop entry k = get_prop track k.
Proof.
  intros Hnet Htracks Hall. simpl in Hnet. unfold a_GET in Hnet.
  exists (map found_track tracks).
  assert (Hdata : readable data = true)
    by (destruct data; simpl in *; try discriminate; reflexivity).
  split; [|split].
  - unfold searchTracks. destruct Hnet as (response & Hnet & Hok & Hjson).
    rewrite (fetch_resolved _ _ _ _ _ Hnet), Hok. simpl. unfold try_catch, bind at 1. rewrite Hjson. simpl.
    unfold bind at 1. rewrite Htracks. simpl. unfold bind.
    rewrite (map_search_result_track tracks _ Hall). reflexivity.
  - apply length_map.
  - intros i track entry Ht He.
    rewrite list_lookup_fmap, Ht in He. injection He as <-.
    assert (Hr : readable track = true)
      by exact (proj1 (Forall_lookup _ _) Hall i track Ht).
    repeat split.
    intros k Hk. rewrite (get_prop_readable _ _ Hr).
    repeat (apply elem_of_cons in Hk as [->|Hk]; [reflexivity|]).
    apply elem_of_nil in Hk. destruct Hk.
Qed.

Lemma searchTracks_entries_witness :
  let found := JObj [("id", JStr "3n3Ppam7vgaVa1iaRUc9Lp");
                     ("name", JStr "Mr. Brightside");
                     ("similarity_score", JNum 0.5%float)] in
  let w := world_answering
             (Resolved {| ok := true;
                          json := Resolved (JObj [("tracks", JArr [found])]) |}) in
  exists entries,
    fst (searchTracks spotifyAPI "brightside" None (Some 8%float) w)
    = Resolved (JArr entries)
    /\ length entries = 1
    /\ forall entry, entries !! 0 = Some entry ->
        get_prop entry "similarity_score" = Resolved (JNum PrimFloat.zero)
        /\ get_prop entry "name" = Resolved (JStr "Mr. Brightside").
Proof.
  intros found w.
  destruct (searchTracks_entries spotifyAPI "brightside" None (Some 8%float) w
              (JObj [("tracks", JArr [found])]) [found])
    as (entries & Hres & Hlen & Hentries).
  - eexists. repeat split; reflexivity.
  - reflexivity.
  - repeat constructor.
  - exists entries. split; [exact Hres|]. split; [exact Hlen|].
    intros entry He.
    destruct (Hentries 0 found entry eq_refl He) as (Hscore & _ & Hname & _).
    split; [exact Hscore | exact Hname].
Defined.

(** X4.  On an ok response whose [artists] is an array, [searchArtists]
    resolves to one entry per artist, in order; an entry's [genres] and
    [popularity] are the artist's when truthy and otherwise an empty array
    and 0, so they are never [undefined] or [null]; its [id] is the
    artist's [spotify_id] or else its [id]; [name], [image_url] and
    [external_url] are the artist's. *)
Theorem searchArtists_entries this artistName limit w data artists :
  answers w (request_of this (call_searchArtists artistName limit)) data ->
  get_prop data "artists" = Resolved (JArr artists) ->
  Forall (fun artist => readable artist = true) artists ->
  exists entries,
    fst (searchArtists this artistName limit w) = Resolved (JArr entries)
    /\ length entries = length artists
    /\ forall i artist entry,
         artists !! i = Some artist -> entries !! i = Some entry ->
         get_prop entry "genres"
         = Resolved (if truthy (prop artist "genres")
                     then prop artist "genres" else JArr [])
         /\ get_prop entry "popularity"
            = Resolved (if truthy (prop artist "popularity")
                        then prop artist "popularity" else JNum PrimFloat.zero)
         /\ readable (prop entry "genres") = true
         /\ readable (prop entry "popularity") = true
         /\ get_prop entry "id"
            = Resolved (if truthy (prop artist "spotify_id")
                        then prop artist "spotify_id" else prop artist "id")
         /\ forall k, k ∈ ["name"; "image_url"; "external_url"] ->
                      get_prop entry k = get_prop artist k.
Proof.
  intros Hnet Hartists Hall. simpl in Hnet. unfold a_GET in Hnet.
  exists (map found_artist artists).
  assert (Hdata : readable data = true)
    by (destruct data; simpl in *; try discriminate; reflexivity).
  split; [|split].
  - unfold searchArtists. destruct Hnet as (response & Hnet & Hok & Hjson).
    rewrite (fetch_resolved _ _ _ _ _ Hnet), Hok. simpl.
    unfold try_catch, bind at 1. rewrite Hjson. simpl.
    unfold bind at 1. rewrite Hartists. simpl. unfold bind.
    rewrite (map_search_result_artist artists _ Hall). reflexivity.
  - apply length_map.
  - intros i artist entry Ha He.
    rewrite list_lookup_fmap, Ha in He. injection He as <-.
    assert (Hr : readable artist = true)
      by exact (proj1 (Forall_lookup _ _) Hall i artist Ha).
    split; [reflexivity|]. split; [reflexivity|].
    split; [|split; [|split; [reflexivity|]]].
    + unfold prop at 1. simpl. unfold js_or.
      destruct (truthy (prop artist "genres")) eqn:Ht; [|reflexivity].
      destruct (prop artist "genres"); simpl in *; try discriminate; reflexivity.
    + unfold prop at 1. simpl. unfold js_or.
      destruct (truthy (prop artist "popularity")) eqn:Ht; [|reflexivity].
      destruct (prop artist "popularity"); simpl in *; try discriminate; reflexivity.
    + intros k Hk. rewrite (get_prop_readable _ _ Hr).
      repeat (apply elem_of_cons in Hk as [->|Hk]; [reflexivity|]).
      apply elem_of_nil in Hk. destruct Hk.
Qed.

Lemma searchArtists_entries_witness :
  let found := JObj [("id", JStr "1dfeR4HaWDbWqFHLkxsg1d"); ("name", JStr "Queen")] in
  let w := world_answering
             (Resolved {| ok := true;
                          json := Resolved (JObj [("artists", JArr [found])]) |}) in
  exists entries,
    fst (searchArtists spotifyAPI "queen" (Some 8%float) w) = Resolved (JArr entries)
    /\ forall entry, entries !! 0 = Some entry ->
        get_prop entry "genres" = Resolved (JArr [])
        /\ get_prop entry "popularity" = Resolved (JNum PrimFloat.zero).
Proof.
  intros found w.
  destruct (searchArtists_entries spotifyAPI "queen" (Some 8%float) w
              (JObj [("artists", JArr [found])]) [found])
    as (entries & Hres & _ & Hentries).
  - eexists. repeat split; reflexivity.
  - reflexivity.
  - repeat constructor.
  - exists entries. split; [exact Hres|]. intros entry He.
    destruct (Hentries 0 found entry eq_refl He) as (Hg & Hp & _).
    split; [exact Hg | exact Hp].
Defined.

(** X3.  On an ok response whose body has no [tracks] (or a [null], empty
    string, 0 or false one), [searchTracks] resolves to an empty array; the
    same for [searchArtists] and [artists]. *)
Theorem search_without_results this w data :
  readable data = true ->
  (forall songName artist limit,
     answers w (request_of this (call_searchTracks songName artist limit)) data ->
     truthy (prop data "tracks") = false ->
     fst (searchTracks this songName artist limit w) = Resolved (JArr []))
  /\ (forall artistName limit,
        answers w (request_of this (call_searchArtists artistName limit)) data ->
        truthy (prop data "artists") = false ->
        fst (searchArtists this artistName limit w) = Resolved (JArr [])).
Proof.
  intros Hdata. split.
  - intros songName artist limit (response & Hnet & Hok & Hjson) Hnone.
    simpl in Hnet. unfold a_GET in Hnet. unfold searchTracks.
    rewrite (fetch_resolved _ _ _ _ _ Hnet), Hok. simpl.
    unfold try_catch, bind at 1. rewrite Hjson. simpl.
    unfold bind at 1. rewrite (get_prop_readable _ _ Hdata). simpl.
    unfold js_or. rewrite Hnone. reflexivity.
  - intros artistName limit (response & Hnet & Hok & Hjson) Hnone.
    simpl in Hnet. unfold a_GET in Hnet. unfold searchArtists.
    rewrite (fetch_resolved _ _ _ _ _ Hnet), Hok. simpl.
    unfold try_catch, bind at 1. rewrite Hjson. simpl.
    unfold bind at 1. rewrite (get_prop_readable _ _ Hdata). simpl.
    unfold js_or. rewrite Hnone. reflexivity.
Qed.

Lemma search_without_results_witness :
  let w := world_answering (Resolved {| ok := true; json := Resolved (JObj []) |}) in
  fst (searchTracks spotifyAPI "zzzz" None None w) = Resolved (JArr [])
  /\ fst (searchArtists spotifyAPI "zzzz" None w) = Resolved (JArr []).
Proof.
  intros w.
  destruct (search_without_results spotifyAPI w (JObj []) eq_refl) as [Htracks Hartists].
  split.
  - apply Htracks; [eexists; repeat split; reflexivity | reflexivity].
  - apply Hartists; [eexists; repeat split; reflexivity | reflexivity].
Defined.

Lemma Array_map_resolves_to_array v (f : JSValue -> Async JSValue) w result :
  fst (Array_map v f w) = Resolved result -> exists entries, result = JArr entries.
Proof.
  destruct v; simpl; try discriminate.
  unfold bind. destruct (map_async f items w) as [[ys|e] w']; simpl; [|discriminate].
  intros [= <-]. eauto.
Qed.

Lemma searchTracks_resolves_to_array this songName artist limit w :
  exists entries,
    fst (searchTracks this songName artist limit w) = Resolved (JArr entries).
Proof.
  unfold searchTracks, try_catch.
  match goal with
  | |- context [bind ?m ?k w] => destruct (bind m k w) as [[v|e] w'] eqn:Hrun
  end; simpl; [|eauto].
  unfold bind at 1, fetch in Hrun.
  destruct (network w _ _) as [response|e]; simpl in Hrun; [|discriminate].
  destruct (ok response); simpl in Hrun; [|discriminate].
  unfold bind at 1 in Hrun.
  destruct (json response) as [data|e]; simpl in Hrun; [|discriminate].
  unfold bind at 1 in Hrun.
  destruct (get_prop data "tracks") as [tracks|e]; simpl in Hrun; [|discriminate].
  destruct (Array_map_resolves_to_array _ _ _ v (f_equal fst Hrun)) as [entries ->].
  eauto.
Qed.

Lemma searchArtists_resolves_to_array this artistName limit w :
  exists entries,
    fst (searchArtists this artistName limit w) = Resolved (JArr entries).
Proof.
  unfold searchArtists, try_catch.
  match goal with
  | |- context [bind ?m ?k w] => destruct (bind m k w) as [[v|e] w'] eqn:Hrun
  end; simpl; [|eauto].
  unfold bind at 1, fetch in Hrun.
  destruct (network w _ _) as [response|e]; simpl in Hrun; [|discriminate].
  destruct (ok response); simpl in Hrun; [|discriminate].
  unfold bind at 1 in Hrun.
  destruct (json response) as [data|e]; simpl in Hrun; [|discriminate].
  unfold bind at 1 in Hrun.
  destruct (get_prop data "artists") as [artists|e]; simpl in Hrun; [|discriminate].
  destruct (Array_map_resolves_to_array _ _ _ v (f_equal fst Hrun)) as [entries ->].
  eauto.
Qed.

(** X1.  [getEmotions], [searchTracks] and [searchArtists] never reject,
    whatever the network and the body of the response do; the two searches
    always resolve to an array. *)
Theorem fallback_methods_never_reject this w :
  (exists emotions, fst (getEmotions this w) = Resolved emotions)
  /\ (forall songName artist limit,
        exists entries,
          fst (searchTracks this songName artist limit w) = Resolved (JArr entries))
  /\ (forall artistName limit,
        exists entries,
          fst (searchArtists this artistName limit w) = Resolved (JArr entries)).
Proof.
  split; [|split].
  - unfold getEmotions, try_catch.
    match goal with |- context [bind ?m ?k w] => destruct (bind m k w) as [[v|e] w'] end;
      simpl; eauto.
  - intros. apply searchTracks_resolves_to_array.
  - intros. apply searchArtists_resolves_to_array.
Qed.

Section MoreClientProperties.

Variable toString36 : Sample -> string.
Variable ToNumber_other : JSValue -> float.

Lemma short_lengths_positive :
  forallb (fun n => gt_zero ToNumber_other (JNum (number_of_nat n))) (seq 1 50) = true.
Proof. vm_compute. reflexivity. Qed.

(** X5.  On an ok response, [searchTrack] resolves to [null] when the body
    has no [tracks] or an empty array of them, and to the first track when
    the array has between 1 and 50 entries. *)
Theorem searchTrack_first_or_null this songName artist w data :
  answers w (request_of this (call_searchTrack songName artist)) data ->
  readable data = true ->
  (truthy (prop data "tracks") = false \/ prop data "tracks" = JArr [] ->
   fst (searchTrack ToNumber_other this songName artist w) = Resolved JNull)
  /\ (forall first rest,
        prop data "tracks" = JArr (first :: rest) ->
        length rest < 50 ->
        fst (searchTrack ToNumber_other this songName artist w) = Resolved first).
Proof.
  intros (response & Hnet & Hok & Hjson) Hdata.
  simpl in Hnet. unfold a_GET in Hnet.
  assert (Hrun : forall (k : JSValue -> Async JSValue),
            fst (try_catch
                   (do response0 <- fetch {| url := baseUrl this ++ "/spotify/search";
                                             query := [("song_name", PStr songName);
                                                       ("limit", PStr "1")]
                                                      ++ append_artist artist;
                                             method := GET; headers := [];
                                             body := None |};
                    if negb (ok response0)
                    then throw (new_Error (JStr "Failed to search track"))
                    else do data0 <- await (json response0);
                         do tracks <- await (get_prop data0 "tracks");
                         k tracks)
                   (fun error => do _ <- console_error "Search track error:" error;
                                 throw error) w)
            = fst (try_catch (k (prop data "tracks"))
                     (fun error => do _ <- console_error "Search track error:" error;
                                   throw error)
                     (sent (request_of this (call_searchTrack songName artist)) w))).
  { intros k. rewrite (fetch_resolved _ _ _ _ _ Hnet), Hok. simpl.
    unfold try_catch, bind at 1. rewrite Hjson. simpl.
    unfold bind at 1. rewrite (get_prop_readable _ _ Hdata). reflexivity. }
  unfold searchTrack. rewrite Hrun. split.
  - intros [Hnone|Hempty].
    + rewrite Hnone. reflexivity.
    + rewrite Hempty. reflexivity.
  - intros first rest Htracks Hlen. rewrite Htracks. simpl.
    unfold try_catch, bind. simpl.
    pose proof short_lengths_positive as Hpos.
    rewrite forallb_forall in Hpos.
    rewrite (Hpos (S (length rest))); [reflexivity|].
    apply in_seq. lia.
Qed.

(** X6.  On a response that is not ok, [generatePlaylist] rejects with an
    [Error] whose message is the [detail] of the JSON body when that is
    truthy and ['Failed to generate playlist'] otherwise; when the body is
    not JSON it rejects with the error of [response.json()] instead, and when
    the body is [null] with a TypeError. *)
Theorem generatePlaylist_error_message this request w error_body :
  refuses w (request_of this (call_generatePlaylist request)) error_body ->
  match error_body with
  | Rejected e => fst (generatePlaylist toString36 this request w) = Rejected e
  | Resolved error =>
      if readable error then
        fst (generatePlaylist toString36 this request w)
        = Rejected (new_Error (if truthy (prop error "detail") then prop error "detail"
                               else JStr "Failed to generate playlist"))
      else
        exists what,
          fst (generatePlaylist toString36 this request w) = Rejected (new_TypeError what)
  end.
Proof.
  intros (response & Hnet & Hok & Hjson). simpl in Hnet.
  unfold generatePlaylist. rewrite (fetch_resolved _ _ _ _ _ Hnet), Hok. simpl.
  unfold try_catch, bind at 1. rewrite Hjson.
  destruct error_body as [error|e]; simpl; [|reflexivity].
  destruct (readable error) eqn:Hr.
  - unfold bind at 1. rewrite (get_prop_readable _ _ Hr). reflexivity.
  - destruct error; try discriminate; simpl; eexists; reflexivity.
Qed.

Lemma playlist_track_unreadable song w :
  readable song = false ->
  exists what, playlist_track toString36 song w = (Rejected (new_TypeError what), w).
Proof.
  intros Hr. destruct song; try discriminate; eexists; reflexivity.
Qed.

Lemma map_playlist_track_unreadable songs : forall w,
  Exists (fun song => readable song = false) songs ->
  exists what w',
    map_async (playlist_track toString36) songs w = (Rejected (new_TypeError what), w').
Proof.
  induction songs as [|song rest IH]; intros w Hex; [inversion Hex|].
  simpl. unfold bind at 1.
  destruct (readable song) eqn:Hr.
  - destruct (playlist_track_readable toString36 song w Hr) as (id & w1 & Hrun & _).
    rewrite Hrun.
    assert (Hrest : Exists (fun song => readable song = false) rest).
    { inversion Hex as [? ? Hhead|? ? Htail]; subst; [congruence | exact Htail]. }
    destruct (IH w1 Hrest) as (what & w2 & Hrun2).
    unfold bind at 1. rewrite Hrun2. eauto.
  - destruct (playlist_track_unreadable song w Hr) as (what & Hrun).
    rewrite Hrun. eauto.
Qed.

(** X8.  An ok response is no guarantee: when the body's [playlist] is
    not an array (absent, say), or is an array with a [null] in it,
    [generatePlaylist] rejects with a TypeError and returns no part of the
    playlist. *)
Theorem generatePlaylist_needs_songs this request w data :
  answers w (request_of this (call_generatePlaylist request)) data ->
  readable data = true ->
  (forall songs, prop data "playlist" = JArr songs ->
                 Exists (fun song => readable song = false) songs) ->
  exists what,
    fst (generatePlaylist toString36 this request w) = Rejected (new_TypeError what).
Proof.
  intros (response & Hnet & Hok & Hjson) Hdata Hbad. simpl in Hnet.
  unfold generatePlaylist. rewrite (fetch_resolved _ _ _ _ _ Hnet), Hok. simpl.
  unfold try_catch, bind at 1. rewrite Hjson. simpl.
  unfold bind at 1. rewrite (get_prop_readable _ _ Hdata). simpl.
  unfold bind at 1.
  destruct (prop data "playlist") as [| | | | |songs|] eqn:Hp; simpl;
    try (eexists; reflexivity).
  destruct (map_playlist_track_unreadable songs
              (sent (request_of this (call_generatePlaylist request)) w)
              (Hbad songs eq_refl)) as (what & w' & Hrun).
  unfold bind at 1. simpl in Hrun. rewrite Hrun. simpl. eauto.
Qed.

End MoreClientProperties.

Lemma searchTrack_first_or_null_witness :
  let found := JObj [("spotify_id", JStr "3n3Ppam7vgaVa1iaRUc9Lp")] in
  fst (searchTrack (fun _ => PrimFloat.zero) spotifyAPI "brightside" None
         (world_answering
            (Resolved {| ok := true;
                         json := Resolved (JObj [("tracks", JArr [found])]) |})))
  = Resolved found
  /\ fst (searchTrack (fun _ => PrimFloat.zero) spotifyAPI "zzzz" None
            (world_answering
               (Resolved {| ok := true;
                            json := Resolved (JObj [("tracks", JArr [])]) |})))
     = Resolved JNull.
Proof.
  intros found. split.
  - refine (proj2 (searchTrack_first_or_null (fun _ => PrimFloat.zero) spotifyAPI "brightside" None _
                     (JObj [("tracks", JArr [found])]) _ eq_refl) found [] eq_refl _).
    + eexists. repeat split; reflexivity.
    + simpl. lia.
  - refine (proj1 (searchTrack_first_or_null (fun _ => PrimFloat.zero) spotifyAPI "zzzz" None _
                     (JObj [("tracks", JArr [])]) _ eq_refl) _).
    + eexists. repeat split; reflexivity.
    + right. reflexivity.
Defined.

Lemma generatePlaylist_error_message_witness :
  fst (generatePlaylist sample_digits spotifyAPI happy_request
         (world_answering
            (Resolved {| ok := false;
                         json := Resolved (JObj [("detail", JStr "num_results too large")]) |})))
  = Rejected (new_Error (JStr "num_results too large")).
Proof.
  apply (generatePlaylist_error_message sample_digits spotifyAPI happy_request _
           (Resolved (JObj [("detail", JStr "num_results too large")]))).
  eexists. repeat split; reflexivity.
Defined.

Lemma generatePlaylist_needs_songs_witness :
  exists what,
    fst (generatePlaylist sample_digits spotifyAPI happy_request
           (world_answering (Resolved {| ok := true; json := Resolved (JObj []) |})))
    = Rejected (new_TypeError what).
Proof.
  apply (generatePlaylist_needs_songs sample_digits spotifyAPI happy_request _ (JObj [])).
  - eexists. repeat split; reflexivity.
  - reflexivity.
  - intros songs Hsongs. discriminate Hsongs.
Defined.

(** ** What is written to the console *)

Lemma silent_ret {A} (a : A) : silent (ret a).
Proof. intros w; reflexivity. Qed.

Lemma silent_throw {A} (e : Thrown) : silent (@throw A e).
Proof. intros w; reflexivity. Qed.

Lemma silent_await {A} (r : Settled A) : silent (await r).
Proof. destruct r; intros w; reflexivity. Qed.

Lemma silent_fetch r : silent (fetch r).
Proof. intros w; reflexivity. Qed.

Lemma silent_Math_random : silent Math_random.
Proof. intros w; reflexivity. Qed.

Lemma silent_bind {A B} (m : Async A) (k : A -> Async B) :
  silent m -> (forall a, silent (k a)) -> silent (bind m k).
Proof.
  intros Hm Hk w. unfold bind. specialize (Hm w).
  destruct (m w) as [[a|e] w']; simpl in *.
  - rewrite Hk. exact Hm.
  - exact Hm.
Qed.

Lemma silent_map_async {A B} (f : A -> Async B) (items : list A) :
  (forall a, silent (f a)) -> silent (map_async f items).
Proof.
  intros Hf. induction items as [|x rest IH]; simpl.
  - apply silent_ret.
  - apply silent_bind; [apply Hf|]. intros y.
    apply silent_bind; [exact IH|]. intros ys. apply silent_ret.
Qed.

Lemma silent_Array_map v (f : JSValue -> Async JSValue) :
  (forall a, silent (f a)) -> silent (Array_map v f).
Proof.
  intros Hf. destruct v; simpl; try apply silent_throw.
  apply silent_bind; [apply silent_map_async, Hf|]. intros; apply silent_ret.
Qed.

Ltac silent_step :=
  first
    [ apply silent_ret | apply silent_throw | apply silent_await
    | apply silent_fetch | apply silent_Math_random
    | apply silent_bind; [|intros ?]
    | apply silent_Array_map; intros ?
    | match goal with
      | |- silent (if ?b then _ else _) => destruct b
      end ].

(** A [catch] that logs and rethrows: the console gets the rejection, and
    nothing else. *)
Lemma logged_rethrow {A} (m : Async A) label w :
  silent m ->
  match fst (try_catch m (fun error => do _ <- console_error label error; throw error) w)
  with
  | Resolved _ =>
      console (snd (try_catch m (fun error => do _ <- console_error label error;
                                               throw error) w))
      = console w
  | Rejected e =>
      console (snd (try_catch m (fun error => do _ <- console_error label error;
                                               throw error) w))
      = console w ++ [(label, e)]
  end.
Proof.
  intros Hm. unfold try_catch. specialize (Hm w).
  destruct (m w) as [[a|e] w']; simpl in *; [exact Hm|]. rewrite Hm. reflexivity.
Qed.

(** A [catch] that logs and returns a value instead. *)
Lemma logged_fallback {A} (m : Async A) label (v : A) w :
  silent m ->
  rejected (fst (try_catch m (fun error => do _ <- console_error label error; ret v) w))
  = false
  /\ (console (snd (try_catch m (fun error => do _ <- console_error label error;
                                               ret v) w))
      = console w
      \/ exists e,
           m w = (Rejected e, snd (m w))
           /\ console (snd (try_catch m (fun error => do _ <- console_error label error;
                                                      ret v) w))
              = console w ++ [(label, e)]).
Proof.
  intros Hm. unfold try_catch. specialize (Hm w).
  destruct (m w) as [[a|e] w']; simpl in *; [auto|].
  split; [reflexivity|]. right. exists e. rewrite Hm. auto.
Qed.

Section ConsoleProperties.

Variable toString36 : Sample -> string.
Variable ToNumber_other : JSValue -> float.

Lemma silent_playlist_track song : silent (playlist_track toString36 song).
Proof. unfold playlist_track. repeat silent_step. Qed.

Lemma silent_search_result_track track : silent (search_result_track track).
Proof. unfold search_result_track. repeat silent_step. Qed.

Lemma silent_search_result_artist a : silent (search_result_artist a).
Proof. unfold search_result_artist. repeat silent_step. Qed.

(** X7.  No failure is silent.  A call writes at most one line to the
    console, under the label of its method; whenever a call rejects, that
    line holds the very error it rejects with; and whenever its request fails
    (the fetch rejects or the response is not ok) the line is written, also
    by the methods that then resolve to a fallback. *)
Theorem failures_are_logged this call w :
  (forall e,
     fst (perform toString36 ToNumber_other this call w) = Rejected e ->
     console (snd (perform toString36 ToNumber_other this call w))
     = console w ++ [(label_of call, e)])
  /\ (console (snd (perform toString36 ToNumber_other this call w)) = console w
      \/ exists e,
           console (snd (perform toString36 ToNumber_other this call w))
           = console w ++ [(label_of call, e)])
  /\ (failed (network w (length (fetched w)) (request_of this call)) = true ->
      exists e,
        console (snd (perform toString36 ToNumber_other this call w))
        = console w ++ [(label_of call, e)]).
Proof.
  assert (Hrethrow : forall (m : Async JSValue) label,
            silent m ->
            let out := try_catch m (fun error => do _ <- console_error label error;
                                                 throw error) w in
            (forall e, fst out = Rejected e -> console (snd out) = console w ++ [(label, e)])
            /\ (console (snd out) = console w
                \/ exists e, console (snd out) = console w ++ [(label, e)])).
  { intros m label Hm out. pose proof (logged_rethrow m label w Hm) as H. fold out in H.
    destruct (fst out) as [a|e]; split; try discriminate; eauto.
    intros e' [= <-]. exact H. }
  assert (Hfallback : forall (m : Async JSValue) label v,
            silent m ->
            let out := try_catch m (fun error => do _ <- console_error label error;
                                                 ret v) w in
            (forall e, fst out = Rejected e -> console (snd out) = console w ++ [(label, e)])
            /\ (console (snd out) = console w
                \/ exists e, console (snd out) = console w ++ [(label, e)])).
  { intros m label v Hm out.
    destruct (logged_fallback m label v w Hm) as [Hres Hlog]. fold out in Hres, Hlog.
    split.
    - intros e He. rewrite He in Hres. discriminate.
    - destruct Hlog as [Hlog|(e & _ & Hlog)]; eauto. }
  assert (Hgeneral :
    (forall e,
       fst (perform toString36 ToNumber_other this call w) = Rejected e ->
       console (snd (perform toString36 ToNumber_other this call w))
       = console w ++ [(label_of call, e)])
    /\ (console (snd (perform toString36 ToNumber_other this call w)) = console w
        \/ exists e,
             console (snd (perform toString36 ToNumber_other this call w))
             = console w ++ [(label_of call, e)])).
  { destruct call; simpl;
      [ unfold generatePlaylist | unfold getEmotions | unfold healthCheck
      | unfold searchTrack | unfold searchTracks | unfold searchArtists
      | unfold getTrackById ];
      first [ apply Hrethrow | apply Hfallback ];
      repeat silent_step;
      auto using silent_playlist_track, silent_search_result_track,
                 silent_search_result_artist. }
  destruct Hgeneral as [Hrej Hone]. split; [exact Hrej|]. split; [exact Hone|].
  intros Hfail.
  destruct (network w (length (fetched w)) (request_of this call))
    as [response|e0] eqn:Hnet; simpl in Hfail.
  - apply negb_true_iff in Hfail.
    destruct call; simpl in *; unfold a_GET in *;
      [ unfold generatePlaylist | unfold getEmotions | unfold healthCheck
      | unfold searchTrack | unfold searchTracks | unfold searchArtists
      | unfold getTrackById ];
      rewrite (fetch_resolved _ _ _ _ _ Hnet), Hfail; simpl;
      try (eexists; reflexivity).
    unfold try_catch, bind.
    destruct (json response) as [error|e1]; simpl; [|eexists; reflexivity].
    destruct (get_prop error "detail") as [detail|e2]; eexists; reflexivity.
  - destruct call; simpl in *; unfold a_GET in *;
      [ unfold generatePlaylist | unfold getEmotions | unfold healthCheck
      | unfold searchTrack | unfold searchTracks | unfold searchArtists
      | unfold getTrackById ];
      rewrite (fetch_rejected _ _ _ _ _ Hnet); simpl; eexists; reflexivity.
Qed.

End ConsoleProperties.

Lemma failures_are_logged_witness :
  console (snd (getEmotions spotifyAPI offline))
  = [("Failed to get emotions:", JsError "TypeError" (JStr "Failed to fetch"))]
  /\ console (snd (healthCheck spotifyAPI offline))
     = [("Health check error:", JsError "TypeError" (JStr "Failed to fetch"))].
Proof.
  split.
  - destruct (failures_are_logged sample_digits (fun _ => PrimFloat.zero)
                spotifyAPI call_getEmotions offline) as (_ & _ & Hfail).
    destruct (Hfail eq_refl) as [e He]. reflexivity.
  - destruct (failures_are_logged sample_digits (fun _ => PrimFloat.zero)
                spotifyAPI call_healthCheck offline) as (Hrej & _).
    exact (Hrej _ eq_refl).
Defined.

(** ** The draws behind generated ids *)

Section DrawProperties.

Variable toString36 : Sample -> string.

Lemma playlist_track_exact song w :
  readable song = true ->
  exists w',
    playlist_track toString36 song w
    = (Resolved (if lacks_id song
                 then mirrored song
                        (JStr ("track-"
                               ++ String.substring 2 9 (toString36 (random w (draws w)))))
                 else mirrored song (prop song "spotify_id")), w')
    /\ draws w' = (if lacks_id song then S (draws w) else draws w)
    /\ random w' = random w.
Proof.
  intros Hr. unfold playlist_track, lacks_id.
  unfold bind at 1. rewrite (get_prop_readable _ "spotify_id" Hr). simpl.
  destruct (truthy (prop song "spotify_id")); simpl.
  - exists w. unfold bind, mirrored; simpl.
    rewrite !(get_prop_readable _ _ Hr). simpl. auto.
  - eexists. unfold bind, mirrored, Math_random; simpl.
    rewrite !(get_prop_readable _ _ Hr). simpl.
    split; [reflexivity|]. split; reflexivity.
Qed.

Lemma map_playlist_track_exact songs : forall w,
  Forall (fun song => readable song = true) songs ->
  exists w',
    map_async (playlist_track toString36) songs w
    = (Resolved (tracks_from toString36 (random w) (draws w) songs), w')
    /\ draws w' = draws w + length (List.filter lacks_id songs)
    /\ random w' = random w.
Proof.
  induction songs as [|song rest IH]; intros w Hall.
  - exists w. simpl. split; [reflexivity|]. split; [lia | reflexivity].
  - inversion Hall as [|? ? Hsong Hrest]; subst.
    destruct (playlist_track_exact song w Hsong) as (w1 & Hrun & Hd1 & Hr1).
    destruct (IH w1 Hrest) as (w2 & Hrun2 & Hd2 & Hr2).
    exists w2. cbn [map_async tracks_from List.filter].
    unfold bind at 1. rewrite Hrun. unfold bind at 1. rewrite Hrun2.
    rewrite Hr1, Hd2, Hr2, Hr1, Hd1.
    destruct (lacks_id song); simpl; (split; [reflexivity|]); split;
      first [lia | reflexivity].
Qed.

Lemma tracks_from_lookup rnd songs : forall n i song track,
  songs !! i = Some song ->
  tracks_from toString36 rnd n songs !! i = Some track ->
  track = (if lacks_id song
           then mirrored song
                  (JStr ("track-"
                         ++ String.substring 2 9
                              (toString36
                                 (rnd (n + length (List.filter lacks_id (take i songs)))))))
           else mirrored song (prop song "spotify_id")).
Proof.
  induction songs as [|head rest IH]; intros n i song track Hs Ht; [discriminate|].
  destruct i as [|i].
  - simpl in Hs. injection Hs as ->. simpl in Ht |- *.
    rewrite Nat.add_0_r.
    destruct (lacks_id song); injection Ht as <-; reflexivity.
  - simpl in Hs. cbn [tracks_from] in Ht. cbn [take List.filter].
    destruct (lacks_id head); simpl in Ht |- *.
    + rewrite (IH (S n) i song track Hs Ht).
      replace (n + S (length (List.filter lacks_id (take i rest))))
        with (S n + length (List.filter lacks_id (take i rest))) by lia.
      reflexivity.
    + exact (IH n i song track Hs Ht).
Qed.

(** X9.  On a successful response, [generatePlaylist] takes exactly one
    draw of [Math.random()] for each song without a usable [spotify_id], in
    the order of the playlist and starting with the next draw: the generated
    id of such a song at position [i] is made of the draw numbered by the
    songs without id before it.  A playlist whose songs all have an id takes
    no draw. *)
Theorem generated_ids_take_successive_draws this request w response data songs :
  network w (length (fetched w)) (request_of this (call_generatePlaylist request))
  = Resolved response ->
  ok response = true ->
  json response = Resolved data ->
  get_prop data "playlist" = Resolved (JArr songs) ->
  Forall (fun song => readable song = true) songs ->
  draws (snd (generatePlaylist toString36 this request w))
  = draws w + length (List.filter lacks_id songs)
  /\ exists tracks,
       fst (generatePlaylist toString36 this request w)
       = Resolved (JObj [("playlist", JArr tracks);
                         ("emotion_features", prop data "emotion_features");
                         ("combined_embedding", prop data "combined_embedding")])
       /\ forall i song track,
            songs !! i = Some song -> tracks !! i = Some track ->
            lacks_id song = true ->
            get_prop track "id"
            = Resolved
                (JStr ("track-"
                       ++ String.substring 2 9
                            (toString36
                               (random w (draws w
                                          + length (List.filter lacks_id
                                                      (take i songs))))))).
Proof.
  intros Hnet Hok Hjson Hplaylist Hsongs. simpl in Hnet.
  assert (Hdata : readable data = true)
    by (destruct data; simpl in *; try discriminate; reflexivity).
  destruct (map_playlist_track_exact songs
              (sent (request_of this (call_generatePlaylist request)) w) Hsongs)
    as (w' & Hrun & Hdraws & Hrandom).
  assert (Hout : generatePlaylist toString36 this request w
                 = (Resolved (JObj [("playlist",
                                     JArr (tracks_from toString36 (random w) (draws w) songs));
                                    ("emotion_features", prop data "emotion_features");
                                    ("combined_embedding", prop data "combined_embedding")]),
                    w')).
  { unfold generatePlaylist. rewrite (fetch_resolved _ _ _ _ _ Hnet), Hok. simpl.
    unfold try_catch, bind at 1. rewrite Hjson. simpl.
    unfold bind at 1. rewrite Hplaylist. simpl.
    unfold bind at 1. simpl. unfold bind at 1. simpl in Hrun. rewrite Hrun. simpl.
    unfold bind. rewrite !(get_prop_readable _ _ Hdata). reflexivity. }
  rewrite Hout. simpl. split; [exact Hdraws|].
  eexists. split; [reflexivity|].
  intros i song track Hs Ht Hlacks.
  rewrite (tracks_from_lookup _ _ _ _ _ _ Hs Ht), Hlacks. reflexivity.
Qed.

End DrawProperties.

(** ** The id of a returned track *)

Lemma draw_of_lt songs i song :
  songs !! i = Some song -> lacks_id song = true ->
  draw_of songs i < length (List.filter lacks_id songs).
Proof.
  intros Hs Hl. unfold draw_of.
  rewrite <- (take_drop_middle songs i song Hs) at 2.
  rewrite List.filter_app, length_app. cbn [List.filter]. rewrite Hl. simpl. lia.
Qed.

Lemma draw_of_increases songs i j song :
  songs !! i = Some song -> lacks_id song = true -> i < j ->
  draw_of songs i < draw_of songs j.
Proof.
  intros Hs Hl Hij. unfold draw_of.
  assert (Hj : take i (take j songs) = take i songs)
    by (rewrite take_take; f_equal; lia).
  assert (Hsj : take j songs !! i = Some song)
    by (rewrite lookup_take_lt by exact Hij; exact Hs).
  rewrite <- Hj. exact (draw_of_lt (take j songs) i song Hsj Hl).
Qed.

Section GeneratedIds.

Variable toString36 : Sample -> string.

(** A successful call, in full: the playlist it resolves to and the draws it
    leaves taken. *)
Lemma generatePlaylist_exact this request w response data songs :
  network w (length (fetched w)) (request_of this (call_generatePlaylist request))
  = Resolved response ->
  ok response = true ->
  json response = Resolved data ->
  get_prop data "playlist" = Resolved (JArr songs) ->
  Forall (fun song => readable song = true) songs ->
  fst (generatePlaylist toString36 this request w)
  = Resolved (JObj [("playlist",
                     JArr (tracks_from toString36 (random w) (draws w) songs));
                    ("emotion_features", prop data "emotion_features");
                    ("combined_embedding", prop data "combined_embedding")])
  /\ draws (snd (generatePlaylist toString36 this request w))
     = draws w + length (List.filter lacks_id songs).
Proof.
  intros Hnet Hok Hjson Hplaylist Hsongs. simpl in Hnet.
  assert (Hdata : readable data = true)
    by (destruct data; simpl in *; try discriminate; reflexivity).
  destruct (map_playlist_track_exact toString36 songs
              (sent (request_of this (call_generatePlaylist request)) w) Hsongs)
    as (w' & Hrun & Hdraws & Hrandom).
  assert (Hout : generatePlaylist toString36 this request w
                 = (Resolved (JObj [("playlist",
                                     JArr (tracks_from toString36 (random w) (draws w) songs));
                                    ("emotion_features", prop data "emotion_features");
                                    ("combined_embedding", prop data "combined_embedding")]),
                    w')).
  { unfold generatePlaylist. rewrite (fetch_resolved _ _ _ _ _ Hnet), Hok. simpl.
    unfold try_catch, bind at 1. rewrite Hjson. simpl.
    unfold bind at 1. rewrite Hplaylist. simpl.
    unfold bind at 1. simpl. unfold bind at 1. simpl in Hrun. rewrite Hrun. simpl.
    unfold bind. rewrite !(get_prop_readable _ _ Hdata). reflexivity. }
  rewrite Hout. split; [reflexivity | exact Hdraws].
Qed.

(** C9.  On every successful response, the id of each returned track is the
    song's [spotify_id] when that is present and not empty (truthy), and
    otherwise it is generated for that track: the prefix [track-] followed by
    up to nine base-36 digits of a draw of [Math.random()] that the call
    takes for this song and for no other (the call takes one draw for each
    song without a usable id, in the order of the playlist, starting with the
    next draw of the stream).  In particular a non-empty string [spotify_id]
    is kept, an absent, [null] or empty one is replaced, and no returned id
    is the empty string. *)
Theorem track_id_present_or_generated this request w response data songs :
  network w (length (fetched w)) (request_of this (call_generatePlaylist request))
  = Resolved response ->
  ok response = true ->
  json response = Resolved data ->
  get_prop data "playlist" = Resolved (JArr songs) ->
  Forall (fun song => readable song = true) songs ->
  exists tracks,
    fst (generatePlaylist toString36 this request w)
    = Resolved (JObj [("playlist", JArr tracks);
                      ("emotion_features", prop data "emotion_features");
                      ("combined_embedding", prop data "combined_embedding")])
    /\ draws (snd (generatePlaylist toString36 this request w))
       = draws w + length (List.filter lacks_id songs)
    /\ (forall i song track,
          songs !! i = Some song -> tracks !! i = Some track ->
          exists id,
            get_prop track "id" = Resolved id
            /\ (if truthy (prop song "spotify_id") then id = prop song "spotify_id"
                else id = JStr ("track-"
                                ++ String.substring 2 9
                                     (toString36
                                        (random w (draws w + draw_of songs i))))
                     /\ draw_of songs i < length (List.filter lacks_id songs))
            /\ id_of toString36 song id
            /\ (forall s, get_prop song "spotify_id" = Resolved (JStr s) ->
                          s <> "" -> id = JStr s)
            /\ (get_prop song "spotify_id" = Resolved JUndefined
                \/ get_prop song "spotify_id" = Resolved JNull
                \/ get_prop song "spotify_id" = Resolved (JStr "") ->
                id = JStr ("track-"
                           ++ String.substring 2 9
                                (toString36 (random w (draws w + draw_of songs i)))))
            /\ id <> JStr "")
    /\ (forall i j song_i song_j,
          songs !! i = Some song_i -> songs !! j = Some song_j ->
          truthy (prop song_i "spotify_id") = false ->
          truthy (prop song_j "spotify_id") = false ->
          i <> j ->
          draws w + draw_of songs i <> draws w + draw_of songs j).
Proof.
  intros Hnet Hok Hjson Hplaylist Hsongs.
  destruct (generatePlaylist_exact this request w response data songs
              Hnet Hok Hjson Hplaylist Hsongs) as [Hres Hdraws].
  eexists. split; [exact Hres|]. split; [exact Hdraws|]. split.
  - intros i song track Hs Ht.
    assert (Hr : readable song = true)
      by exact (proj1 (Forall_lookup _ _) Hsongs i song Hs).
    pose proof (tracks_from_lookup toString36 _ _ _ _ _ _ Hs Ht) as Htrack.
    fold (draw_of songs i) in Htrack.
    unfold id_of. rewrite !(get_prop_readable _ _ Hr).
    unfold lacks_id in Htrack.
    destruct (truthy (prop song "spotify_id")) eqn:Htruthy; simpl in Htrack; subst track.
    + exists (prop song "spotify_id"). split; [reflexivity|]. split; [reflexivity|].
      split; [reflexivity|]. split; [|split].
      * intros s [= Hs'] _. exact Hs'.
      * intros [[= H]|[[= H]|[= H]]]; rewrite H in Htruthy; discriminate.
      * intros H. rewrite H in Htruthy. discriminate.
    + eexists. split; [reflexivity|]. split; [|split; [|split; [|split]]].
      * split; [reflexivity|]. apply (draw_of_lt songs i song Hs).
        unfold lacks_id. rewrite Htruthy. reflexivity.
      * eexists. reflexivity.
      * intros s [= Hs'] Hne. rewrite Hs' in Htruthy. simpl in Htruthy.
        apply negb_false_iff, String.eqb_eq in Htruthy. contradiction.
      * intros _. reflexivity.
      * discriminate.
  - intros i j song_i song_j Hi Hj Hli Hlj Hne.
    assert (Hlacks_i : lacks_id song_i = true) by (unfold lacks_id; rewrite Hli; reflexivity).
    assert (Hlacks_j : lacks_id song_j = true) by (unfold lacks_id; rewrite Hlj; reflexivity).
    destruct (Nat.lt_total i j) as [Hlt|[Heq|Hgt]]; [|contradiction|].
    + pose proof (draw_of_increases songs i j song_i Hi Hlacks_i Hlt). lia.
    + pose proof (draw_of_increases songs j i song_j Hj Hlacks_j Hgt). lia.
Qed.

End GeneratedIds.

(** Two songs without an id and one with: the first two get the ids made of
    the next two draws, the third keeps its own. *)
Lemma track_id_present_or_generated_witness :
  let digits := fun r : Sample =>
                  if Nat.eqb (numerator r) 0 then "0.4fzyo82mvyr" else "0.k2j9x0q7c1d" in
  let w := world_answering
             (Resolved {| ok := true;
                          json := Resolved
                            (JObj [("playlist",
                                    JArr [JObj [("song_name", JStr "Intro")];
                                          JObj [("song_name", JStr "Outro");
                                                ("spotify_id", JStr "")];
                                          JObj [("song_name", JStr "Here Comes the Sun");
                                                ("spotify_id",
                                                 JStr "6dGnYIeXmHdcikdzNNDMm2")]])]) |}) in
  exists tracks,
    fst (generatePlaylist digits spotifyAPI happy_request w)
    = Resolved (JObj [("playlist", JArr tracks);
                      ("emotion_features", JUndefined);
                      ("combined_embedding", JUndefined)])
    /\ draws (snd (generatePlaylist digits spotifyAPI happy_request w)) = 2
    /\ (forall track, tracks !! 0 = Some track ->
                      get_prop track "id" = Resolved (JStr "track-4fzyo82mv"))
    /\ (forall track, tracks !! 1 = Some track ->
                      get_prop track "id" = Resolved (JStr "track-k2j9x0q7c"))
    /\ (forall track, tracks !! 2 = Some track ->
                      get_prop track "id" = Resolved (JStr "6dGnYIeXmHdcikdzNNDMm2")).
Proof.
  intros digits w.
  destruct (track_id_present_or_generated digits spotifyAPI happy_request
              w _ _ _ eq_refl eq_refl eq_refl eq_refl
              ltac:(repeat constructor)) as (tracks & Hres & Hdraws & Hids & _).
  exists tracks. split; [exact Hres|]. split; [exact Hdraws|].
  split; [|split].
  - intros track Ht.
    destruct (Hids 0 _ track eq_refl Ht) as (id & Hget & _ & _ & _ & Hmade & _).
    rewrite Hget. f_equal. apply Hmade. left. reflexivity.
  - intros track Ht.
    destruct (Hids 1 _ track eq_refl Ht) as (id & Hget & _ & _ & _ & Hmade & _).
    rewrite Hget. f_equal. apply Hmade. right. right. reflexivity.
  - intros track Ht.
    destruct (Hids 2 _ track eq_refl Ht) as (id & Hget & _ & _ & Hkeep & _).
    rewrite Hget. f_equal. apply Hkeep; [reflexivity | discriminate].
Defined.

(** Two songs without id: the first takes draw 0, the second draw 1. *)
Lemma generated_ids_take_successive_draws_witness :
  let w := world_answering
             (Resolved {| ok := true;
                          json := Resolved
                            (JObj [("playlist",
                                    JArr [JObj [("song_name", JStr "Intro")];
                                          JObj [("song_name", JStr "Outro")]])]) |}) in
  draws (snd (generatePlaylist sample_digits spotifyAPI happy_request w)) = 2.
Proof.
  intros w.
  exact (proj1 (generated_ids_take_successive_draws sample_digits spotifyAPI happy_request
                  w _ _ _ eq_refl eq_refl eq_refl eq_refl ltac:(repeat constructor))).
Defined.

(** * Properties of the utilities *)

(** ** Spotify URIs *)

Lemma span_spec class s :
  s = (fst (span class s) ++ snd (span class s))%string
  /\ all_in class (fst (span class s)) = true
  /\ match snd (span class s) with
     | EmptyString => True
     | String c _ => class c = false
     end.
Proof.
  induction s as [|c rest IH]; simpl; [auto|].
  destruct (class c) eqn:Hc.
  - destruct (span class rest) as [taken others]; simpl in *.
    destruct IH as (Hsplit & Hall & Hnext).
    rewrite Hc. split; [rewrite Hsplit at 1; reflexivity|]. auto.
  - simpl. auto.
Qed.

Lemma span_all_in class s rest :
  all_in class s = true ->
  match rest with
  | EmptyString => True
  | String c _ => class c = false
  end ->
  span class (s ++ rest)%string = (s, rest).
Proof.
  induction s as [|c s IH]; simpl; intros Hall Hrest.
  - destruct rest as [|c rest]; [reflexivity|]. simpl. rewrite Hrest. reflexivity.
  - apply andb_true_iff in Hall as [Hc Hall]. rewrite Hc, (IH Hall Hrest). reflexivity.
Qed.

Lemma after_prefix_spec p s rest :
  after_prefix p s = Some rest -> s = (p ++ rest)%string.
Proof.
  revert s. induction p as [|a p IH]; intros s H; simpl in *.
  - destruct s; injection H as <-; reflexivity.
  - destruct s as [|b s]; [discriminate|].
    destruct (Ascii.eqb_spec a b) as [<-|]; [|discriminate].
    rewrite (IH s H). reflexivity.
Qed.

Lemma match_here_spec s type id :
  match_here s = Some (type, id) ->
  exists after,
    s = ("spotify:" ++ type ++ ":" ++ id ++ after)%string
    /\ type <> "" /\ all_in is_lower type = true
    /\ id <> "" /\ all_in is_alnum id = true
    /\ match after with
       | EmptyString => True
       | String c _ => is_alnum c = false
       end.
Proof.
  unfold match_here. intros H.
  destruct (after_prefix "spotify:" s) as [rest|] eqn:Hprefix; [|discriminate].
  apply after_prefix_spec in Hprefix.
  destruct (span_spec is_lower rest) as (Hsplit & Hlower & _).
  destruct (span is_lower rest) as [letters rest1]; simpl in *.
  destruct letters as [|l letters]; [discriminate|].
  destruct rest1 as [|c rest']; [discriminate|].
  destruct (Ascii.eqb_spec c ":"%char) as [->|]; [|discriminate].
  destruct (span_spec is_alnum rest') as (Hsplit' & Halnum & Hnext).
  destruct (span is_alnum rest') as [chars after]; simpl in *.
  destruct chars as [|a chars]; [discriminate|].
  injection H as <- <-. exists after.
  split; [rewrite Hprefix, Hsplit, Hsplit'; reflexivity|].
  repeat split; try discriminate; assumption.
Qed.

(** X10.  When [parseSpotifyURI] returns a result, the text contains
    [spotify:type:id] with that type and id; the type is one or more
    lower-case letters, the id one or more letters and digits, and the id
    stops at the first character that is neither (or at the end of the
    text). *)
Theorem parseSpotifyURI_sound uri parsed :
  parseSpotifyURI uri = Some parsed ->
  exists before after,
    uri = (before ++ "spotify:" ++ uri_type parsed ++ ":" ++ uri_id parsed ++ after)%string
    /\ uri_type parsed <> "" /\ all_in is_lower (uri_type parsed) = true
    /\ uri_id parsed <> "" /\ all_in is_alnum (uri_id parsed) = true
    /\ match after with
       | EmptyString => True
       | String c _ => is_alnum c = false
       end.
Proof.
  unfold parseSpotifyURI.
  destruct (match_first uri) as [[type id]|] eqn:Hmatch; [|discriminate].
  intros [= <-]. simpl. revert Hmatch.
  induction uri as [|c uri IH]; intros Hmatch.
  - simpl in Hmatch. discriminate.
  - cbn [match_first] in Hmatch.
    destruct (match_here (String c uri)) as [[type' id']|] eqn:Hhere.
    + injection Hmatch as -> ->.
      destruct (match_here_spec _ _ _ Hhere) as (after & Heq & Hrest).
      exists EmptyString, after. split; [exact Heq | exact Hrest].
    + destruct (IH Hmatch) as (before & after & Heq & Hrest).
      exists (String c before), after.
      split; [rewrite Heq at 1; reflexivity | exact Hrest].
Qed.

Lemma parseSpotifyURI_sound_witness :
  exists before after,
    "open spotify:track:6rqhFgbbKwnb9MLmUQDhG6?si=1"
    = (before ++ "spotify:" ++ "track" ++ ":" ++ "6rqhFgbbKwnb9MLmUQDhG6" ++ after)%string.
Proof.
  destruct (parseSpotifyURI_sound "open spotify:track:6rqhFgbbKwnb9MLmUQDhG6?si=1"
              {| uri_type := "track"; uri_id := "6rqhFgbbKwnb9MLmUQDhG6" |} eq_refl)
    as (before & after & Heq & _).
  exists before, after. exact Heq.
Defined.

Lemma match_here_complete type id after :
  type <> "" -> all_in is_lower type = true ->
  id <> "" -> all_in is_alnum id = true ->
  match after with
  | EmptyString => True
  | String c _ => is_alnum c = false
  end ->
  match_here ("spotify:" ++ type ++ ":" ++ id ++ after)%string = Some (type, id).
Proof.
  intros Htype Hlower Hid Halnum Hafter. unfold match_here.
  change (after_prefix "spotify:" ("spotify:" ++ type ++ ":" ++ id ++ after)%string)
    with (Some (type ++ String ":" (id ++ after))%string).
  cbv beta iota.
  rewrite (span_all_in is_lower type (String ":" (id ++ after)) Hlower eq_refl).
  destruct type as [|t type]; [contradiction|].
  change (Ascii.eqb ":" ":") with true. cbv iota.
  rewrite (span_all_in is_alnum id after Halnum Hafter).
  destruct id; [contradiction | reflexivity].
Qed.

(** X11.  Round trip: a URI made by [generateSpotifyURI] parses back to its
    type and to the longest prefix of letters and digits of its id, so to the
    id itself when the id is made of letters and digits only (and is not
    empty). *)
Theorem parse_generated_URI type id :
  fst (span is_alnum id) <> "" ->
  parseSpotifyURI (generateSpotifyURI type id)
  = Some {| uri_type := URIType_string type; uri_id := fst (span is_alnum id) |}
  /\ (all_in is_alnum id = true ->
      parseSpotifyURI (generateSpotifyURI type id)
      = Some {| uri_type := URIType_string type; uri_id := id |}).
Proof.
  intros Hne.
  destruct (span_spec is_alnum id) as (Hsplit & Halnum & Hafter).
  assert (Hparse : parseSpotifyURI (generateSpotifyURI type id)
                   = Some {| uri_type := URIType_string type;
                             uri_id := fst (span is_alnum id) |}).
  { unfold parseSpotifyURI, generateSpotifyURI. rewrite Hsplit at 1.
    assert (Hhere :
      match_here ("spotify:" ++ URIType_string type ++ ":"
                  ++ fst (span is_alnum id) ++ snd (span is_alnum id))%string
      = Some (URIType_string type, fst (span is_alnum id))).
    { apply match_here_complete; try assumption; destruct type; first [discriminate | reflexivity]. }
    change (match_first ("spotify:" ++ URIType_string type ++ ":"
                         ++ fst (span is_alnum id) ++ snd (span is_alnum id))%string)
      with (match match_here ("spotify:" ++ URIType_string type ++ ":"
                              ++ fst (span is_alnum id) ++ snd (span is_alnum id))%string
            with
            | Some groups => Some groups
            | None => match_first ("potify:" ++ URIType_string type ++ ":"
                                   ++ fst (span is_alnum id)
                                   ++ snd (span is_alnum id))%string
            end).
    rewrite Hhere. reflexivity. }
  split; [exact Hparse|].
  intros Hall. rewrite Hparse.
  pose proof (span_all_in is_alnum id EmptyString Hall I) as Hspan.
  replace (id ++ "")%string with id in Hspan.
  - rewrite Hspan. reflexivity.
  - clear. induction id as [|c id IH]; [reflexivity|].
    change (String c id = String c (id ++ "")%string). f_equal. exact IH.
Qed.

Lemma parse_generated_URI_witness :
  parseSpotifyURI (generateSpotifyURI type_album "4aawyAB9vmqN3uQ7FjRGTy")
  = Some {| uri_type := "album"; uri_id := "4aawyAB9vmqN3uQ7FjRGTy" |}
  /\ parseSpotifyURI (generateSpotifyURI type_track "abc-def")
     = Some {| uri_type := "track"; uri_id := "abc" |}.
Proof.
  split.
  - apply (parse_generated_URI type_album "4aawyAB9vmqN3uQ7FjRGTy");
      [discriminate | reflexivity].
  - exact (proj1 (parse_generated_URI type_track "abc-def" ltac:(discriminate))).
Defined.

(** X12.  [parseSpotifyURI] finds a URI wherever it is in a text: a text
    that contains [spotify:type:id], with a type of lower-case letters and an
    id of letters and digits, never parses to [null]. *)
Theorem parseSpotifyURI_finds before type id after :
  type <> "" -> all_in is_lower type = true ->
  id <> "" -> all_in is_alnum id = true ->
  match after with
  | EmptyString => True
  | String c _ => is_alnum c = false
  end ->
  parseSpotifyURI (before ++ "spotify:" ++ type ++ ":" ++ id ++ after)%string <> None
  /\ parseSpotifyURI ("spotify:" ++ type ++ ":" ++ id ++ after)%string
     = Some {| uri_type := type; uri_id := id |}.
Proof.
  intros Htype Hlower Hid Halnum Hafter.
  pose proof (match_here_complete type id after Htype Hlower Hid Halnum Hafter) as Hhere.
  assert (Hfirst : forall s, match_here s <> None -> match_first s <> None).
  { intros s Hs. destruct (match_here s) as [groups|] eqn:Hs'; [|contradiction].
    destruct s; cbn [match_first]; rewrite Hs'; discriminate. }
  split.
  - unfold parseSpotifyURI.
    assert (Hsome : match_first (before ++ "spotify:" ++ type ++ ":" ++ id ++ after)%string
                    <> None).
    { induction before as [|c before IH].
      - apply Hfirst. change ("" ++ ?x)%string with x. rewrite Hhere. discriminate.
      - change (String c before ++ ?x)%string with (String c (before ++ x)%string).
        cbn [match_first].
        destruct (match_here (String c _)); [discriminate | exact IH]. }
    destruct (match_first _) as [[t i]|]; [discriminate | contradiction].
  - unfold parseSpotifyURI.
    change (match_first ("spotify:" ++ type ++ ":" ++ id ++ after)%string)
      with (match match_here ("spotify:" ++ type ++ ":" ++ id ++ after)%string with
            | Some groups => Some groups
            | None => match_first ("potify:" ++ type ++ ":" ++ id ++ after)%string
            end).
    rewrite Hhere. reflexivity.
Qed.

Lemma parseSpotifyURI_finds_witness :
  parseSpotifyURI "see spotify:playlist:37i9dQZF1DXcBWIGoYBM5M now" <> None.
Proof.
  exact (proj1 (parseSpotifyURI_finds "see " "playlist" "37i9dQZF1DXcBWIGoYBM5M" " now"
                  ltac:(discriminate) eq_refl ltac:(discriminate) eq_refl eq_refl)).
Defined.

(** ** The tables of emotions *)

Lemma lower_unit_no_capital c :
  negb (Nat.leb 65 (nat_of_ascii (lower_unit c)) && Nat.leb (nat_of_ascii (lower_unit c)) 90)
  = true.
Proof.
  destruct c as [[] [] [] [] [] [] [] []]; vm_compute; reflexivity.
Qed.

Lemma toLowerCase_no_capital s : no_capital (toLowerCase s) = true.
Proof.
  unfold no_capital. induction s as [|c s IH]; [reflexivity|].
  cbn [toLowerCase all_in]. rewrite lower_unit_no_capital. exact IH.
Qed.

(** Lower-casing twice is lower-casing once. *)
Lemma lower_unit_idempotent c : lower_unit (lower_unit c) = lower_unit c.
Proof.
  destruct c as [[] [] [] [] [] [] [] []]; vm_compute; reflexivity.
Qed.

Lemma toLowerCase_idempotent s : toLowerCase (toLowerCase s) = toLowerCase s.
Proof.
  induction s as [|c s IH]; [reflexivity|].
  simpl. rewrite lower_unit_idempotent, IH. reflexivity.
Qed.

Lemma suggestions_checked key (l : list string) :
  length l = 3
  /\ NoDup l
  /\ Forall (fun e => e ∈ known_emotions /\ e <> key
                     /\ is_Some (own_entry e colorSchemes)) l ->
  length l = 3
  /\ NoDup l
  /\ forall e, e ∈ l ->
       e ∈ known_emotions /\ e <> key
       /\ exists scheme, own_entry e colorSchemes = Some scheme.
Proof.
  intros (Hlen & Hnodup & Hall). split; [exact Hlen|]. split; [exact Hnodup|].
  intros e He. exact (proj1 (Forall_forall _ _) Hall e He).
Qed.

(** X13.  Whatever the emotion and its spelling, the emotions
    [getComplementaryEmotions] suggests are three different emotions the
    tables know (each with a color scheme of its own), and never the emotion
    asked about; the only inputs that get something else are the two names
    [constructor] and [__proto__], which read a member of
    [Object.prototype]. *)
Theorem complementary_emotions_are_known emotion :
  match getComplementaryEmotions emotion with
  | Own suggestions =>
      length suggestions = 3
      /\ NoDup suggestions
      /\ forall e, e ∈ suggestions ->
           e ∈ known_emotions
           /\ e <> toLowerCase emotion
           /\ exists scheme, own_entry e colorSchemes = Some scheme
  | Inherited name =>
      toLowerCase emotion = name /\ (name = "constructor" \/ name = "__proto__")
  end.
Proof.
  unfold getComplementaryEmotions, lookup_or.
  pose proof (toLowerCase_no_capital emotion) as Hlow.
  set (key := toLowerCase emotion) in *. clearbody key.
  unfold complementary at 1. cbn [own_entry].
  repeat match goal with
         | |- context [String.eqb key ?k] =>
             destruct (String.eqb_spec key k) as [->|]
         end;
    try (apply suggestions_checked; apply (bool_decide_unpack _); vm_compute; exact I).
  destruct (bool_decide (key ∈ Object_prototype)) eqn:Hproto.
  - split; [reflexivity|].
    apply bool_decide_eq_true in Hproto. unfold Object_prototype in Hproto.
    repeat (apply elem_of_cons in Hproto as [->|Hproto];
            [first [ left; reflexivity | right; reflexivity
                   | vm_compute in Hlow; discriminate Hlow ]|]).
    apply elem_of_nil in Hproto. destruct Hproto.
  - apply suggestions_checked.
    split; [reflexivity|]. split; [apply (bool_decide_unpack _); vm_compute; exact I|].
    repeat (apply Forall_cons; split;
            [split; [apply (bool_decide_unpack _); vm_compute; exact I|];
             split; [congruence | eexists; reflexivity]|]).
    apply Forall_nil_2.
Qed.

(** ** Durations *)

Lemma two_digits_below_sixty :
  forallb (fun n => String.eqb (padStart2 (integer_toString (Z.of_nat n)))
                      (String (digit (Z.of_nat n / 10))
                         (String (digit (Z.of_nat n mod 10)) EmptyString)))
          (seq 0 60) = true.
Proof. vm_compute. reflexivity. Qed.

(** X14.  For a whole duration from 0 to below 2^53 milliseconds,
    [formatDuration] prints the whole minutes, a colon, and the remaining
    whole seconds always with two digits: a tens digit from 0 to 5 and a
    units digit. *)
Theorem formatDuration_two_digit_seconds ms :
  (0 <= ms < 2 ^ 53)%Z ->
  let seconds := ((ms / 1000) mod 60)%Z in
  formatDuration ms
  = (integer_toString (ms / 60000) ++ ":"
     ++ String (digit (seconds / 10)) (String (digit (seconds mod 10)) EmptyString))%string
  /\ (0 <= seconds / 10 <= 5)%Z /\ (0 <= seconds mod 10 <= 9)%Z
  /\ (ms / 1000 = 60 * (ms / 60000) + seconds)%Z.
Proof.
  intros Hms seconds.
  assert (Hrange : (0 <= seconds < 60)%Z) by (apply Z.mod_pos_bound; lia).
  assert (Hminutes : (ms / 1000 / 60 = ms / 60000)%Z)
    by (rewrite Z.div_div by lia; reflexivity).
  split; [|split; [|split]].
  - unfold formatDuration. cbv zeta.
    rewrite Hminutes, Z.rem_mod_nonneg by (try apply Z.div_pos; lia).
    fold seconds. f_equal. f_equal.
    pose proof two_digits_below_sixty as Hall. rewrite forallb_forall in Hall.
    specialize (Hall (Z.to_nat seconds)).
    rewrite Z2Nat.id in Hall by lia.
    apply String.eqb_eq, Hall, in_seq. lia.
  - split; [apply Z.div_pos; lia|].
    assert (seconds / 10 < 6)%Z by (apply Z.div_lt_upper_bound; lia). lia.
  - pose proof (Z.mod_pos_bound seconds 10). lia.
  - unfold seconds. rewrite <- Hminutes. apply Z.div_mod. lia.
Qed.

Lemma formatDuration_two_digit_seconds_witness :
  formatDuration 185000 = "3:05" /\ formatDuration 59999 = "0:59".
Proof.
  split.
  - exact (proj1 (formatDuration_two_digit_seconds 185000 ltac:(lia))).
  - exact (proj1 (formatDuration_two_digit_seconds 59999 ltac:(lia))).
Defined.

(** * Further properties of the autocomplete components *)

Section MoreAutocompleteProperties.

Variable c : Component.

Lemma pending_after_filter (P : Timer -> Prop) `{forall t, Decision (P t)} (ts : list Timer) :
  length (List.filter is_search (filter P ts)) <= length (List.filter is_search ts).
Proof.
  induction ts as [|t ts IH]; [reflexivity|].
  destruct (decide (P t)) as [Hp|Hp].
  - rewrite filter_cons_True by exact Hp. simpl.
    destruct (is_search t); simpl; lia.
  - rewrite filter_cons_False by exact Hp. simpl.
    destruct (is_search t); simpl; lia.
Qed.

Lemma pending_clear_debounceTimer s :
  length (pending_searches (clear_debounceTimer s)) <= length (pending_searches s).
Proof.
  unfold clear_debounceTimer, pending_searches.
  destruct (debounceTimer s); [|reflexivity]. simpl. apply pending_after_filter.
Qed.

Lemma no_search_timers (ts : list Timer) :
  (forall t, t ∈ ts -> is_search t = false) -> List.filter is_search ts = [].
Proof.
  induction ts as [|t ts IH]; intros Hnone; [reflexivity|].
  simpl. rewrite (Hnone t) by left. apply IH. intros t' Ht'. apply Hnone. right. exact Ht'.
Qed.

Lemma pending_after_cleanup v s :
  debounce_invariant s ->
  pending_searches (run_cleanup (with_inputValue v s)) = [].
Proof.
  intros [_ Hinv]. apply no_search_timers. intros t Hin.
  destruct (is_search t) eqn:Hs; [exfalso|reflexivity].
  unfold run_cleanup in Hin. simpl in Hin.
  destruct (cleanup s) eqn:Hcl.
  - apply clear_debounceTimer_timers in Hin as [Hin Hne]. simpl in Hin, Hne.
    destruct (Hinv t Hin Hs) as (_ & _ & _ & Href & _). contradiction.
  - simpl in Hin. destruct (Hinv t Hin Hs) as (_ & _ & _ & _ & Hcl'). congruence.
Qed.

Lemma pending_effect s :
  length (pending_searches (effect s)) <= S (length (pending_searches s)).
Proof.
  unfold effect. destruct (Nat.ltb _ 2); simpl; [unfold pending_searches; simpl; lia|].
  pose proof (pending_clear_debounceTimer s) as Hle.
  unfold pending_searches in *. simpl.
  rewrite List.filter_app, length_app. simpl. lia.
Qed.

Lemma pending_setInputValue v s :
  debounce_invariant s ->
  length (pending_searches s) <= 1 ->
  length (pending_searches (setInputValue v s)) <= 1.
Proof.
  intros Hinv Hone. unfold setInputValue.
  destruct (String.eqb v (inputValue s)); [exact Hone|].
  pose proof (pending_effect (run_cleanup (with_inputValue v s))) as Hle.
  rewrite (pending_after_cleanup v s Hinv) in Hle. exact Hle.
Qed.

Lemma pending_handleSelect item s :
  debounce_invariant s ->
  length (pending_searches s) <= 1 ->
  length (pending_searches (handleSelect c item s)) <= 1.
Proof.
  intros Hinv Hone. unfold handleSelect.
  destruct (selection c item); [|exact Hone].
  apply pending_setInputValue; [|exact Hone].
  eapply invariant_frame; [exact Hinv | reflexivity ..| simpl; lia
                          | reflexivity | reflexivity | auto].
Qed.

Lemma pending_step e s :
  debounce_invariant s ->
  length (pending_searches s) <= 1 ->
  length (pending_searches (step c e s)) <= 1.
Proof.
  intros Hinv Hone. destruct e as [value|key| | |index|ms|id|r]; simpl.
  - apply pending_setInputValue; assumption.
  - unfold handleKeyDown.
    destruct (negb (showSuggestions s) || Nat.eqb (length (suggestions s)) 0)%bool;
      [exact Hone|].
    destruct key; try exact Hone.
    destruct (_ && _)%bool; [|exact Hone].
    destruct (suggestions s !! _); [|exact Hone].
    apply pending_handleSelect; assumption.
  - unfold handleFocus. destruct (_ && _)%bool; exact Hone.
  - unfold handleBlur, pending_searches in *. simpl.
    rewrite List.filter_app, length_app. simpl. lia.
  - destruct (_ && _)%bool; [|exact Hone].
    destruct (suggestions s !! index); [|exact Hone].
    apply pending_handleSelect; assumption.
  - exact Hone.
  - unfold fire. destruct (List.find _ (timers s)) as [t|]; [|exact Hone].
    destruct (Nat.leb (due t) (clock s)); [|exact Hone].
    assert (Hle : length (pending_searches (clearTimeout id s)) <= 1).
    { unfold pending_searches, clearTimeout in *. simpl.
      etransitivity; [apply pending_after_filter | exact Hone]. }
    destruct (task t); exact Hle.
  - destruct (awaiting s); [exact Hone|]. destruct r; exact Hone.
Qed.

(** X15.  At any point of any run at most one timeout of the effect is
    waiting to run: however fast the user types, the earlier timeouts are
    gone, so at most one search can follow a burst of changes. *)
Theorem at_most_one_pending_search events :
  length (pending_searches (run_events c events mount)) <= 1.
Proof.
  induction events as [|e events IH] using rev_ind.
  - simpl. lia.
  - rewrite run_events_snoc. apply pending_step; [apply run_events_invariant | exact IH].
Qed.

(** *** The highlighted suggestion *)

Lemma setInputValue_view v s :
  selectedIndex (setInputValue v s) = selectedIndex s
  /\ isLoading (setInputValue v s) = isLoading s
  /\ awaiting (setInputValue v s) = awaiting s
  /\ selected (setInputValue v s) = selected s
  /\ (suggestions (setInputValue v s) = suggestions s
      \/ suggestions (setInputValue v s) = []).
Proof.
  unfold setInputValue. destruct (String.eqb v (inputValue s)); [auto 10|].
  unfold effect, run_cleanup, clear_debounceTimer.
  destruct (Nat.ltb _ 2); destruct (cleanup _); simpl;
    repeat match goal with
           | |- context [match debounceTimer ?x with _ => _ end] =>
               destruct (debounceTimer x)
           end; simpl; auto 10.
Qed.

Lemma highlight_handleSelect item s :
  highlight_in_range s -> highlight_in_range (handleSelect c item s).
Proof.
  intros Hs. unfold handleSelect. destruct (selection c item); [|exact Hs].
  match goal with
  | |- highlight_in_range (setInputValue ?v ?s') =>
      destruct (setInputValue_view v s') as (Hi & _ & _ & _ & Hsug)
  end.
  unfold highlight_in_range. rewrite Hi. simpl in *.
  split; [lia|]. destruct Hsug as [-> | ->]; intros H; contradiction.
Qed.

Lemma highlight_step e s :
  highlight_in_range s -> highlight_in_range (step c e s).
Proof.
  intros Hs. destruct e as [value|key| | |index|ms|id|r]; simpl.
  - destruct (setInputValue_view value s) as (Hi & _ & _ & _ & Hsug).
    destruct Hs as [Hlow Hup]. unfold highlight_in_range. rewrite Hi.
    split; [exact Hlow|]. destruct Hsug as [-> | ->]; [exact Hup | contradiction].
  - unfold handleKeyDown.
    destruct (negb (showSuggestions s) || Nat.eqb (length (suggestions s)) 0)%bool
      eqn:Hguard; [exact Hs|].
    apply orb_false_iff in Hguard as [_ Hlen]. apply Nat.eqb_neq in Hlen.
    assert (Hne : suggestions s <> []) by (destruct (suggestions s); [contradiction | discriminate]).
    destruct Hs as [Hlow Hup]. specialize (Hup Hne).
    destruct key; try (split; [exact Hlow | intros _; exact Hup]).
    + unfold highlight_in_range. simpl.
      destruct (Z.ltb_spec (selectedIndex s) (Z.of_nat (length (suggestions s)) - 1));
        split; intros; lia.
    + unfold highlight_in_range. simpl.
      destruct (Z.ltb_spec 0 (selectedIndex s)); split; intros; lia.
    + destruct (_ && _)%bool; [|split; [exact Hlow | intros _; exact Hup]].
      destruct (suggestions s !! _); [|split; [exact Hlow | intros _; exact Hup]].
      apply highlight_handleSelect. split; [exact Hlow | intros _; exact Hup].
    + unfold highlight_in_range. simpl. split; intros; lia.
  - unfold handleFocus. destruct (_ && _)%bool; exact Hs.
  - exact Hs.
  - destruct (_ && _)%bool; [|exact Hs].
    destruct (suggestions s !! index); [|exact Hs].
    apply highlight_handleSelect, Hs.
  - exact Hs.
  - unfold fire. destruct (List.find _ (timers s)) as [t|]; [|exact Hs].
    destruct (Nat.leb (due t) (clock s)); [|exact Hs].
    destruct (task t); exact Hs.
  - destruct (awaiting s); [exact Hs|]. destruct r as [results|error].
    + unfold highlight_in_range. simpl. split; [lia|].
      intros Hne. destruct results; [contradiction | simpl; lia].
    + unfold highlight_in_range. simpl. destruct Hs as [Hlow _].
      split; [exact Hlow | intros H; contradiction].
Qed.

(** X16.  At any point of any run the highlighted index is at least -1, and
    when there are suggestions it is below their number: a highlighted
    position always holds a suggestion. *)
Theorem highlight_stays_in_range events :
  let s := run_events c events mount in
  (-1 <= selectedIndex s)%Z
  /\ (suggestions s <> [] -> (selectedIndex s < Z.of_nat (length (suggestions s)))%Z)
  /\ (suggestions s <> [] -> (0 <= selectedIndex s)%Z ->
      is_Some (suggestions s !! Z.to_nat (selectedIndex s))).
Proof.
  intros s.
  assert (Hs : highlight_in_range s).
  { unfold s. induction events as [|e events IH] using rev_ind.
    - split; [simpl; lia | intros H; contradiction].
    - rewrite run_events_snoc. apply highlight_step, IH. }
  destruct Hs as [Hlow Hup]. split; [exact Hlow|]. split; [exact Hup|].
  intros Hne Hpos. apply lookup_lt_is_Some. specialize (Hup Hne). lia.
Qed.

(** *** The spinner *)

Lemma loading_step e s :
  (isLoading s = true -> 0 < awaiting s) ->
  isLoading (step c e s) = true -> 0 < awaiting (step c e s).
Proof.
  intros Hs. destruct e as [value|key| | |index|ms|id|r]; simpl.
  - destruct (setInputValue_view value s) as (_ & -> & -> & _). exact Hs.
  - unfold handleKeyDown.
    destruct (negb (showSuggestions s) || Nat.eqb (length (suggestions s)) 0)%bool;
      [exact Hs|].
    destruct key; try exact Hs.
    destruct (_ && _)%bool; [|exact Hs].
    destruct (suggestions s !! _); [|exact Hs].
    unfold handleSelect. destruct (selection c _); [|exact Hs].
    match goal with
    | |- context [setInputValue ?v ?s'] =>
        destruct (setInputValue_view v s') as (_ & -> & -> & _)
    end. exact Hs.
  - unfold handleFocus. destruct (_ && _)%bool; exact Hs.
  - exact Hs.
  - destruct (_ && _)%bool; [|exact Hs].
    destruct (suggestions s !! index); [|exact Hs].
    unfold handleSelect. destruct (selection c _); [|exact Hs].
    match goal with
    | |- context [setInputValue ?v ?s'] =>
        destruct (setInputValue_view v s') as (_ & -> & -> & _)
    end. exact Hs.
  - exact Hs.
  - unfold fire. destruct (List.find _ (timers s)) as [t|]; [|exact Hs].
    destruct (Nat.leb (due t) (clock s)); [|exact Hs].
    destruct (task t); simpl; [lia | exact Hs].
  - destruct (awaiting s) eqn:Ha; [intros Hl; specialize (Hs Hl); lia|].
    destruct r; simpl; discriminate.
Qed.

(** X17.  At any point of any run the loading spinner is on only while a
    search is awaited. *)
Theorem spinner_only_while_awaiting events :
  isLoading (run_events c events mount) = true ->
  0 < awaiting (run_events c events mount).
Proof.
  induction events as [|e events IH] using rev_ind.
  - discriminate.
  - rewrite run_events_snoc. apply loading_step, IH.
Qed.

End MoreAutocompleteProperties.

Lemma spinner_only_while_awaiting_witness :
  0 < awaiting (run_events SongAutocomplete [Change "ab"; Advance 300; Fire 1] mount).
Proof.
  apply (spinner_only_while_awaiting SongAutocomplete [Change "ab"; Advance 300; Fire 1]).
  reflexivity.
Defined.

Lemma highlight_stays_in_range_witness :
  let s := run_events SongAutocomplete
             [Change "ab"; Advance 300; Fire 1;
              Settle (Resolved [JObj [("id", JStr "1")]; JObj [("id", JStr "2")]]);
              KeyDown ArrowDown; KeyDown ArrowDown; KeyDown ArrowDown] mount in
  selectedIndex s = 1%Z /\ is_Some (suggestions s !! Z.to_nat (selectedIndex s)).
Proof.
  intros s. split; [reflexivity|].
  apply (highlight_stays_in_range SongAutocomplete
           [Change "ab"; Advance 300; Fire 1;
            Settle (Resolved [JObj [("id", JStr "1")]; JObj [("id", JStr "2")]]);
            KeyDown ArrowDown; KeyDown ArrowDown; KeyDown ArrowDown]).
  - discriminate.
  - vm_compute. discriminate.
Defined.

Section ComponentAndClient.

Variable toString36 : Sample -> string.
Variable ToNumber_other : JSValue -> float.
Variable c : Component.

(** X18.  The search a component makes goes to the client as one GET
    request, to [/spotify/search] from the song box and to
    [/spotify/artist/search] from the artist box, with the input exactly as
    typed (not trimmed) and the limit 8; and it always resolves, to an array
    (never rejects): the [catch] of the component's callback is never
    entered. *)
Theorem issued_search_is_one_request this events e t call w :
  (t, call) ∈ newly_issued c e (run_events c events mount) ->
  fetched (snd (perform toString36 ToNumber_other this call w))
  = fetched w
    ++ [{| url := match c with
                  | SongAutocomplete => (baseUrl this ++ "/spotify/search")%string
                  | ArtistAutocomplete => (baseUrl this ++ "/spotify/artist/search")%string
                  end;
           query := [(match c with
                      | SongAutocomplete => "song_name"
                      | ArtistAutocomplete => "artist_name"
                      end, PStr (inputValue (run_events c events mount)));
                     ("limit", PNum 8%float)];
           method := GET; headers := []; body := None |}]
  /\ exists entries,
       fst (perform toString36 ToNumber_other this call w) = Resolved (JArr entries).
Proof.
  intros Hin. unfold newly_issued in Hin.
  destruct (step_issued c e _ (run_events_invariant c events)) as [Hsame|(Hnew & _)].
  - rewrite Hsame, drop_all in Hin. apply elem_of_nil in Hin. destruct Hin.
  - rewrite Hnew, drop_app_length in Hin.
    apply list_elem_of_singleton in Hin. injection Hin as -> ->.
    split.
    + rewrite sends_request_of. destruct c; reflexivity.
    + destruct c; simpl;
        [apply searchTracks_resolves_to_array | apply searchArtists_resolves_to_array].
Qed.

End ComponentAndClient.

Lemma issued_search_is_one_request_witness :
  fetched (snd (searchTracks spotifyAPI " ab " None (Some 8%float) offline))
  = [a_GET "http://localhost:8000/api/v1/spotify/search"
       [("song_name", PStr " ab "); ("limit", PNum 8%float)]].
Proof.
  exact (proj1 (issued_search_is_one_request sample_digits (fun _ => PrimFloat.zero)
                  SongAutocomplete spotifyAPI [Change " ab "; Advance 300] (Fire 1) 300
                  (call_searchTracks " ab " None (Some 8%float)) offline
                  ltac:(vm_compute; apply list_elem_of_here))).
Defined.

Section SelectProperties.

Variable c : Component.

(** X19.  A click on a shown suggestion hands the parent the name, artist
    and id of that track (the name and id of that artist), empties the input,
    clears and hides the list, drops the highlight, cancels the search that
    was waiting for its delay, and makes no search. *)
Theorem click_selects_and_resets events index item :
  let s := run_events c events mount in
  showSuggestions s = true ->
  suggestions s !! index = Some item ->
  readable item = true ->
  let s' := step c (Click index) s in
  inputValue s' = ""
  /\ suggestions s' = []
  /\ showSuggestions s' = false
  /\ selectedIndex s' = (-1)%Z
  /\ pending_searches s' = []
  /\ issued s' = issued s
  /\ exists arg,
       selected s' = selected s ++ [arg]
       /\ get_prop arg "spotify_id" = get_prop item "id"
       /\ match c with
          | SongAutocomplete =>
              get_prop arg "song_name" = get_prop item "name"
              /\ get_prop arg "artist" = get_prop item "artist"
          | ArtistAutocomplete =>
              get_prop arg "artist_name" = get_prop item "name"
          end.
Proof.
  intros s Hshow Hitem Hr s'.
  assert (Hinv : debounce_invariant s) by apply run_events_invariant.
  assert (Hlen : Nat.ltb 0 (length (suggestions s)) = true).
  { apply Nat.ltb_lt. apply lookup_lt_Some in Hitem. lia. }
  assert (Hsel : exists arg,
            selection c item = Resolved arg
            /\ get_prop arg "spotify_id" = get_prop item "id"
            /\ match c with
               | SongAutocomplete =>
                   get_prop arg "song_name" = get_prop item "name"
                   /\ get_prop arg "artist" = get_prop item "artist"
               | ArtistAutocomplete =>
                   get_prop arg "artist_name" = get_prop item "name"
               end).
  { unfold selection. destruct c; rewrite !(get_prop_readable _ _ Hr);
      eexists; repeat split; reflexivity. }
  destruct Hsel as (arg & Hsel & Harg).
  assert (Hstep : s' = setInputValue ""
                         (setSelectedIndex (-1)
                            (setShowSuggestions false
                               (setSuggestions []
                                  (with_log (clock s) (issued s) (selected s ++ [arg])
                                     (errors s) s))))).
  { unfold s'. simpl. rewrite Hshow, Hlen, Hitem. simpl.
    unfold handleSelect. rewrite Hsel. reflexivity. }
  set (s1 := setSelectedIndex (-1)
               (setShowSuggestions false
                  (setSuggestions []
                     (with_log (clock s) (issued s) (selected s ++ [arg]) (errors s) s))))
    in Hstep.
  assert (Hinv1 : debounce_invariant s1).
  { eapply invariant_frame; [exact Hinv | reflexivity ..| simpl; lia
                            | reflexivity | reflexivity | auto]. }
  rewrite Hstep.
  destruct (setInputValue_view "" s1) as (Hindex & _ & _ & Hselected & Hsug).
  destruct (setInputValue_fields "" s1) as (_ & Hissued & _).
  assert (Hinput : inputValue (setInputValue "" s1) = ""
                   /\ showSuggestions (setInputValue "" s1) = false
                   /\ pending_searches (setInputValue "" s1) = []).
  { unfold setInputValue. destruct (String.eqb_spec "" (inputValue s1)) as [Heq|Hne].
    - split; [symmetry; exact Heq|]. split; [reflexivity|].
      apply no_search_timers. intros t Hin.
      destruct (is_search t) eqn:Hs; [exfalso|reflexivity].
      destruct Hinv1 as [_ Hinv1].
      destruct (Hinv1 t Hin Hs) as (_ & _ & Hlong & _).
      rewrite <- Heq in Hlong. vm_compute in Hlong. lia.
    - pose proof (pending_after_cleanup "" s1 Hinv1) as Hnone.
      set (s2 := run_cleanup (with_inputValue "" s1)) in *.
      assert (Hi2 : inputValue s2 = "")
        by (unfold s2; rewrite (proj1 (run_cleanup_fields _)); reflexivity).
      destruct (effect_short s2) as (_ & Hhide & Htimers);
        [rewrite Hi2; vm_compute; lia|].
      split; [rewrite (proj1 (effect_fields s2)); exact Hi2|].
      split; [exact Hhide|].
      unfold pending_searches in *. rewrite Htimers. exact Hnone. }
  destruct Hinput as (Hinput & Hhide & Hnone).
  split; [exact Hinput|].
  split; [destruct Hsug as [-> | ->]; reflexivity|].
  split; [exact Hhide|].
  split; [rewrite Hindex; reflexivity|].
  split; [exact Hnone|].
  split; [rewrite Hissued; reflexivity|].
  exists arg. split; [rewrite Hselected; reflexivity | exact Harg].
Qed.

End SelectProperties.

Lemma click_selects_and_resets_witness :
  let found := JObj [("id", JStr "3n3Ppam7vgaVa1iaRUc9Lp"); ("name", JStr "Mr. Brightside");
                     ("artist", JStr "The Killers")] in
  let events := [Change "bright"; Advance 300; Fire 1; Settle (Resolved [found])] in
  let s' := step SongAutocomplete (Click 0) (run_events SongAutocomplete events mount) in
  inputValue s' = "" /\ pending_searches s' = []
  /\ selected s' = [JObj [("song_name", JStr "Mr. Brightside");
                          ("artist", JStr "The Killers");
                          ("spotify_id", JStr "3n3Ppam7vgaVa1iaRUc9Lp")]].
Proof.
  intros found events s'.
  destruct (click_selects_and_resets SongAutocomplete events 0 found
              eq_refl eq_refl eq_refl) as (Hinput & _ & _ & _ & Hnone & _).
  split; [exact Hinput|]. split; [exact Hnone | reflexivity].
Defined.

(** ** Further properties of shuffleArray *)

Section MoreShuffleProperties.

Context {T : Type} (undefined : T).




End MoreShuffleProperties.


(** ** Further properties of MoodCollageDisplay *)

Section MoreCollageProperties.

Variable toFixed2 : float -> string.
Variable String_of : JSValue -> string.

Lemma omap_handler_skip e l :
  handler e = None -> omap handler (e :: l) = omap handler l.
Proof. intros H. simpl. rewrite H. reflexivity. Qed.

Lemma omap_handler_keep e a l :
  handler e = Some a -> omap handler (e :: l) = a :: omap handler l.
Proof. intros H. simpl. rewrite H. reflexivity. Qed.

Lemma swatches_no_text (colors : list string) : forall g : nat -> nat,
  flat_map texts (imap (fun index color => swatch color (g index)) colors) = []
  /\ omap handler
       (flat_map elements (imap (fun index color => swatch color (g index)) colors)) = [].
Proof.
  induction colors as [|color rest IH]; intros g; [split; reflexivity|].
  destruct (IH (g ∘ S)) as [IH1 IH2].
  split; cbn [imap flat_map texts elements swatch app]; [exact IH1|].
  rewrite omap_handler_skip by reflexivity. exact IH2.
Qed.

Lemma visual_params_texts (params : list (string * JSValue)) :
  flat_map texts (map (visual_param toFixed2 String_of) params)
  = flat_map (fun entry =>
                [replace_underscores (fst entry);
                 match snd entry with
                 | JNum n => toFixed2 n
                 | _ => String_of (snd entry)
                 end]) params
  /\ omap handler (flat_map elements (map (visual_param toFixed2 String_of) params)) = [].
Proof.
  induction params as [|[key value] rest [IH1 IH2]]; [split; reflexivity|].
  split.
  - cbn [map flat_map texts visual_param app fst snd]. rewrite IH1. reflexivity.
  - cbn [map flat_map elements visual_param app].
    rewrite !omap_handler_skip by reflexivity. exact IH2.
Qed.

Lemma replace_underscores_length key :
  String.length (replace_underscores key) = String.length key.
Proof. induction key as [|ch rest IH]; simpl; [reflexivity | rewrite IH; reflexivity]. Qed.

Lemma replace_underscores_get key : forall n,
  String.get n (replace_underscores key) <> Some "_"%char.
Proof.
  induction key as [|ch rest IH]; intros n; [destruct n; discriminate|].
  destruct n as [|n]; cbn [replace_underscores String.get]; [|apply IH].
  destruct (Ascii.eqb_spec ch "_"%char) as [->|Hne]; [discriminate | congruence].
Qed.

(** X21.  The collapsed render of [MoodCollageDisplay] shows no visual
    parameter: its only text is the heading and the word Expand.  The
    expanded render adds, after the heading Visual Parameters, one label and
    one value for each entry of [visual_params], in order; a label is the key
    with every underscore turned into a space (same length, no underscore
    left), a number is printed with [toFixed(2)], anything else with
    [String].  The only handler of a render is the one of the button, which
    sets the state to the opposite of what it is. *)
Theorem collage_parameters_when_expanded collage emotion :
  texts (MoodCollageDisplay toFixed2 String_of collage emotion false)
  = ["Mood Visualization"; "Expand"]
  /\ texts (MoodCollageDisplay toFixed2 String_of collage emotion true)
     = ["Mood Visualization"; "Collapse"; "Visual Parameters"]
       ++ flat_map (fun entry =>
                      [replace_underscores (fst entry);
                       match snd entry with
                       | JNum n => toFixed2 n
                       | _ => String_of (snd entry)
                       end]) (visual_params collage)
  /\ (forall key n,
        String.length (replace_underscores key) = String.length key
        /\ String.get n (replace_underscores key) <> Some "_"%char)
  /\ forall isExpanded,
       omap handler
         (elements (MoodCollageDisplay toFixed2 String_of collage emotion isExpanded))
       = [SetIsExpanded (negb isExpanded)].
Proof.
  split; [|split; [|split]].
  - unfold MoodCollageDisplay. cbn [texts flat_map app].
    rewrite (proj1 (swatches_no_text _ (fun i => i))). reflexivity.
  - unfold MoodCollageDisplay. cbn [texts flat_map app].
    rewrite (proj1 (swatches_no_text _ (fun i => i))).
    rewrite (proj1 (visual_params_texts _)). cbn [app]. rewrite !app_nil_r. reflexivity.
  - intros key n. split; [apply replace_underscores_length | apply replace_underscores_get].
  - intros isExpanded. unfold MoodCollageDisplay.
    cbn [elements flat_map app]. rewrite !app_nil_r.
    rewrite !omap_handler_skip by reflexivity.
    rewrite (omap_handler_keep _ (SetIsExpanded (negb isExpanded))) by reflexivity.
    rewrite !omap_handler_skip by reflexivity.
    rewrite omap_app, (proj2 (swatches_no_text _ (fun i => i))).
    destruct isExpanded; cbn [flat_map elements app].
    + rewrite !app_nil_r, !omap_handler_skip by reflexivity.
      rewrite (proj2 (visual_params_texts _)). reflexivity.
    + reflexivity.
Qed.

End MoreCollageProperties.

(** ** The Home page *)

Lemma updates_app us vs s :
  Home.updates (us ++ vs) s = Home.updates vs (Home.updates us s).
Proof. unfold Home.updates. apply fold_left_app. Qed.

Lemma getEmotions_resolves this w :
  exists value, fst (getEmotions this w) = Resolved value.
Proof.
  unfold getEmotions, try_catch.
  match goal with |- context [bind ?m ?k w] => destruct (bind m k w) as [[v|e] w'] end;
    simpl; eauto.
Qed.

Lemma fetch_emotions_runs this w :
  exists value,
    fst (getEmotions this w) = Resolved value
    /\ Home.fetch_emotions this w
       = (Resolved [Home.setEmotions value], snd (getEmotions this w)).
Proof.
  destruct (getEmotions_resolves this w) as [value Hv]. exists value.
  split; [exact Hv|].
  unfold Home.fetch_emotions, try_catch, bind.
  destruct (getEmotions this w) as [r w']. simpl in Hv. subst r. reflexivity.
Qed.

Lemma updates_isLoading_last us s :
  last us = Some (Home.setIsLoading false) ->
  Home.isLoading (Home.updates us s) = false.
Proof.
  intros Hlast. apply last_Some in Hlast as [us' ->].
  rewrite updates_app. reflexivity.
Qed.

Lemma updates_isLoading_same us : forall s,
  (forall u, u ∈ us -> stored_loading u = None) ->
  Home.isLoading (Home.updates us s) = Home.isLoading s.
Proof.
  induction us as [|u us IH]; intros s Hnone; [reflexivity|].
  change (Home.updates (u :: us) s) with (Home.updates us (Home.update u s)).
  rewrite IH by (intros u' Hin; apply Hnone; right; exact Hin).
  pose proof (Hnone u ltac:(left)) as Hu.
  destruct u; try reflexivity; discriminate.
Qed.

Lemma updates_playlistData us : forall s,
  Home.playlistData (Home.updates us s) = Home.playlistData s
  \/ exists u, u ∈ us /\ stored_playlist u = Some (Home.playlistData (Home.updates us s)).
Proof.
  induction us as [|u us IH]; intros s; [left; reflexivity|].
  change (Home.updates (u :: us) s) with (Home.updates us (Home.update u s)).
  destruct (IH (Home.update u s)) as [Hsame|(u' & Hin & Hu')].
  - rewrite Hsame. destruct u; try (left; reflexivity).
    right. eexists. split; [left|reflexivity].
  - right. exists u'. split; [right; exact Hin | exact Hu'].
Qed.

Lemma filter_delete {A} (f : A -> bool) (l : list A) n x :
  l !! n = Some x ->
  length (List.filter f (delete n l)) + (if f x then 1 else 0)
  = length (List.filter f l).
Proof.
  intros Hx. rewrite delete_take_drop.
  rewrite <- (take_drop_middle l n x Hx) at 3.
  rewrite !List.filter_app. cbn [List.filter].
  destruct (f x); rewrite !length_app; simpl; lia.
Qed.

Section HomeProperties.

Variable toString36 : Sample -> string.
Variable ToString : JSValue -> string.

(** What [generatePlaylist] writes on the console. *)
Lemma generatePlaylist_console this request w :
  match fst (generatePlaylist toString36 this request w) with
  | Resolved _ => console (snd (generatePlaylist toString36 this request w)) = console w
  | Rejected e =>
      console (snd (generatePlaylist toString36 this request w))
      = console w ++ [("Spotify API Error:", e)]
  end.
Proof.
  unfold generatePlaylist. apply logged_rethrow.
  repeat silent_step; auto using silent_playlist_track.
Qed.

(** The handler, for a chosen emotion, in terms of the client's call. *)
Lemma generation_runs this s emotion w :
  Home.chosen s = Some emotion ->
  fst (Home.handleGeneratePlaylist toString36 ToString this s)
  = [Home.setIsLoading true; Home.setError None]
  /\ snd (Home.handleGeneratePlaylist toString36 ToString this s) w
     = match generatePlaylist toString36 this
               (emotion_request emotion (Home.numTracks s)) w with
       | (Resolved response, w') =>
           (Resolved [Home.setPlaylistData response; Home.setIsLoading false], w')
       | (Rejected err, w') =>
           (Resolved [Home.setError (Some (Home.Error_message ToString err));
                      Home.setIsLoading false],
            snd (console_error "Error generating playlist:" err w'))
       end.
Proof.
  intros Hchosen. unfold Home.handleGeneratePlaylist. rewrite Hchosen.
  split; [reflexivity|]. cbn [snd].
  unfold searchByEmotion, emotion_request. cbn [default].
  unfold bind at 1, try_catch, bind at 1.
  destruct (generatePlaylist _ _ _ w) as [[response|err] w']; reflexivity.
Qed.

(** X22.  [handleGeneratePlaylist] does nothing when no emotion is
    selected (or the empty one): no setter is called and no request is made.
    Otherwise it switches the spinner on and clears the error, sends one POST
    to [/generate-playlist] whose body holds the selected emotion alone and
    the chosen number of tracks and nothing else, and never rejects: when the
    client resolves it stores the response, when the client rejects it
    stores the message of the error instead, so that the playlist shown
    before stays, and that error is on the console twice, once from the
    client and once from the page; in both cases its last act is to switch
    the spinner off. *)
Theorem generate_handler_outcome this s w :
  let before := fst (Home.handleGeneratePlaylist toString36 ToString this s) in
  let rest := snd (Home.handleGeneratePlaylist toString36 ToString this s) w in
  match Home.chosen s with
  | None => before = [] /\ rest = (Resolved [], w)
  | Some emotion =>
      let client := generatePlaylist toString36 this
                      (emotion_request emotion (Home.numTracks s)) w in
      before = [Home.setIsLoading true; Home.setError None]
      /\ fetched (snd rest)
         = fetched w
           ++ [{| url := (baseUrl this ++ "/generate-playlist")%string; query := [];
                  method := POST;
                  headers := [("Content-Type", "application/json")];
                  body := Some (JObj [("emotion", JArr [JStr emotion]);
                                      ("num_results",
                                       JSON_number (Home.numTracks s))]) |}]
      /\ match fst client with
         | Resolved response =>
             fst rest = Resolved [Home.setPlaylistData response; Home.setIsLoading false]
             /\ console (snd rest) = console w
         | Rejected err =>
             fst rest = Resolved [Home.setError (Some (Home.Error_message ToString err));
                                  Home.setIsLoading false]
             /\ console (snd rest)
                = console w ++ [("Spotify API Error:", err);
                                ("Error generating playlist:", err)]
         end
  end.
Proof.
  intros before rest. unfold before, rest.
  destruct (Home.chosen s) as [emotion|] eqn:Hchosen.
  - destruct (generation_runs this s emotion w Hchosen) as [Hbefore Hrest].
    rewrite Hbefore, Hrest.
    pose proof (sends_request_of toString36 (fun _ => PrimFloat.zero) this
                  (call_generatePlaylist (emotion_request emotion (Home.numTracks s))) w)
      as Hsent.
    pose proof (generatePlaylist_console this
                  (emotion_request emotion (Home.numTracks s)) w) as Hlog.
    cbn [perform request_of] in Hsent.
    destruct (generatePlaylist _ _ _ w) as [[response|err] w'].
    + cbn [fst snd] in *. split; [reflexivity|]. split; [exact Hsent|].
      split; [reflexivity | exact Hlog].
    + cbn [fst snd] in *. split; [reflexivity|]. split; [exact Hsent|].
      split; [reflexivity|]. unfold console_error. cbn [snd console].
      rewrite Hlog, <- app_assoc. reflexivity.
  - unfold Home.handleGeneratePlaylist. rewrite Hchosen. split; reflexivity.
Qed.

(** X23.  When the backend refuses a generation with a JSON body, the error
    the page then holds is the [detail] of that body if it is truthy, and
    ['Failed to generate playlist'] otherwise; the spinner is off, and the
    playlist data is what it was, so that an earlier playlist stays on the
    page next to the error. *)
Theorem refused_generation_shows_detail this s emotion w body detail s' :
  Home.chosen s = Some emotion ->
  refuses w (request_of this
               (call_generatePlaylist (emotion_request emotion (Home.numTracks s))))
          (Resolved body) ->
  get_prop body "detail" = Resolved detail ->
  exists after,
    fst (snd (Home.handleGeneratePlaylist toString36 ToString this s) w) = Resolved after
    /\ Home.error (Home.updates after s')
       = Some (if truthy detail then
                 match detail with
                 | JStr m => m
                 | _ => ToString detail
                 end
               else "Failed to generate playlist")
    /\ Home.isLoading (Home.updates after s') = false
    /\ Home.playlistData (Home.updates after s') = Home.playlistData s'
    /\ Home.shows_results (Home.updates after s') = truthy (Home.playlistData s').
Proof.
  intros Hchosen (response & Hnet & Hok & Hjson) Hdetail.
  destruct (generation_runs this s emotion w Hchosen) as [_ Hrest].
  assert (Hclient : fst (generatePlaylist toString36 this
                           (emotion_request emotion (Home.numTracks s)) w)
                    = Rejected (new_Error (js_or detail (JStr "Failed to generate playlist")))).
  { simpl in Hnet. unfold generatePlaylist.
    rewrite (fetch_resolved _ _ _ _ _ Hnet), Hok. simpl.
    unfold try_catch, bind at 1. rewrite Hjson. simpl.
    unfold bind at 1. rewrite Hdetail. reflexivity. }
  destruct (generatePlaylist _ _ _ w) as [[result|err] w']; simpl in Hclient;
    [discriminate|].
  injection Hclient as ->.
  eexists. split; [rewrite Hrest; reflexivity|].
  split; [|split; [reflexivity|split; reflexivity]].
  cbn [Home.updates fold_left Home.update Home.error]. f_equal.
  unfold js_or. destruct (truthy detail) eqn:Ht; [|reflexivity].
  destruct detail; try reflexivity. discriminate.
Qed.

(** The page's [collage_free] at the mount and along every event. *)
Lemma mount_collage_free this w : collage_free (Home.mount this w).
Proof.
  unfold Home.mount, Home.spawn. cbn [Home.world Home.state Home.promises].
  destruct (fetch_emotions_runs this w) as (value & _ & ->).
  split; [reflexivity|].
  cbn [Home.promises app]. intros us u v Hus Hu Hv.
  apply list_elem_of_singleton in Hus. subst us.
  apply list_elem_of_singleton in Hu. subst u. discriminate.
Qed.

Lemma not_disabled_chosen s :
  Home.button_disabled s = false ->
  Home.isLoading s = false /\ exists emotion, Home.chosen s = Some emotion.
Proof.
  unfold Home.button_disabled. intros H. apply orb_false_iff in H as [Hc Hl].
  split; [exact Hl|]. destruct (Home.chosen s); [eauto | discriminate].
Qed.

(** A click on the enabled button, step by step. *)
Lemma click_generate this p :
  Home.button_disabled (Home.state p) = false ->
  exists emotion after w',
    Home.chosen (Home.state p) = Some emotion
    /\ Home.isLoading (Home.state p) = false
    /\ Home.step toString36 ToString this Home.ClickGenerate p
       = {| Home.state := Home.updates [Home.setIsLoading true; Home.setError None]
                            (Home.state p);
            Home.world := w';
            Home.promises := Home.promises p ++ [after ++ [Home.setIsLoading false]] |}
    /\ (after = [Home.setError
                   (Some (Home.Error_message ToString
                            match fst (generatePlaylist toString36 this
                                         (emotion_request emotion
                                            (Home.numTracks (Home.state p)))
                                         (Home.world p)) with
                            | Rejected err => err
                            | Resolved _ => new_Error JUndefined
                            end))]
        \/ exists response,
             fst (generatePlaylist toString36 this
                    (emotion_request emotion (Home.numTracks (Home.state p)))
                    (Home.world p)) = Resolved response
             /\ after = [Home.setPlaylistData response]).
Proof.
  intros Hen. destruct (not_disabled_chosen _ Hen) as (Hl & emotion & Hchosen).
  destruct (generation_runs this (Home.state p) emotion (Home.world p) Hchosen)
    as [Hbefore Hrest].
  exists emotion.
  cbn [Home.step]. rewrite Hen.
  destruct (Home.handleGeneratePlaylist toString36 ToString this (Home.state p))
    as [before rest]. cbn [fst snd] in Hbefore, Hrest. subst before.
  unfold Home.spawn. cbn [Home.world Home.state Home.promises]. rewrite Hrest.
  destruct (generatePlaylist _ _ _ (Home.world p)) as [[response|err] w'].
  - exists [Home.setPlaylistData response], w'.
    split; [exact Hchosen|]. split; [exact Hl|]. split; [reflexivity|].
    right. exists response. split; reflexivity.
  - eexists [_], _. split; [exact Hchosen|]. split; [exact Hl|].
    split; [reflexivity|]. left. reflexivity.
Qed.

Lemma step_collage_free this e p :
  collage_free p -> collage_free (Home.step toString36 ToString this e p).
Proof.
  intros [Hstate Hpromises]. destruct e as [emotion|n| |n].
  - split; [exact Hstate | exact Hpromises].
  - split; [exact Hstate | exact Hpromises].
  - destruct (Home.button_disabled (Home.state p)) eqn:Hen.
    + cbn [Home.step]. rewrite Hen. split; assumption.
    + destruct (click_generate this p Hen) as (emotion & after & w' & _ & _ & -> & Hafter).
      split; [exact Hstate|].
      cbn [Home.promises]. intros us u v Hus Hu Hv.
      apply elem_of_app in Hus as [Hus|Hus]; [exact (Hpromises us u v Hus Hu Hv)|].
      apply list_elem_of_singleton in Hus. subst us.
      destruct Hafter as [->|(response & Hclient & ->)].
      * cbn [app] in Hu. apply elem_of_cons in Hu as [->|Hu]; [discriminate|].
        apply list_elem_of_singleton in Hu. subst u. discriminate.
      * cbn [app] in Hu. apply elem_of_cons in Hu as [->|Hu].
        -- injection Hv as <-.
           destruct (generatePlaylist_result_shape toString36 _ _ _ _ Hclient)
             as (playlist & emotion_features & combined_embedding & ->).
           reflexivity.
        -- apply list_elem_of_singleton in Hu. subst u. discriminate.
  - cbn [Home.step]. destruct (Home.promises p !! n) as [us|] eqn:Hn;
      [|split; assumption].
    assert (Hin : us ∈ Home.promises p) by (eapply list_elem_of_lookup_2; exact Hn).
    split.
    + cbn [Home.state].
      destruct (updates_playlistData us (Home.state p)) as [->|(u & Hu & Hv)];
        [exact Hstate|].
      exact (Hpromises us u _ Hin Hu Hv).
    + cbn [Home.promises]. intros us' u v Hus' Hu Hv.
      apply list_elem_of_delete_inv in Hus'. exact (Hpromises us' u v Hus' Hu Hv).
Qed.

Lemma run_events_collage_free this events : forall p,
  collage_free p -> collage_free (Home.run_events toString36 ToString this events p).
Proof.
  induction events as [|e events IH]; intros p Hp; [exact Hp|].
  apply (IH (Home.step toString36 ToString this e p)).
  apply step_collage_free. exact Hp.
Qed.

(** X24.  Whatever the backend sends and whatever the user does, the Home
    page never shows a mood collage: at every point of every run, the
    playlist data it holds has no [mood_collage] to render. *)
Theorem home_never_shows_collage this w events :
  let p := Home.run_events toString36 ToString this events (Home.mount this w) in
  Home.shows_collage (Home.state p) = false
  /\ no_collage (Home.playlistData (Home.state p)) = true.
Proof.
  intros p.
  destruct (run_events_collage_free this events _ (mount_collage_free this w))
    as [Hstate _].
  fold p in Hstate. split; [|exact Hstate].
  unfold Home.shows_collage. unfold no_collage in Hstate.
  destruct (get_prop (Home.playlistData (Home.state p)) "mood_collage") as [v|e].
  - apply negb_true_iff in Hstate. rewrite Hstate. apply andb_false_r.
  - apply andb_false_r.
Qed.

(** The page's [one_generation] at the mount and along every event. *)
Lemma mount_one_generation this w : one_generation (Home.mount this w).
Proof.
  unfold one_generation, generations, Home.mount, Home.spawn.
  cbn [Home.world Home.state Home.promises].
  destruct (fetch_emotions_runs this w) as (value & _ & ->).
  cbn [Home.promises Home.state app]. split; [reflexivity|].
  intros us Hus. apply list_elem_of_singleton in Hus. subst us.
  right. intros u Hu. apply list_elem_of_singleton in Hu. subst u. reflexivity.
Qed.

Lemma is_generation_last us :
  Home.is_generation us = true <-> last us = Some (Home.setIsLoading false).
Proof.
  unfold Home.is_generation. split.
  - destruct (last us) as [[| | [|] | | |]|]; try discriminate. reflexivity.
  - intros ->. reflexivity.
Qed.

Lemma not_generation us :
  (forall u, u ∈ us -> stored_loading u = None) -> Home.is_generation us = false.
Proof.
  intros Hnone. destruct (Home.is_generation us) eqn:Hg; [|reflexivity].
  apply is_generation_last in Hg. apply last_Some_elem_of in Hg.
  specialize (Hnone _ Hg). discriminate.
Qed.

Lemma step_one_generation this e p :
  one_generation p -> one_generation (Home.step toString36 ToString this e p).
Proof.
  intros [Hcount Hpromises]. destruct e as [emotion|n| |n].
  - split; [exact Hcount | exact Hpromises].
  - split; [exact Hcount | exact Hpromises].
  - destruct (Home.button_disabled (Home.state p)) eqn:Hen.
    + cbn [Home.step]. rewrite Hen. split; assumption.
    + destruct (click_generate this p Hen) as (emotion & after & w' & _ & Hl & -> & _).
      rewrite Hl in Hcount.
      split.
      * unfold generations in *. cbn [Home.promises Home.state].
        rewrite List.filter_app, length_app, Hcount. cbn [List.filter].
        rewrite (proj2 (is_generation_last _)) by apply last_snoc. reflexivity.
      * cbn [Home.promises]. intros us Hus.
        apply elem_of_app in Hus as [Hus|Hus]; [exact (Hpromises us Hus)|].
        apply list_elem_of_singleton in Hus. subst us. left. apply last_snoc.
  - cbn [Home.step]. destruct (Home.promises p !! n) as [us|] eqn:Hn;
      [|split; assumption].
    assert (Hin : us ∈ Home.promises p) by (eapply list_elem_of_lookup_2; exact Hn).
    pose proof (filter_delete Home.is_generation _ _ _ Hn) as Hdel.
    split.
    + unfold generations in *. cbn [Home.promises Home.state].
      destruct (Hpromises us Hin) as [Hlast|Hnone].
      * rewrite (updates_isLoading_last _ _ Hlast).
        rewrite (proj2 (is_generation_last _) Hlast) in Hdel.
        destruct (Home.isLoading (Home.state p)); lia.
      * rewrite (updates_isLoading_same _ _ Hnone).
        rewrite (not_generation _ Hnone) in Hdel. lia.
    + cbn [Home.promises]. intros us' Hus'.
      apply list_elem_of_delete_inv in Hus'. exact (Hpromises us' Hus').
Qed.

Lemma run_events_one_generation this events : forall p,
  one_generation p -> one_generation (Home.run_events toString36 ToString this events p).
Proof.
  induction events as [|e events IH]; intros p Hp; [exact Hp|].
  apply (IH (Home.step toString36 ToString this e p)).
  apply step_one_generation. exact Hp.
Qed.

(** X25.  At every point of every run of the Home page, the spinner is on
    exactly while a generation is waited for, and there is at most one: the
    page never has two generations under way.  A click on the button sends
    the one request of a generation when the button is enabled, and nothing
    when it is disabled (no emotion selected, or a generation under way). *)
Theorem home_one_generation_at_a_time this w events :
  let p := Home.run_events toString36 ToString this events (Home.mount this w) in
  length (generations p) = (if Home.shows_spinner (Home.state p) then 1 else 0)
  /\ length (generations p) <= 1
  /\ fetched (Home.world (Home.step toString36 ToString this Home.ClickGenerate p))
     = fetched (Home.world p)
       ++ (if Home.button_disabled (Home.state p) then []
           else [request_of this
                   (call_generatePlaylist
                      (emotion_request (default "" (Home.chosen (Home.state p)))
                         (Home.numTracks (Home.state p))))]).
Proof.
  intros p.
  destruct (run_events_one_generation this events _ (mount_one_generation this w))
    as [Hcount _].
  fold p in Hcount. unfold Home.shows_spinner.
  split; [exact Hcount|]. split; [rewrite Hcount; destruct (Home.isLoading _); lia|].
  destruct (Home.button_disabled (Home.state p)) eqn:Hen.
  - cbn [Home.step]. rewrite Hen. symmetry. apply app_nil_r.
  - destruct (not_disabled_chosen _ Hen) as (_ & emotion & Hchosen).
    destruct (generation_runs this (Home.state p) emotion (Home.world p) Hchosen)
      as [_ Hrest].
    pose proof (sends_request_of toString36 (fun _ => PrimFloat.zero) this
                  (call_generatePlaylist
                     (emotion_request emotion (Home.numTracks (Home.state p))))
                  (Home.world p)) as Hsent.
    cbn [perform] in Hsent.
    cbn [Home.step]. rewrite Hen.
    destruct (Home.handleGeneratePlaylist toString36 ToString this (Home.state p))
      as [before rest]. cbn [snd] in Hrest.
    unfold Home.spawn. cbn [Home.world]. rewrite Hrest, Hchosen. cbn [default].
    destruct (generatePlaylist _ _ _ (Home.world p)) as [[response|err] w'];
      cbn [snd Home.world] in *; [exact Hsent|].
    unfold console_error. cbn [snd fetched]. exact Hsent.
Qed.

(** X26.  The effect of the mount never fails: the promise of
    [getEmotions] always resolves, so the [catch] of the page is not entered
    and writes nothing; once it has settled the page offers what the client
    resolved to; and when the request for the emotions failed these are the
    ten default emotions the page started with. *)
Theorem mount_offers_emotions this w :
  exists value,
    fst (getEmotions this w) = Resolved value
    /\ Home.promises (Home.mount this w) = [[Home.setEmotions value]]
    /\ Home.world (Home.mount this w) = snd (getEmotions this w)
    /\ Home.emotions
         (Home.state (Home.step toString36 ToString this (Home.Settle 0)
                        (Home.mount this w)))
       = value
    /\ (failed (network w (length (fetched w)) (request_of this call_getEmotions)) = true ->
        value = Home.DEFAULT_EMOTIONS
        /\ Home.state (Home.step toString36 ToString this (Home.Settle 0)
                         (Home.mount this w))
           = Home.initial).
Proof.
  destruct (fetch_emotions_runs this w) as (value & Hvalue & Hrun).
  exists value. split; [exact Hvalue|].
  assert (Hmount : Home.mount this w
                   = {| Home.state := Home.initial;
                        Home.world := snd (getEmotions this w);
                        Home.promises := [[Home.setEmotions value]] |}).
  { unfold Home.mount, Home.spawn. cbn [Home.world]. rewrite Hrun. reflexivity. }
  rewrite Hmount. split; [reflexivity|]. split; [reflexivity|].
  split; [reflexivity|].
  intros Hfail.
  assert (Hdefault : value = Home.DEFAULT_EMOTIONS).
  { cbn [request_of] in Hfail. unfold a_GET in Hfail.
    destruct (network w (length (fetched w)) _) as [response|e] eqn:Hnet;
      simpl in Hfail.
    - apply negb_true_iff in Hfail. unfold getEmotions in Hvalue.
      rewrite (fetch_resolved _ _ _ _ _ Hnet), Hfail in Hvalue.
      simpl in Hvalue. injection Hvalue as <-. reflexivity.
    - unfold getEmotions in Hvalue.
      rewrite (fetch_rejected _ _ _ _ _ Hnet) in Hvalue.
      simpl in Hvalue. injection Hvalue as <-. reflexivity. }
  split; [exact Hdefault|]. rewrite Hdefault. reflexivity.
Qed.

End HomeProperties.

(** The backend answers 404 with a detail: that is what the page shows. *)
Lemma refused_generation_shows_detail_witness :
  let s := Home.update (Home.setSelectedEmotion "happy") Home.initial in
  let w := world_answering
             (Resolved {| ok := false;
                          json := Resolved (JObj [("detail", JStr "No songs found")]) |}) in
  exists after,
    fst (snd (Home.handleGeneratePlaylist sample_digits (fun _ => "") spotifyAPI s) w)
    = Resolved after
    /\ Home.error (Home.updates after s) = Some "No songs found".
Proof.
  intros s w.
  destruct (refused_generation_shows_detail sample_digits (fun _ => "") spotifyAPI s
              "happy" w (JObj [("detail", JStr "No songs found")])
              (JStr "No songs found") s eq_refl
              (ex_intro _ _ (conj eq_refl (conj eq_refl eq_refl))) eq_refl)
    as (after & Hrun & Herror & _).
  exists after. split; [exact Hrun | exact Herror].
Defined.

(** With the network down the page keeps its ten emotions. *)
Lemma mount_offers_emotions_witness :
  Home.emotions
    (Home.state (Home.step sample_digits (fun _ => "") spotifyAPI (Home.Settle 0)
                   (Home.mount spotifyAPI offline)))
  = Home.DEFAULT_EMOTIONS.
Proof.
  destruct (mount_offers_emotions sample_digits (fun _ => "") spotifyAPI offline)
    as (value & _ & _ & _ & Hshown & Hfail).
  rewrite Hshown. exact (proj1 (Hfail eq_refl)).
Defined.

(** The suggestions for "Happy" are known emotions other than happy. *)
Lemma complementary_emotions_are_known_witness :
  "energetic" ∈ known_emotions /\ "energetic" <> toLowerCase "Happy".
Proof.
  pose proof (complementary_emotions_are_known "Happy") as H.
  change (getComplementaryEmotions "Happy")
    with (Own ["energetic"; "hopeful"; "romantic"]) in H.
  cbv beta iota in H. destruct H as (_ & _ & H).
  destruct (H "energetic" ltac:(left)) as (Hknown & Hother & _).
  split; [exact Hknown | exact Hother].
Defined.
